(** * EveryBot: the workspace sandbox and the approval pipeline

    A shallow embedding of the file-tool trust boundary of EveryBot:
    [WorkspaceFS] (core/workspaceFs.ts), [createFileTools]
    (tools/fileTools.ts), [ApprovalManager] (tools/approval.ts),
    [AuditLogger] (tools/audit.ts), the tool and approval endpoints of
    [createHttpServer] (server/http.ts) and the scheduler executor's
    [runTool] (index.ts); then the directories of [loadConfig]
    (config.ts), [ProcessedStore] (conversation/processedStore.ts),
    [SchedulerEngine] and [SchedulerRunner] (scheduler/) and
    [firstLineSummary] (core/text.ts).

    Conventions.
    - A JavaScript string is the list of its UTF-16 code units.
    - The host is a POSIX one: [path] is Node's [path.posix]; the only
      [path.win32] function the code calls, [isAbsolute], is modelled too.
    - Asynchronous calls are run to completion one after the other; a
      rejected promise is a thrown exception. *)

From Stdlib Require Import String Ascii ZArith Bool Lia Arith List.
Import ListNotations.
Local Open Scope Z_scope.

Set Implicit Arguments.
Set Warnings "-register-all,-notation-for-abbreviation".

(* ================================================================== *)
(** * JavaScript strings *)

Module Js.

Definition jsstring := list Z.

(** A literal, from its ASCII spelling. *)
Fixpoint str (s : string) : jsstring :=
  match s with
  | EmptyString => []
  | String a s' => Z.of_N (N_of_ascii a) :: str s'
  end.

Fixpoint streq (a b : jsstring) : bool :=
  match a, b with
  | [], [] => true
  | c :: a', d :: b' => (c =? d) && streq a' b'
  | _, _ => false
  end.

Definition is_empty (s : jsstring) : bool :=
  match s with [] => true | _ => false end.

(** [s.startsWith(p)] *)
Fixpoint startsWith (s p : jsstring) {struct p} : bool :=
  match p, s with
  | [], _ => true
  | c :: p', d :: s' => (c =? d) && startsWith s' p'
  | _ :: _, [] => false
  end.

(** ECMAScript WhiteSpace and LineTerminator code units, the ones
    [String.prototype.trim] strips. *)
Definition is_space (c : Z) : bool :=
  ((9 <=? c) && (c <=? 13)) || (c =? 32) || (c =? 160) || (c =? 5760)
  || ((8192 <=? c) && (c <=? 8202)) || (c =? 8232) || (c =? 8233)
  || (c =? 8239) || (c =? 8287) || (c =? 12288) || (c =? 65279).

Fixpoint trimStart (s : jsstring) : jsstring :=
  match s with
  | c :: s' => if is_space c then trimStart s' else s
  | [] => []
  end.

Definition trim (s : jsstring) : jsstring :=
  rev (trimStart (rev (trimStart s))).

(** [s.split(sep)] for a one-unit separator. *)
Fixpoint split (sep : Z) (s : jsstring) : list jsstring :=
  match s with
  | [] => [[]]
  | c :: s' =>
      if c =? sep then [] :: split sep s'
      else match split sep s' with
           | h :: t => (c :: h) :: t
           | [] => [[c]]
           end
  end.

(** [l.join(sep)] *)
Fixpoint join (sep : jsstring) (l : list jsstring) : jsstring :=
  match l with
  | [] => []
  | [x] => x
  | x :: l' => x ++ sep ++ join sep l'
  end.

(** [l.filter(Boolean)] on an array of strings. *)
Definition filter_Boolean (l : list jsstring) : list jsstring :=
  filter (fun s => negb (is_empty s)) l.

(** Decimal spelling of a non-negative integer, as [`${n}`] gives it. *)
Fixpoint digits (fuel : nat) (n : Z) (acc : jsstring) : jsstring :=
  match fuel with
  | O => acc
  | S k => let acc' := (48 + n mod 10) :: acc in
           if n <? 10 then acc' else digits k (n / 10) acc'
  end.

Definition of_number (n : Z) : jsstring :=
  if n <? 0 then 45 :: digits (Z.to_nat (Z.log2 (- n)) + 1) (- n) []
  else digits (Z.to_nat (Z.log2 n) + 1) n [].

End Js.
Import Js.

(* ================================================================== *)
(** * Node's [path] module *)

Module Path.

Definition CHAR_FORWARD_SLASH := 47.
Definition CHAR_BACKWARD_SLASH := 92.
Definition CHAR_DOT := 46.
Definition CHAR_COLON := 58.

Definition sep : jsstring := [CHAR_FORWARD_SLASH].
Definition dot : jsstring := [CHAR_DOT].
Definition dotdot : jsstring := [CHAR_DOT; CHAR_DOT].

Definition isPathSeparator (c : Z) : bool :=
  (c =? CHAR_FORWARD_SLASH) || (c =? CHAR_BACKWARD_SLASH).

Definition isWindowsDeviceRoot (c : Z) : bool :=
  ((65 <=? c) && (c <=? 90)) || ((97 <=? c) && (c <=? 122)).

(** [path.win32.isAbsolute] *)
Definition win32_isAbsolute (p : jsstring) : bool :=
  match p with
  | [] => false
  | c :: rest =>
      isPathSeparator c ||
      match rest with
      | c1 :: c2 :: _ =>
          isWindowsDeviceRoot c && (c1 =? CHAR_COLON) && isPathSeparator c2
      | _ => false
      end
  end.

(** [path.posix.isAbsolute] *)
Definition isAbsolute (p : jsstring) : bool :=
  match p with
  | c :: _ => c =? CHAR_FORWARD_SLASH
  | [] => false
  end.

(** One segment of [normalizeString], on the stack of the segments kept so
    far (last one first): empty and [.] segments are dropped, [..] removes
    the last kept segment, or is kept itself when there is none to remove
    and the path may climb above its start. *)
Definition normalize_step (allowAboveRoot : bool) (stack : list jsstring)
    (seg : jsstring) : list jsstring :=
  if is_empty seg || streq seg dot then stack
  else if streq seg dotdot then
    match stack with
    | top :: below =>
        if streq top dotdot
        then (if allowAboveRoot then dotdot :: stack else stack)
        else below
    | [] => if allowAboveRoot then [dotdot] else []
    end
  else seg :: stack.

Definition normalize_segments (allowAboveRoot : bool)
    (stack segs : list jsstring) : list jsstring :=
  fold_left (normalize_step allowAboveRoot) segs stack.

Definition normalizeString (p : jsstring) (allowAboveRoot : bool) : jsstring :=
  join sep (rev (normalize_segments allowAboveRoot [] (split CHAR_FORWARD_SLASH p))).

(** [path.normalize] *)
Definition normalize (p : jsstring) : jsstring :=
  match p with
  | [] => dot
  | _ =>
      let abs := isAbsolute p in
      let trailing := match rev p with c :: _ => c =? CHAR_FORWARD_SLASH | [] => false end in
      let n := normalizeString p (negb abs) in
      match n with
      | [] => if abs then sep else if trailing then dot ++ sep else dot
      | _ => let n' := if trailing then n ++ sep else n in
             if abs then sep ++ n' else n'
      end
  end.

(** [path.join] *)
Definition join_paths (args : list jsstring) : jsstring :=
  match filter_Boolean args with
  | [] => dot
  | parts => normalize (Js.join sep parts)
  end.

(** The loop of [path.resolve]: the arguments from the last one backwards,
    then the working directory, until an absolute one is met. *)
Fixpoint resolve_loop (paths : list jsstring) (resolvedPath : jsstring)
    : jsstring * bool :=
  match paths with
  | [] => (resolvedPath, false)
  | p :: rest =>
      if is_empty p then resolve_loop rest resolvedPath
      else
        let rp := p ++ sep ++ resolvedPath in
        if isAbsolute p then (rp, true) else resolve_loop rest rp
  end.

(** [path.resolve(...args)], with [process.cwd()] as [cwd]. *)
Definition resolve (cwd : jsstring) (args : list jsstring) : jsstring :=
  let (rp, abs) := resolve_loop (rev args ++ [cwd]) [] in
  let n := normalizeString rp (negb abs) in
  if abs then sep ++ n
  else match n with [] => dot | _ => n end.

(** The segments of a path, empty ones left out. *)
Definition segments (p : jsstring) : list jsstring :=
  filter_Boolean (split CHAR_FORWARD_SLASH p).

(** What two segment lists have in common at their start is dropped. *)
Fixpoint drop_common (a b : list jsstring) : list jsstring * list jsstring :=
  match a, b with
  | x :: a', y :: b' => if streq x y then drop_common a' b' else (a, b)
  | _, _ => (a, b)
  end.

(** [path.relative(from, to)] *)
Definition relative (cwd from to : jsstring) : jsstring :=
  if streq from to then []
  else
    let from' := resolve cwd [from] in
    let to' := resolve cwd [to] in
    if streq from' to' then []
    else
      let (up, down) := drop_common (segments from') (segments to') in
      join sep (map (fun _ => dotdot) up ++ down).

(** [path.dirname] *)
Fixpoint drop_slashes (r : jsstring) : jsstring :=
  match r with
  | c :: r' => if c =? CHAR_FORWARD_SLASH then drop_slashes r' else r
  | [] => []
  end.

Fixpoint drop_name (r : jsstring) : jsstring :=
  match r with
  | c :: r' => if c =? CHAR_FORWARD_SLASH then r else drop_name r'
  | [] => []
  end.

Definition dirname (p : jsstring) : jsstring :=
  match p with
  | [] => dot
  | c :: rest =>
      let hasRoot := c =? CHAR_FORWARD_SLASH in
      match drop_name (drop_slashes (rev rest)) with
      | [] => if hasRoot then sep else dot
      | _ :: before =>
          match before with
          | [] => if hasRoot then sep ++ sep else [c]
          | _ => c :: rev before
          end
      end
  end.

(** ** Normal forms

    The paths that [resolve] returns are a [/] followed by names joined by
    [/]: [render] of a list of names. *)

Definition no_slash (seg : jsstring) : bool :=
  forallb (fun c => negb (c =? CHAR_FORWARD_SLASH)) seg.

Definition is_name (seg : jsstring) : bool :=
  negb (is_empty seg) && no_slash seg
  && negb (streq seg dot) && negb (streq seg dotdot).

Definition render (names : list jsstring) : jsstring :=
  sep ++ Js.join sep names.

Fixpoint is_prefix (a b : list jsstring) : bool :=
  match a, b with
  | [], _ => true
  | x :: a', y :: b' => streq x y && is_prefix a' b'
  | _ :: _, [] => false
  end.

(** The names of an absolute path, and the names that a path [u] leads
    to from the directory of names [base]. *)
Definition canon (p : jsstring) : list jsstring :=
  rev (normalize_segments false [] (split CHAR_FORWARD_SLASH p)).

Definition below (base : list jsstring) (u : jsstring) : list jsstring :=
  rev (normalize_segments false (rev base) (split CHAR_FORWARD_SLASH u)).

(** [p] is [root] or lies below it, segment by segment. *)
Definition inside (root p : jsstring) : bool :=
  is_prefix (segments root) (segments p).

(** A segment [..] in a path as it is spelled. *)
Definition has_parent_segment (p : jsstring) : bool :=
  existsb (fun seg => streq seg dotdot) (split CHAR_FORWARD_SLASH p).

End Path.

(* ================================================================== *)
(** * UTF-8, as [Buffer] encodes and decodes it *)

Module Utf8.

Definition is_high (c : Z) : bool := (55296 <=? c) && (c <=? 56319).
Definition is_low (c : Z) : bool := (56320 <=? c) && (c <=? 57343).

Definition REPLACEMENT := 65533.

(** The bytes of one code point. *)
Definition encode_cp (cp : Z) : list Z :=
  if cp <? 128 then [cp]
  else if cp <? 2048 then [192 + cp / 64; 128 + cp mod 64]
  else if cp <? 65536 then
    [224 + cp / 4096; 128 + (cp / 64) mod 64; 128 + cp mod 64]
  else
    [240 + cp / 262144; 128 + (cp / 4096) mod 64;
     128 + (cp / 64) mod 64; 128 + cp mod 64].

(** [Buffer.from(s, "utf-8")]: a surrogate pair is one code point, a
    surrogate on its own is written as U+FFFD. *)
Fixpoint encode (s : jsstring) : list Z :=
  match s with
  | [] => []
  | c :: s' =>
      if is_high c then
        match s' with
        | d :: s'' =>
            if is_low d
            then encode_cp (65536 + (c - 55296) * 1024 + (d - 56320)) ++ encode s''
            else encode_cp REPLACEMENT ++ encode s'
        | [] => encode_cp REPLACEMENT
        end
      else if is_low c then encode_cp REPLACEMENT ++ encode s'
      else encode_cp c ++ encode s'
  end.

(** [Buffer.byteLength(s, "utf-8")] *)
Definition byteLength (s : jsstring) : Z := Z.of_nat (length (encode s)).

(** The code units of one code point. *)
Definition units (cp : Z) : jsstring :=
  if cp <? 65536 then [cp]
  else [55296 + (cp - 65536) / 1024; 56320 + (cp - 65536) mod 1024].

(** The decoder between two code points, at a lead byte: what it emits,
    and the sequence it is in afterwards (code point so far, continuation
    bytes needed, bounds of the next byte). *)
Record pending_seq := mkSeq { acc : Z; needed : nat; lower : Z; upper : Z }.

Definition lead (b : Z) : jsstring * option pending_seq :=
  if (0 <=? b) && (b <=? 127) then ([b], None)
  else if (194 <=? b) && (b <=? 223) then ([], Some (mkSeq (b - 192) 1 128 191))
  else if (224 <=? b) && (b <=? 239) then
    ([], Some (mkSeq (b - 224) 2 (if b =? 224 then 160 else 128)
                     (if b =? 237 then 159 else 191)))
  else if (240 <=? b) && (b <=? 244) then
    ([], Some (mkSeq (b - 240) 3 (if b =? 240 then 144 else 128)
                     (if b =? 244 then 143 else 191)))
  else ([REPLACEMENT], None).

(** [buf.toString("utf-8")]: an ill-formed sequence is read as U+FFFD and
    the byte that broke it is read again as a lead byte. *)
Fixpoint decode_from (st : option pending_seq) (bs : list Z) : jsstring :=
  match bs with
  | [] => match st with None => [] | Some _ => [REPLACEMENT] end
  | b :: bs' =>
      match st with
      | None => let (out, st') := lead b in out ++ decode_from st' bs'
      | Some q =>
          if (lower q <=? b) && (b <=? upper q) then
            let cp := acc q * 64 + (b - 128) in
            match needed q with
            | S (S n) => decode_from (Some (mkSeq cp (S n) 128 191)) bs'
            | _ => units cp ++ decode_from None bs'
            end
          else
            let (out, st') := lead b in
            REPLACEMENT :: out ++ decode_from st' bs'
      end
  end.

Definition decode (bs : list Z) : jsstring := decode_from None bs.

Definition is_unit (c : Z) : bool := (0 <=? c) && (c <? 65536).

(** [s.isWellFormed()]: no surrogate without its partner. *)
Fixpoint isWellFormed (s : jsstring) : bool :=
  match s with
  | [] => true
  | c :: s' =>
      if is_high c then
        match s' with
        | d :: s'' => is_low d && isWellFormed s''
        | [] => false
        end
      else negb (is_low c) && isWellFormed s'
  end.

End Utf8.

(* ================================================================== *)
(** * Exceptions and the monad of effectful code *)

Inductive errno := ENOENT | ENOTDIR | EISDIR | EEXIST | ELOOP.

(** What the code throws: its own [Error]s, by the check that raises them,
    and the errors of Node's [fs], by their code. *)
Inductive exn :=
| EmptyPath
| AbsolutePath
| DrivePath
| UncPath
| PathEscapesWorkspace
| SymlinkNotAllowed (p : jsstring)
| FileTooLarge (bytes : Z)
| UnknownTool (name : jsstring)
| IOError (code : errno) (syscall : jsstring) (p : jsstring)
| ReadError (code : errno)      (* of [read], on an open file: no path *)
| InvalidArgType.

Definition errno_text (c : errno) : jsstring :=
  match c with
  | ENOENT => str "ENOENT: no such file or directory"
  | ENOTDIR => str "ENOTDIR: not a directory"
  | EISDIR => str "EISDIR: illegal operation on a directory"
  | EEXIST => str "EEXIST: file already exists"
  | ELOOP => str "ELOOP: too many symbolic links encountered"
  end.

(** [e.message] *)
Definition message (e : exn) : jsstring :=
  match e with
  | EmptyPath => str "Empty path"
  | AbsolutePath => str "Absolute path not allowed"
  | DrivePath => str "Drive path not allowed"
  | UncPath => str "UNC path not allowed"
  | PathEscapesWorkspace => str "Path escapes workspace"
  | SymlinkNotAllowed p => str "Symlink/junction is not allowed: " ++ p
  | FileTooLarge n => str "File too large: " ++ of_number n ++ str " bytes"
  | UnknownTool name => str "Unknown tool: " ++ name
  | IOError c call p => errno_text c ++ str ", " ++ call ++ str " '" ++ p ++ str "'"
  | ReadError c => errno_text c ++ str ", read"
  | InvalidArgType => str "The data argument must be of type string"
  end.

Inductive outcome (A : Type) :=
| Return (a : A)
| Throw (e : exn).
Arguments Return {A} a.
Arguments Throw {A} e.

(** A computation over a state [S] that returns or throws. *)
Definition M (S A : Type) := S -> outcome A * S.

Definition ret {S A} (a : A) : M S A := fun s => (Return a, s).
Definition throw {S A} (e : exn) : M S A := fun s => (Throw e, s).
Definition bind {S A B} (m : M S A) (k : A -> M S B) : M S B :=
  fun s => match m s with
           | (Return a, s') => k a s'
           | (Throw e, s') => (Throw e, s')
           end.
(** [try { m } catch (e) { h(e) }] *)
Definition try_catch {S A} (m : M S A) (h : exn -> M S A) : M S A :=
  fun s => match m s with
           | (Return a, s') => (Return a, s')
           | (Throw e, s') => h e s'
           end.

Declare Scope js_scope.
Delimit Scope js_scope with js.
Notation "x <- m ;; k" := (bind m (fun x => k))
  (at level 61, m at next level, right associativity) : js_scope.
Notation "m ;; k" := (bind m (fun _ => k))
  (at level 61, right associativity) : js_scope.

(* ================================================================== *)
(** * The file system

    A tree of directories, regular files and symbolic links.  A link keeps
    the absolute location it names.  The model resolves a link where it is
    the last component of a path ([readFile], [writeFile], [readdir] and
    [mkdir] do, [lstat] and [rm] do not); it does not go through a link in
    the middle of a path, which it reports as [ENOTDIR]. *)

Module Fs.

Inductive node :=
| File (content : list Z)
| Link (target : list jsstring)
| Dir (entries : list (jsstring * node)).

Fixpoint assoc (k : jsstring) (es : list (jsstring * node)) : option node :=
  match es with
  | [] => None
  | (k', v) :: es' => if streq k k' then Some v else assoc k es'
  end.

(** Replace the entry of [k], or add it after the others. *)
Fixpoint set (k : jsstring) (v : node) (es : list (jsstring * node))
    : list (jsstring * node) :=
  match es with
  | [] => [(k, v)]
  | (k', v') :: es' =>
      if streq k k' then (k', v) :: es' else (k', v') :: set k v es'
  end.

Fixpoint remove (k : jsstring) (es : list (jsstring * node))
    : list (jsstring * node) :=
  match es with
  | [] => []
  | (k', v') :: es' =>
      if streq k k' then es' else (k', v') :: remove k es'
  end.

(** The node at a location, links not followed. *)
Fixpoint locate (t : node) (p : list jsstring) : errno + node :=
  match p with
  | [] => inr t
  | s :: p' =>
      match t with
      | Dir es =>
          match assoc s es with
          | Some c => locate c p'
          | None => inl ENOENT
          end
      | _ => inl ENOTDIR
      end
  end.

(** Put a node at a location whose parent is a directory. *)
Fixpoint put (t : node) (p : list jsstring) (n : node) : errno + node :=
  match p with
  | [] => inr n
  | s :: p' =>
      match t with
      | Dir es =>
          match p', assoc s es with
          | [], _ => inr (Dir (set s n es))
          | _, Some c =>
              match put c p' n with
              | inr c' => inr (Dir (set s c' es))
              | inl e => inl e
              end
          | _, None => inl ENOENT
          end
      | _ => inl ENOTDIR
      end
  end.

(** Remove the entry at a location, with all below it. *)
Fixpoint del (t : node) (p : list jsstring) : node :=
  match p with
  | [] => t
  | s :: p' =>
      match t with
      | Dir es =>
          match p', assoc s es with
          | [], _ => Dir (remove s es)
          | _, Some c => Dir (set s (del c p') es)
          | _, None => t
          end
      | _ => t
      end
  end.

Definition MAXSYMLINKS : nat := 40.

(** The location a path names once the links at its end are followed. *)
Fixpoint follow (hops : nat) (t : node) (p : list jsstring)
    : errno + list jsstring :=
  match locate t p with
  | inr (Link target) =>
      match hops with
      | O => inl ELOOP
      | S h => follow h t target
      end
  | _ => inr p
  end.

Definition is_dir_at (t : node) (p : list jsstring) : bool :=
  match follow MAXSYMLINKS t p with
  | inr q => match locate t q with inr (Dir _) => true | _ => false end
  | inl _ => false
  end.

(** [mkdir -p]: [g] is the whole tree, [here] the location of [t] in it. *)
Fixpoint mkdirp (g : node) (here : list jsstring) (t : node)
    (p : list jsstring) : errno + node :=
  match p with
  | [] =>
      match t with
      | Dir _ => inr t
      | File _ => inl EEXIST
      | Link _ => if is_dir_at g here then inr t else inl EEXIST
      end
  | s :: p' =>
      match t with
      | Dir es =>
          let child := match assoc s es with Some c => c | None => Dir [] end in
          match mkdirp g (here ++ [s]) child p' with
          | inr c' => inr (Dir (set s c' es))
          | inl e => inl e
          end
      | _ => inl ENOTDIR
      end
  end.

Inductive kind := IsFile | IsDirectory | IsSymbolicLink.

Definition kind_of (n : node) : kind :=
  match n with
  | File _ => IsFile
  | Link _ => IsSymbolicLink
  | Dir _ => IsDirectory
  end.

(** The calls made to [fs], in the order they are made. *)
Inductive call :=
| Lstat (p : jsstring)
| Mkdir (p : jsstring)
| ReadFile (p : jsstring)
| WriteFile (p : jsstring)
| Readdir (p : jsstring)
| Rm (p : jsstring).

Record state := mkState {
  tree : node;             (* the directory [/] *)
  cwd_below : jsstring;    (* [process.cwd()], after its leading [/] *)
  calls : list call
}.

(** [process.cwd()]: an absolute path. *)
Definition cwd (s : state) : jsstring := Path.CHAR_FORWARD_SLASH :: cwd_below s.

(** How the kernel reads a path: from [/] or from the working directory,
    [.] and [..] resolved. *)
Definition location (s : state) (p : jsstring) : list jsstring :=
  Path.segments (Path.resolve (cwd s) [p]).

(** Two states of one disk: the same tree and working directory. *)
Definition same_disk (s s' : state) : Prop :=
  tree s' = tree s /\ cwd_below s' = cwd_below s.

Definition note (c : call) (s : state) : state :=
  mkState (tree s) (cwd_below s) (c :: calls s).

Definition with_tree (t : node) (s : state) : state :=
  mkState t (cwd_below s) (calls s).

(** [fs.lstat(p)] *)
Definition lstat (p : jsstring) : M state kind :=
  fun s0 =>
    let s := note (Lstat p) s0 in
    match locate (tree s) (location s p) with
    | inr n => (Return (kind_of n), s)
    | inl e => (Throw (IOError e (str "lstat") p), s)
    end.

(** [fs.mkdir(p, { recursive: true })] *)
Definition mkdir_recursive (p : jsstring) : M state unit :=
  fun s0 =>
    let s := note (Mkdir p) s0 in
    match mkdirp (tree s) [] (tree s) (location s p) with
    | inr t' => (Return tt, with_tree t' s)
    | inl e => (Throw (IOError e (str "mkdir") p), s)
    end.

(** [fs.readFile(p)] *)
Definition readFile (p : jsstring) : M state (list Z) :=
  fun s0 =>
    let s := note (ReadFile p) s0 in
    match follow MAXSYMLINKS (tree s) (location s p) with
    | inr q =>
        match locate (tree s) q with
        | inr (File bytes) => (Return bytes, s)
        | inr _ => (Throw (ReadError EISDIR), s)
        | inl e => (Throw (IOError e (str "open") p), s)
        end
    | inl e => (Throw (IOError e (str "open") p), s)
    end.

(** [fs.writeFile(p, bytes)] *)
Definition writeFile (p : jsstring) (bytes : list Z) : M state unit :=
  fun s0 =>
    let s := note (WriteFile p) s0 in
    match follow MAXSYMLINKS (tree s) (location s p) with
    | inr q =>
        match locate (tree s) q with
        | inr (Dir _) => (Throw (IOError EISDIR (str "open") p), s)
        | _ =>
            match put (tree s) q (File bytes) with
            | inr t' => (Return tt, with_tree t' s)
            | inl e => (Throw (IOError e (str "open") p), s)
            end
        end
    | inl e => (Throw (IOError e (str "open") p), s)
    end.

(** [fs.readdir(p, { withFileTypes: true })]: the names, each with
    [isDirectory()] of its entry. *)
Definition readdir (p : jsstring) : M state (list (jsstring * bool)) :=
  fun s0 =>
    let s := note (Readdir p) s0 in
    match follow MAXSYMLINKS (tree s) (location s p) with
    | inr q =>
        match locate (tree s) q with
        | inr (Dir es) =>
            (Return (map (fun e => (fst e, match snd e with Dir _ => true | _ => false end)) es), s)
        | inr _ => (Throw (IOError ENOTDIR (str "scandir") p), s)
        | inl e => (Throw (IOError e (str "scandir") p), s)
        end
    | inl e => (Throw (IOError e (str "scandir") p), s)
    end.

(** [fs.rm(p, { recursive: true, force: true })] *)
Definition rm_recursive_force (p : jsstring) : M state unit :=
  fun s0 =>
    let s := note (Rm p) s0 in
    match locate (tree s) (location s p) with
    | inr _ => (Return tt, with_tree (del (tree s) (location s p)) s)
    | inl ENOENT => (Return tt, s)
    | inl e => (Throw (IOError e (str "lstat") p), s)
    end.

End Fs.

(* ================================================================== *)
(** * WorkspaceFS (core/workspaceFs.ts) *)

Module WorkspaceFS.

Import Fs.
Local Open Scope js_scope.

Inductive mode := ModeRead | ModeWrite | ModeList | ModeDelete.

Definition get_cwd : M state jsstring := fun s => (Return (cwd s), s).

(** [exists(p)] *)
Definition exists_ (p : jsstring) : M state bool :=
  try_catch (_ <- lstat p ;; ret true) (fun _ => ret false).

Definition assertNotLinkOrReparse (p : jsstring) : M state unit :=
  st <- lstat p ;;
  match st with
  | IsSymbolicLink => throw (SymlinkNotAllowed p)
  | _ => ret tt
  end.

(** [/^[a-zA-Z]:/.test(userPath)] *)
Definition drive_prefix (userPath : jsstring) : bool :=
  match userPath with
  | c :: c1 :: _ => Path.isWindowsDeviceRoot c && (c1 =? Path.CHAR_COLON)
  | _ => false
  end.

(** The loop over [partsToCheck]. *)
Fixpoint check_parts (cur : jsstring) (partsToCheck : list jsstring)
    : M state unit :=
  match partsToCheck with
  | [] => ret tt
  | part :: rest =>
      let cur' := Path.join_paths [cur; part] in
      found <- exists_ cur' ;;
      if negb found then ret tt
      else assertNotLinkOrReparse cur' ;; check_parts cur' rest
  end.

Section Instance.

Variable workspaceRoot : jsstring.

Definition ensureInsideWorkspace (userPath : jsstring) (m : mode)
    : M state jsstring :=
  if is_empty userPath || streq (trim userPath) [] then throw EmptyPath
  else if Path.win32_isAbsolute userPath then throw AbsolutePath
  else if drive_prefix userPath then throw DrivePath
  else if startsWith userPath (str "\\") || startsWith userPath (str "//")
  then throw UncPath
  else
    here <- get_cwd ;;
    let root := Path.resolve here [workspaceRoot] in
    let resolved := Path.resolve here [root; userPath] in
    let rel := Path.relative here root resolved in
    if startsWith rel (str "..") || Path.isAbsolute rel
    then throw PathEscapesWorkspace
    else
      let targetToCheck :=
        match m with ModeWrite => Path.dirname resolved | _ => resolved end in
      found <- exists_ root ;;
      (if negb found then mkdir_recursive root else ret tt) ;;
      assertNotLinkOrReparse root ;;
      let relToCheck := Path.relative here root targetToCheck in
      let partsToCheck :=
        filter_Boolean (split Path.CHAR_FORWARD_SLASH relToCheck) in
      check_parts root partsToCheck ;;
      ret resolved.

Definition readText (userPath : jsstring) (maxBytes : Z) : M state jsstring :=
  p <- ensureInsideWorkspace userPath ModeRead ;;
  buf <- readFile p ;;
  if Z.of_nat (length buf) >? maxBytes
  then throw (FileTooLarge (Z.of_nat (length buf)))
  else ret (Utf8.decode buf).

Definition writeText (userPath content : jsstring) : M state unit :=
  p <- ensureInsideWorkspace userPath ModeWrite ;;
  mkdir_recursive (Path.dirname p) ;;
  writeFile p (Utf8.encode content).

Definition listDir (userPath : jsstring) : M state (list jsstring) :=
  p <- ensureInsideWorkspace userPath ModeList ;;
  entries <- readdir p ;;
  ret (map (fun e : jsstring * bool =>
              if snd e then fst e ++ str "/" else fst e) entries).

Definition remove (userPath : jsstring) : M state unit :=
  p <- ensureInsideWorkspace userPath ModeDelete ;;
  rm_recursive_force p.

End Instance.

(** What [listDir] shows of an entry of a directory: its name, with a
    [/] after it for a directory. *)
Definition listed (e : jsstring * node) : jsstring :=
  match snd e with
  | Dir _ => fst e ++ str "/"
  | _ => fst e
  end.

End WorkspaceFS.

(* ================================================================== *)
(** * The walk of [ensureInsideWorkspace], read on the tree

    The same checks as functions of the tree alone, without the state
    that threads the calls to [fs]: the facts below relate them to the
    code and reason on them. *)

Module Walk.

Import Fs.

(** The names of the workspace root and of the path a request resolves
    to. *)
Definition root_names (s : state) (workspaceRoot : jsstring) : list jsstring :=
  Path.segments (Path.resolve (cwd s) [workspaceRoot]).

Definition target_names (s : state) (workspaceRoot userPath : jsstring)
    : list jsstring :=
  Path.segments
    (Path.resolve (cwd s) [Path.resolve (cwd s) [workspaceRoot]; userPath]).

(** The first link met from [base] along [parts], if the walk gets to
    one: it stops at the first component that does not exist. *)
Fixpoint scan (t : node) (base : list jsstring) (parts : list jsstring)
    : option (list jsstring) :=
  match parts with
  | [] => None
  | part :: rest =>
      let cur := Path.below base part in
      match locate t cur with
      | inr (Link _) => Some cur
      | inr _ => scan t cur rest
      | inl _ => None
      end
  end.

(** The tree once the root is there. *)
Definition prepare_root (t : node) (rs : list jsstring) : errno + node :=
  match locate t rs with
  | inr _ => inr t
  | inl _ => mkdirp t [] t rs
  end.

(** [partsToCheck] *)
Definition parts_to_check (m : WorkspaceFS.mode) (rs ts : list jsstring)
    : list jsstring :=
  let resolved := Path.render ts in
  let targetToCheck :=
    match m with
    | WorkspaceFS.ModeWrite => Path.dirname resolved
    | _ => resolved
    end in
  filter_Boolean
    (split Path.CHAR_FORWARD_SLASH
       (Path.relative Path.sep (Path.render rs) targetToCheck)).

(** What [ensureInsideWorkspace] does once the spelling of the path is
    accepted: its outcome and the tree it leaves. *)
Definition walk (t : node) (m : WorkspaceFS.mode) (rs ts : list jsstring)
    : outcome jsstring * node :=
  match prepare_root t rs with
  | inl e => (Throw (IOError e (str "mkdir") (Path.render rs)), t)
  | inr t1 =>
      (match locate t1 rs with
       | inl e => Throw (IOError e (str "lstat") (Path.render rs))
       | inr (Link _) => Throw (SymlinkNotAllowed (Path.render rs))
       | inr _ =>
           match scan t1 rs (parts_to_check m rs ts) with
           | Some l => Throw (SymlinkNotAllowed (Path.render l))
           | None => Return (Path.render ts)
           end
       end, t1)
  end.

(** The checks on the spelling of the path and on where it resolves to,
    in the order of the code: the exception of the first that matches. *)
Definition rejected (s : state) (workspaceRoot userPath : jsstring)
    : option exn :=
  let root := Path.resolve (cwd s) [workspaceRoot] in
  let rel := Path.relative (cwd s) root (Path.resolve (cwd s) [root; userPath]) in
  if is_empty userPath || streq (trim userPath) [] then Some EmptyPath
  else if Path.win32_isAbsolute userPath then Some AbsolutePath
  else if WorkspaceFS.drive_prefix userPath then Some DrivePath
  else if startsWith userPath (str "\\") || startsWith userPath (str "//")
  then Some UncPath
  else if startsWith rel (str "..") || Path.isAbsolute rel
  then Some PathEscapesWorkspace
  else None.

End Walk.

(* ================================================================== *)
(** * The order of the checks in the words of the specification

    Section 4.1 of the specification lists the checks on the spelling of a
    path as: empty or whitespace-only; absolute in the host's own
    convention; a drive-letter prefix; a UNC prefix; escaping the root.
    [claimed_rejection] is that list on the host of this development, where
    an absolute path is one that [path.isAbsolute] accepts. *)

Module Spec.

Definition claimed_rejection (s : Fs.state) (workspaceRoot userPath : jsstring)
    : option exn :=
  let root := Path.resolve (Fs.cwd s) [workspaceRoot] in
  let rel :=
    Path.relative (Fs.cwd s) root (Path.resolve (Fs.cwd s) [root; userPath]) in
  if is_empty userPath || streq (trim userPath) [] then Some EmptyPath
  else if Path.isAbsolute userPath then Some AbsolutePath
  else if WorkspaceFS.drive_prefix userPath then Some DrivePath
  else if startsWith userPath (str "\\") || startsWith userPath (str "//")
  then Some UncPath
  else if startsWith rel (str "..") || Path.isAbsolute rel
  then Some PathEscapesWorkspace
  else None.

End Spec.

(* ================================================================== *)
(** * The file tools (tools/fileTools.ts) *)

Module FileTools.

Local Open Scope js_scope.

Inductive data := Text (s : jsstring) | Entries (names : list jsstring).

Inductive FileToolResult :=
| ok (d : data)
| error (msg : jsstring).

Definition is_ok (r : FileToolResult) : bool :=
  match r with ok _ => true | error _ => false end.

(** [try { ... return { ok: true, data } } catch (e) { return { ok: false,
    error: e.message } }] *)
Definition guarded {A} (m : M Fs.state A) (d : A -> data)
    : M Fs.state FileToolResult :=
  try_catch (a <- m ;; ret (ok (d a))) (fun e => ret (error (message e))).

Section Instance.

Variable workspaceRoot : jsstring.

Definition list (userPath : jsstring) : M Fs.state FileToolResult :=
  guarded
    (WorkspaceFS.listDir workspaceRoot
       (if is_empty userPath then str "." else userPath))
    Entries.

Definition read (userPath : jsstring) (maxBytes : Z) : M Fs.state FileToolResult :=
  guarded (WorkspaceFS.readText workspaceRoot userPath maxBytes) Text.

Definition write (userPath content : jsstring) : M Fs.state FileToolResult :=
  guarded (WorkspaceFS.writeText workspaceRoot userPath content)
          (fun _ => Text (str "written")).

Definition delete (userPath : jsstring) : M Fs.state FileToolResult :=
  guarded (WorkspaceFS.remove workspaceRoot userPath)
          (fun _ => Text (str "deleted")).

End Instance.

End FileTools.

(* ================================================================== *)
(** * ApprovalManager (tools/approval.ts) *)

Module ApprovalManager.

Section Generic.

(** [A] is the type of a request's arguments ([unknown] in the source), [W]
    the state the registered listeners act on: a listener is a callback
    that returns. *)
Variables A W : Type.

Record PendingTool := mkPendingTool {
  id : jsstring;
  tool : jsstring;
  args : A;
  at_ : jsstring
}.

Definition ApprovalManagerListener := jsstring -> bool -> W -> W.

(** A [Map] keeps its keys in insertion order. *)
Definition Map := list (jsstring * PendingTool).

Fixpoint Map_get (k : jsstring) (m : Map) : option PendingTool :=
  match m with
  | [] => None
  | (k', v) :: m' => if streq k k' then Some v else Map_get k m'
  end.

Fixpoint Map_set (k : jsstring) (v : PendingTool) (m : Map) : Map :=
  match m with
  | [] => [(k, v)]
  | (k', v') :: m' =>
      if streq k k' then (k', v) :: m' else (k', v') :: Map_set k v m'
  end.

Definition Map_delete (k : jsstring) (m : Map) : Map :=
  filter (fun kv => negb (streq k (fst kv))) m.

Record t := mk {
  pending : Map;
  listeners : list ApprovalManagerListener
}.

Definition new : t := mk [] [].

(** [add(tool, args)]; [uuid] is what [randomUUID()] returns and [now]
    what [new Date().toISOString()] does. *)
Definition add (uuid now : jsstring) (tool_ : jsstring) (args_ : A) (m : t)
    : jsstring * t :=
  (uuid,
   mk (Map_set uuid (mkPendingTool uuid tool_ args_ now) (pending m))
      (listeners m)).

Definition get (id_ : jsstring) (m : t) : option PendingTool :=
  Map_get id_ (pending m).

(** [this.listeners.forEach((fn) => fn(id, approved))] *)
Definition notify (fns : list ApprovalManagerListener) (id_ : jsstring)
    (approved : bool) (w : W) : W :=
  fold_left (fun w' fn => fn id_ approved w') fns w.

Definition approve (id_ : jsstring) (mw : t * W) : option PendingTool * (t * W) :=
  let (m, w) := mw in
  match Map_get id_ (pending m) with
  | None => (None, (m, w))
  | Some p =>
      (Some p,
       (mk (Map_delete id_ (pending m)) (listeners m),
        notify (listeners m) id_ true w))
  end.

Definition reject (id_ : jsstring) (mw : t * W) : bool * (t * W) :=
  let (m, w) := mw in
  match Map_get id_ (pending m) with
  | None => (false, (m, w))
  | Some p =>
      (true,
       (mk (Map_delete id_ (pending m)) (listeners m),
        notify (listeners m) id_ false w))
  end.

Definition onResolve (fn : ApprovalManagerListener) (m : t) : t :=
  mk (pending m) (listeners m ++ [fn]).

Definition list (m : t) : Datatypes.list PendingTool := map snd (pending m).

(** A caller's use of one manager: its calls, one after the other. *)
Inductive operation :=
| Add (uuid now tool_ : jsstring) (args_ : A)
| Approve (id_ : jsstring)
| Reject (id_ : jsstring)
| OnResolve (fn : ApprovalManagerListener).

Definition perform (mw : t * W) (o : operation) : t * W :=
  match o with
  | Add uuid now tool_ args_ => (snd (add uuid now tool_ args_ (fst mw)), snd mw)
  | Approve id_ => snd (approve id_ mw)
  | Reject id_ => snd (reject id_ mw)
  | OnResolve fn => (onResolve fn (fst mw), snd mw)
  end.

Definition run (ops : Datatypes.list operation) (mw : t * W) : t * W :=
  fold_left perform ops mw.

Definition adds (i : jsstring) (o : operation) : bool :=
  match o with
  | Add uuid _ _ _ => streq uuid i
  | _ => false
  end.

(** Every record is kept under its own id. *)
Definition keyed (m : t) : Prop :=
  Forall (fun kv => id (snd kv) = fst kv) (pending m).

End Generic.

(** An observer that writes down each call it receives, under its name:
    the listeners of the test suite. *)
Definition Log := Datatypes.list (nat * jsstring * bool).

Definition recorder (name : nat) : ApprovalManagerListener Log :=
  fun i approved log => log ++ [(name, i, approved)].

Definition register (A : Type) (names : Datatypes.list nat) (m : t A Log) : t A Log :=
  fold_left (fun m' n => onResolve (recorder n) m') names m.

Definition heard_by (name : nat) (log : Log) : Log :=
  filter (fun e => Nat.eqb (fst (fst e)) name) log.

End ApprovalManager.

(* ================================================================== *)
(** * AuditLogger (tools/audit.ts) *)

Module AuditLogger.

Inductive result := ok | error | pending.

Section Generic.

Variable A : Type.

Record AuditEntry := mkEntry {
  at_ : jsstring;
  tool : jsstring;
  args : A;
  outcome_ : result;
  detail : option jsstring
}.

(** The file [audit.jsonl] of the data directory: its lines, oldest
    first, and the exception that [fs.appendFile] on it throws, if it
    does.  It is kept apart from the tree of [Fs], as a file outside of
    the workspace that no link of the workspace leads to. *)
Record t := mk {
  lines : list AuditEntry;
  append_error : option exn
}.

(** Whether [fs.appendFile] on the file succeeds. *)
Definition appendable (a : t) : bool :=
  match append_error a with
  | None => true
  | Some _ => false
  end.

(** [log(entry)]: what [fs.appendFile] throws is not caught. *)
Definition log (now : jsstring) (tool_ : jsstring) (args_ : A)
    (r : result) (detail_ : option jsstring) : M t unit :=
  fun a =>
    let full := mkEntry now tool_ args_ r detail_ in
    match append_error a with
    | None => (Return tt, mk (lines a ++ [full]) (append_error a))
    | Some e => (Throw e, a)
    end.

End Generic.

End AuditLogger.

(* ================================================================== *)
(** * The composition: the HTTP endpoints of the file tools and of the
      approvals (server/http.ts), and the scheduler's executor (index.ts) *)

Module Server.

Local Open Scope js_scope.

(** The payload of a tool request, [{ path, content? }]. *)
Record tool_args := mkArgs {
  path : jsstring;
  content : option jsstring
}.

Section Composition.

(** [W] is the state the approval listeners act on. *)
Variable W : Type.
(** [cfg.workspaceRoot] *)
Variable workspaceRoot : jsstring.

Record world := mkWorld {
  fs : Fs.state;
  approvalManager : ApprovalManager.t tool_args W;
  outside : W;
  auditLogger : AuditLogger.t tool_args;
  randomUUID : nat -> jsstring;    (* the UUIDs still to come *)
  uuids_drawn : nat;
  toISOString : nat -> jsstring;   (* the clock readings still to come *)
  clock_reads : nat
}.

Definition on_fs {A} (m : M Fs.state A) : M world A :=
  fun w =>
    let (r, f) := m (fs w) in
    (r, mkWorld f (approvalManager w) (outside w) (auditLogger w)
          (randomUUID w) (uuids_drawn w) (toISOString w) (clock_reads w)).

Definition on_audit {A} (m : M (AuditLogger.t tool_args) A) : M world A :=
  fun w =>
    let (r, a) := m (auditLogger w) in
    (r, mkWorld (fs w) (approvalManager w) (outside w) a
          (randomUUID w) (uuids_drawn w) (toISOString w) (clock_reads w)).

Definition on_approvals {A}
    (f : ApprovalManager.t tool_args W * W -> A * (ApprovalManager.t tool_args W * W))
    : M world A :=
  fun w =>
    let '(r, (m, o)) := f (approvalManager w, outside w) in
    (Return r, mkWorld (fs w) m o (auditLogger w)
          (randomUUID w) (uuids_drawn w) (toISOString w) (clock_reads w)).

Definition draw_uuid : M world jsstring :=
  fun w =>
    (Return (randomUUID w (uuids_drawn w)),
     mkWorld (fs w) (approvalManager w) (outside w) (auditLogger w)
       (randomUUID w) (S (uuids_drawn w)) (toISOString w) (clock_reads w)).

Definition read_clock : M world jsstring :=
  fun w =>
    (Return (toISOString w (clock_reads w)),
     mkWorld (fs w) (approvalManager w) (outside w) (auditLogger w)
       (randomUUID w) (uuids_drawn w) (toISOString w) (S (clock_reads w))).

(** [approvalManager.add(tool, args)] *)
Definition add (tool : jsstring) (a : tool_args) : M world jsstring :=
  uuid <- draw_uuid ;;
  now <- read_clock ;;
  on_approvals (fun mw =>
    let (i, m) := ApprovalManager.add uuid now tool a (fst mw) in
    (i, (m, snd mw))).

(** [auditLogger.log({ tool, args, result, detail })] *)
Definition log (tool : jsstring) (a : tool_args) (r : AuditLogger.result)
    (detail : option jsstring) : M world unit :=
  now <- read_clock ;;
  on_audit (AuditLogger.log now tool a r detail).

(** [out.ok ? "ok" : "error"] and [out.ok ? undefined : out.error] *)
Definition result_of (out : FileTools.FileToolResult) : AuditLogger.result :=
  if FileTools.is_ok out then AuditLogger.ok else AuditLogger.error.

Definition detail_of (out : FileTools.FileToolResult) : option jsstring :=
  match out with
  | FileTools.ok _ => None
  | FileTools.error msg => Some msg
  end.

(** ** The request handler of [createHttpServer] *)

Inductive method := GET | POST | OPTIONS | OtherMethod.

Definition method_eqb (a b : method) : bool :=
  match a, b with
  | GET, GET | POST, POST | OPTIONS, OPTIONS | OtherMethod, OtherMethod => true
  | _, _ => false
  end.

(** The parsed JSON body: a field is absent, or has the type the handler
    casts it to. *)
Record body := mkBody {
  b_path : option jsstring;
  b_content : option jsstring;    (* [None]: absent, or not a string *)
  b_maxBytes : option Z
}.

Record request := mkRequest {
  r_method : method;
  pathname : jsstring;
  r_body : body
}.

Inductive payload :=
| JsonError (msg : jsstring)                       (* [{ error }] *)
| JsonResult (out : FileTools.FileToolResult)      (* a tool's result *)
| JsonPending (pendingId message : jsstring)       (* [{ pendingId, message }] *)
| JsonPendingList (l : list (ApprovalManager.PendingTool tool_args))
| JsonRejected (rejected : bool)                   (* [{ rejected }] *)
| JsonHealth                                       (* [{ ok: true }] *)
| Text (s : jsstring)
| NoContent
| Collaborator.   (* answered by a part of the server that is not modelled *)

Record response := mkResponse { status : Z; sent : payload }.

Definition sendJson (status_ : Z) (d : payload) : response :=
  mkResponse status_ d.

(** The optional dependencies of [createHttpServer]. *)
Record deps := mkDeps {
  fileTools : bool;
  has_auditLogger : bool;
  has_approvalManager : bool;
  schedulerEngine : bool
}.

Definition MAX_WRITE_BYTES := 10 * 1024 * 1024.

(** [!p] for a string that may be absent. *)
Definition missing (p : option jsstring) : bool :=
  match p with
  | None => true
  | Some s => is_empty s
  end.

Definition or_else (p : option jsstring) (d : jsstring) : jsstring :=
  match p with Some s => s | None => d end.

(** [fileTools.write(args.path, args.content)] on a pending entry: an entry
    made by the write endpoint has a content; for one that has none,
    [writeFile] refuses its [undefined] argument. *)
Definition write_pending (a : tool_args) : M Fs.state FileTools.FileToolResult :=
  match content a with
  | Some c => FileTools.write workspaceRoot (path a) c
  | None =>
      FileTools.guarded
        (p <- WorkspaceFS.ensureInsideWorkspace workspaceRoot (path a)
                WorkspaceFS.ModeWrite ;;
         Fs.mkdir_recursive (Path.dirname p) ;;
         throw InvalidArgType)
        (fun _ : unit => FileTools.Text (str "written"))
  end.

(** The tool call an approved entry stands for: [fileTools.write] for
    ["file.write"], [fileTools.delete] for ["file.delete"], none for another
    tool. *)
Definition deferred (p : ApprovalManager.PendingTool tool_args)
    : option (M Fs.state FileTools.FileToolResult) :=
  if streq (ApprovalManager.tool p) (str "file.write")
  then Some (write_pending (ApprovalManager.args p))
  else if streq (ApprovalManager.tool p) (str "file.delete")
  then Some (FileTools.delete workspaceRoot (path (ApprovalManager.args p)))
  else None.

Definition nth_part (parts : list jsstring) (n : nat) : option jsstring :=
  nth_error parts n.

Definition is_path (req : request) (p : string) (m : method) : bool :=
  streq (pathname req) (str p) && method_eqb (r_method req) m.

Definition approvals_prefix := str "/api/approvals/".

(** The body of the handler's [try]. *)
Definition route (d : deps) (req : request) : M world response :=
  if is_path req "/api/sessions" GET then ret (mkResponse 200 Collaborator)
  else if is_path req "/api/chat" POST then ret (mkResponse 200 Collaborator)
  else if is_path req "/api/thread" GET then ret (mkResponse 200 Collaborator)
  else if is_path req "/health" GET then ret (sendJson 200 JsonHealth)
  else if fileTools d && is_path req "/api/tools/file/list" POST then
    let p := or_else (b_path (r_body req)) (str ".") in
    out <- on_fs (FileTools.list workspaceRoot p) ;;
    (if has_auditLogger d
     then log (str "file.list") (mkArgs p None) (result_of out) (detail_of out)
     else ret tt) ;;
    ret (sendJson 200 (JsonResult out))
  else if fileTools d && is_path req "/api/tools/file/read" POST then
    let maxBytes := match b_maxBytes (r_body req) with Some n => n | None => 1000000 end in
    if missing (b_path (r_body req))
    then ret (sendJson 400 (JsonError (str "Missing path")))
    else
      let p := or_else (b_path (r_body req)) [] in
      out <- on_fs (FileTools.read workspaceRoot p maxBytes) ;;
      (if has_auditLogger d
       then log (str "file.read") (mkArgs p None) (result_of out) (detail_of out)
       else ret tt) ;;
      ret (sendJson 200 (JsonResult out))
  else if fileTools d && has_approvalManager d
          && is_path req "/api/tools/file/write" POST then
    if missing (b_path (r_body req))
    then ret (sendJson 400 (JsonError (str "Missing path")))
    else
      let p := or_else (b_path (r_body req)) [] in
      match b_content (r_body req) with
      | None => ret (sendJson 400 (JsonError (str "Missing or invalid content")))
      | Some c =>
          if Utf8.byteLength c >? MAX_WRITE_BYTES
          then ret (sendJson 413 (JsonError (str "Content too large")))
          else
            i <- add (str "file.write") (mkArgs p (Some c)) ;;
            (if has_auditLogger d
             then log (str "file.write") (mkArgs p None) AuditLogger.pending (Some i)
             else ret tt) ;;
            ret (sendJson 200 (JsonPending i (str "Approval required")))
      end
  else if fileTools d && has_approvalManager d
          && is_path req "/api/tools/file/delete" POST then
    if missing (b_path (r_body req))
    then ret (sendJson 400 (JsonError (str "Missing path")))
    else
      let p := or_else (b_path (r_body req)) [] in
      i <- add (str "file.delete") (mkArgs p None) ;;
      (if has_auditLogger d
       then log (str "file.delete") (mkArgs p None) AuditLogger.pending (Some i)
       else ret tt) ;;
      ret (sendJson 200 (JsonPending i (str "Approval required")))
  else if schedulerEngine d && is_path req "/api/tasks" GET
  then ret (mkResponse 200 Collaborator)
  else if schedulerEngine d && is_path req "/api/tasks" POST
  then ret (mkResponse 200 Collaborator)
  else if has_approvalManager d && is_path req "/api/approvals" GET then
    l <- on_approvals (fun mw => (ApprovalManager.list (fst mw), mw)) ;;
    ret (sendJson 200 (JsonPendingList l))
  else
    let fallthrough : M world response :=
      if is_path req "/" GET || is_path req "/index.html" GET
      then ret (mkResponse 200 Collaborator)
      else ret (mkResponse 404 (Text (str "Not Found"))) in
    if fileTools d && has_auditLogger d && has_approvalManager d
       && startsWith (pathname req) approvals_prefix
       && method_eqb (r_method req) POST
    then
      let parts := split Path.CHAR_FORWARD_SLASH
                     (skipn (List.length approvals_prefix) (pathname req)) in
      let i := or_else (nth_part parts 0) [] in
      let action := nth_part parts 1 in
      if is_empty i then ret (sendJson 400 (JsonError (str "Missing id")))
      else if match action with Some a => streq a (str "approve") | None => false end
      then
        p <- on_approvals (ApprovalManager.approve i) ;;
        match p with
        | None => ret (sendJson 404 (JsonError (str "Not found")))
        | Some p =>
            match deferred p with
            | Some call =>
                out <- on_fs call ;;
                log (ApprovalManager.tool p) (ApprovalManager.args p)
                    (result_of out) (detail_of out) ;;
                ret (sendJson 200 (JsonResult out))
            | None => ret (sendJson 400 (JsonError (str "Unknown tool")))
            end
        end
      else if match action with Some a => streq a (str "reject") | None => false end
      then
        r <- on_approvals (ApprovalManager.reject i) ;;
        ret (sendJson 200 (JsonRejected r))
      else fallthrough
    else fallthrough.

(** The handler: [OPTIONS] is answered at once, an exception of the
    routes becomes a 500. *)
Definition handle (d : deps) (req : request) : M world response :=
  if method_eqb (r_method req) OPTIONS then ret (mkResponse 204 NoContent)
  else
    try_catch (route d req)
      (fun e => ret (sendJson 500 (JsonError (message e)))).

(** What [main] passes to [createHttpServer]. *)
Definition main_deps : deps := mkDeps true true true true.

(** ** The scheduler's executor (index.ts): [runTool(toolName, args)] *)
Definition runTool (toolName : jsstring) (a : body)
    : M world FileTools.FileToolResult :=
  if streq toolName (str "file.list")
  then on_fs (FileTools.list workspaceRoot (or_else (b_path a) (str ".")))
  else if streq toolName (str "file.read")
  then on_fs (FileTools.read workspaceRoot (or_else (b_path a) [])
                (match b_maxBytes a with Some n => n | None => 1000000 end))
  else if streq toolName (str "file.write")
  then on_fs (FileTools.write workspaceRoot (or_else (b_path a) [])
                (or_else (b_content a) []))
  else if streq toolName (str "file.delete")
  then on_fs (FileTools.delete workspaceRoot (or_else (b_path a) []))
  else throw (UnknownTool toolName).

(** ** The requests of the tool and approval endpoints *)

Definition write_request (p : option jsstring) (c : option jsstring) : request :=
  mkRequest POST (str "/api/tools/file/write") (mkBody p c None).

Definition delete_request (p : option jsstring) : request :=
  mkRequest POST (str "/api/tools/file/delete") (mkBody p None None).

Definition list_request (p : option jsstring) : request :=
  mkRequest POST (str "/api/tools/file/list") (mkBody p None None).

Definition read_request (p : option jsstring) (maxBytes : option Z) : request :=
  mkRequest POST (str "/api/tools/file/read") (mkBody p None maxBytes).

Definition approve_request (i : jsstring) : request :=
  mkRequest POST (approvals_prefix ++ i ++ str "/approve") (mkBody None None None).

Definition reject_request (i : jsstring) : request :=
  mkRequest POST (approvals_prefix ++ i ++ str "/reject") (mkBody None None None).

(** An id as it stands in a URL: not empty, no [/] in it. *)
Definition url_segment (i : jsstring) : bool :=
  negb (is_empty i) && forallb (fun c => negb (c =? Path.CHAR_FORWARD_SLASH)) i.

End Composition.

End Server.

(* ================================================================== *)
(** * A small installation, for the examples

    The working directory is [/srv], the workspace root [data/workspace]
    under it; the workspace holds a file, a directory and a link to a file
    outside of it. *)

Module Sample.

Definition tree : Fs.node :=
  Fs.Dir
    [(str "etc", Fs.Dir [(str "passwd", Fs.File (Utf8.encode (str "root:x:0:0")))]);
     (str "srv", Fs.Dir
        [(str "data", Fs.Dir
           [(str "workspace", Fs.Dir
              [(str "notes.txt", Fs.File (Utf8.encode (str "hello")));
               (str "sub", Fs.Dir [(str "b.txt", Fs.File (Utf8.encode (str "b")))]);
               (str "link.txt", Fs.Link [str "etc"; str "passwd"])])])])].

Definition disk : Fs.state := Fs.mkState tree (str "srv") [].

Definition workspaceRoot : jsstring := str "data/workspace".

Definition uuid (n : nat) : jsstring := str "uuid-" ++ of_number (Z.of_nat n).
Definition time (n : nat) : jsstring := str "T" ++ of_number (Z.of_nat n).

(** What an append to the audit file throws where it fails: here the
    file is a directory. *)
Definition audit_error : exn :=
  IOError EISDIR (str "open") (str "/srv/data/audit.jsonl").

(** An audit file without a line, that can be appended to or not. *)
Definition audit (audit_ok : bool) : AuditLogger.t Server.tool_args :=
  AuditLogger.mk [] (if audit_ok then None else Some audit_error).

(** The world as [main] builds it: nothing pending, no listener. *)
Definition world (audit_ok : bool) : Server.world unit :=
  Server.mkWorld disk (ApprovalManager.new Server.tool_args unit) tt
    (audit audit_ok) uuid 0%nat time 0%nat.

(** The same with one write request pending, as the write endpoint leaves
    it. *)
Definition pending_write : ApprovalManager.PendingTool Server.tool_args :=
  ApprovalManager.mkPendingTool (str "uuid-0") (str "file.write")
    (Server.mkArgs (str "a.txt") (Some (str "x"))) (str "T0").

Definition world_pending (audit_ok : bool) : Server.world unit :=
  Server.mkWorld disk
    (ApprovalManager.mk [(str "uuid-0", pending_write)] []) tt
    (audit audit_ok) uuid 1%nat time 1%nat.

(** A content of [n] letters [x]. *)
Definition xs (n : Z) : jsstring := repeat 120 (Z.to_nat n).

End Sample.

(* ================================================================== *)
(** * Directories that list each name once *)

Module Shape.

Import Fs.

(** No name is listed twice in a directory. *)
Fixpoint names_once (es : list (jsstring * node)) : bool :=
  match es with
  | [] => true
  | (k, _) :: es' =>
      negb (existsb (fun e => streq k (fst e)) es') && names_once es'
  end.

(** Every directory of the tree lists each of its names once, as the
    directories of a file system do. *)
Fixpoint well_formed (t : node) : bool :=
  match t with
  | Dir es =>
      names_once es
      && forallb (fun e => match e with (_, c) => well_formed c end) es
  | _ => true
  end.

(** No symbolic link is gone through on the way from [t] along [p], as
    far as the way is there: the links that the kernel would follow, and
    that [Fs.locate] answers [ENOTDIR] for.  A link at the end of the way
    is none of them. *)
Fixpoint no_link_above (t : node) (p : list jsstring) : bool :=
  match p with
  | [] => true
  | x :: p' =>
      match t with
      | Link _ => false
      | Dir es =>
          match assoc x es with
          | Some c => no_link_above c p'
          | None => true
          end
      | File _ => true
      end
  end.

(** A name that Node hands to the kernel as it is spelled: code units
    without a surrogate on its own (Node writes such a one as U+FFFD) and
    without the unit 0 (which Node refuses). *)
Definition plain_name (n : jsstring) : bool :=
  forallb Utf8.is_unit n && Utf8.isWellFormed n
  && forallb (fun c => negb (c =? 0)) n.

End Shape.

(* ================================================================== *)
(** * The routes of the server that other parts answer *)

Module Routes.

Import Server.

(** The requests that the handler passes to the conversations, the
    agents, the scheduler or the page of the UI, in the order of the
    handler: [GET /api/sessions], [POST /api/chat], [GET /api/thread],
    [GET] and [POST /api/tasks] where there is a scheduler engine, [GET /]
    and [GET /index.html]. *)
Definition collaborator (d : deps) (req : request) : bool :=
  is_path req "/api/sessions" GET
  || is_path req "/api/chat" POST
  || is_path req "/api/thread" GET
  || schedulerEngine d && is_path req "/api/tasks" GET
  || schedulerEngine d && is_path req "/api/tasks" POST
  || is_path req "/" GET
  || is_path req "/index.html" GET.

End Routes.

(* ================================================================== *)
(** * The entries the endpoints put in the ledger *)

Module Queue.

(** An entry as the write and delete endpoints make them: a path that is
    not empty; for ["file.write"] a content of at most [MAX_WRITE_BYTES]
    bytes of UTF-8, for ["file.delete"] no content. *)
Definition well_formed_entry
    (p : ApprovalManager.PendingTool Server.tool_args) : bool :=
  negb (is_empty (Server.path (ApprovalManager.args p)))
  && match Server.content (ApprovalManager.args p) with
     | Some c =>
         streq (ApprovalManager.tool p) (str "file.write")
         && (Utf8.byteLength c <=? Server.MAX_WRITE_BYTES)
     | None => streq (ApprovalManager.tool p) (str "file.delete")
     end.

End Queue.

(* ================================================================== *)
(** * The configuration (config.ts): the directories [main] works in *)

Module Config.

(** [process.env]: the variables that are set, each with its value. *)
Definition env := list (jsstring * jsstring).

Fixpoint lookup (name : jsstring) (e : env) : option jsstring :=
  match e with
  | [] => None
  | (k, v) :: e' => if streq name k then Some v else lookup name e'
  end.

(** [envOptional(name, fallback)]: [process.env[name] ?? fallback] *)
Definition envOptional (e : env) (name fallback : jsstring) : jsstring :=
  match lookup name e with
  | Some v => v
  | None => fallback
  end.

(** The fields [dataDir] and [workspaceRoot] of what [loadConfig()]
    returns; [cwd] is [process.cwd()]. *)
Definition dataDir (e : env) (cwd : jsstring) : jsstring :=
  Path.resolve cwd [envOptional e (str "DATA_DIR") (str "./data")].

Definition workspaceRoot (e : env) (cwd : jsstring) : jsstring :=
  Path.join_paths [dataDir e cwd; str "workspace"].

(** The files the other parts keep in the data directory:
    [path.join(dataDir, name)] for [audit.jsonl] ([AuditLogger]),
    [tasks.json] and [runs.jsonl] ([SchedulerEngine]),
    [inbox_processed.jsonl] ([ProcessedStore]) and the directory [conv]
    ([ConversationStore]). *)
Definition data_file (e : env) (cwd name : jsstring) : jsstring :=
  Path.join_paths [dataDir e cwd; name].

End Config.

(* ================================================================== *)
(** * ProcessedStore (conversation/processedStore.ts) *)

Module ProcessedStore.

(** A line that [add] writes to [inbox_processed.jsonl]: [{ key, at }]. *)
Record line := mkLine { key : jsstring; at_ : jsstring }.

(** The last line of a text that does not end with a line feed: what
    [load] makes of it as it stands, and what [load] makes of it once the
    text of a record has been appended to it ([None] where it skips the
    line). *)
Record open_line := mkOpen {
  as_it_stands : option line;
  with_appended : line -> option line
}.

(** The text of the file, as [load] reads it and [fs.appendFile] extends
    it.  [closed] are the lines that end with a line feed, oldest first: a
    line is [Some l] where it parses to an object with the string [key l],
    and [None] where [load] skips it (a blank line, one that is not JSON,
    one without a string [key]).  [tail] is the last line where the text
    does not end with a line feed. *)
Record text := mkText {
  closed : list (option line);
  tail : option open_line
}.

(** [raw.split(/\r?\n/)], each line as [load] reads it. *)
Definition read_lines (x : text) : list (option line) :=
  closed x ++ match tail x with
              | Some o => [as_it_stands o]
              | None => []
              end.

(** The text with [JSON.stringify({ key, at }) + "\n"] appended to it: a
    line of its own, or the end of the last line where that was open. *)
Definition append (x : text) (l : line) : text :=
  match tail x with
  | None => mkText (closed x ++ [Some l]) None
  | Some o => mkText (closed x ++ [with_appended o l]) None
  end.

(** The keys seen, in the order the [Set] keeps them; the file ([None]
    where it is not there, on the first run: [fs.readFile] fails, and
    [fs.appendFile] makes it); and the exception that [fs.appendFile] on
    the file throws, if it does. *)
Record t := mk {
  seen : list jsstring;
  file : option text;
  append_error : option exn
}.

Definition Set_has (k : jsstring) (s : list jsstring) : bool :=
  existsb (streq k) s.

Definition Set_add (k : jsstring) (s : list jsstring) : list jsstring :=
  if Set_has k s then s else s ++ [k].

Definition lines (p : t) : list (option line) :=
  match file p with
  | Some x => read_lines x
  | None => []
  end.

(** The keys that the lines of the file hold, oldest first. *)
Definition keys (p : t) : list jsstring :=
  flat_map (fun l => match l with Some x => [key x] | None => [] end) (lines p).

(** The text ends with a line feed, is empty, or is not there. *)
Definition terminated (p : t) : bool :=
  match file p with
  | Some x => match tail x with None => true | Some _ => false end
  | None => true
  end.

(** The body of the loop of [load]: a line that is skipped leaves the set
    as it is. *)
Definition load_line (s : list jsstring) (l : option line) : list jsstring :=
  match l with
  | Some x => Set_add (key x) s
  | None => s
  end.

(** [load()]: a failure of [fs.readFile] is caught, and nothing is done. *)
Definition load : M t unit :=
  fun p =>
    match file p with
    | Some x =>
        (Return tt,
         mk (fold_left load_line (read_lines x) (seen p)) (file p) (append_error p))
    | None => (Return tt, p)
    end.

(** [has(key)] *)
Definition has (k : jsstring) (p : t) : bool := Set_has k (seen p).

(** [add(key)]; [now] is what [new Date().toISOString()] returns.
    [fs.appendFile] makes the file where it is not there. *)
Definition add (now k : jsstring) : M t unit :=
  fun p =>
    if Set_has k (seen p) then (Return tt, p)
    else
      let seen' := Set_add k (seen p) in
      match append_error p with
      | Some e => (Throw e, mk seen' (file p) (append_error p))
      | None =>
          let x := match file p with Some x => x | None => mkText [] None end in
          (Return tt, mk seen' (Some (append x (mkLine k now))) (append_error p))
      end.

End ProcessedStore.

(* ================================================================== *)
(** * The scheduler (scheduler/schedulerEngine.ts, scheduler/runner.ts) *)

Module Scheduler.

Local Open Scope js_scope.

(** An action of a task, of one of the three types of [TaskAction].  The
    arguments of [runTool] are read as the executor of [main] reads
    them. *)
Inductive TaskAction :=
| SendMessage (channel : jsstring) (target : option jsstring)
    (textTemplate : jsstring)
| RunTool (toolName : jsstring) (args : Server.body)
| RunChat (promptTemplate : jsstring).

Record Task := mkTask {
  id : jsstring;
  cron : jsstring;
  timezone : option jsstring;
  action : TaskAction;
  enabled : bool;
  lastRun : option jsstring;
  createdAt : option jsstring;
  updatedAt : option jsstring
}.

(** A line of [runs.jsonl]: [{ taskId, at, ok, detail? }]. *)
Record run := mkRun {
  taskId : jsstring;
  at_ : jsstring;
  ok : bool;
  detail : option jsstring
}.

(** [SchedulerEngine]: the tasks in memory; the tasks that [tasks.json]
    holds, when it is there and parses, and the exception that writing it
    throws, if it does; the lines of [runs.jsonl] and the exception that
    appending to it throws, if it does. *)
Record engine := mkEngine {
  tasks : list Task;
  tasks_file : option (list Task);
  tasks_error : option exn;
  runs_file : list run;
  runs_error : option exn
}.

(** [save()] *)
Definition save : M engine unit :=
  fun g =>
    match tasks_error g with
    | Some e => (Throw e, g)
    | None =>
        (Return tt,
         mkEngine (tasks g) (Some (tasks g)) (tasks_error g)
           (runs_file g) (runs_error g))
    end.

(** [getTasks()] *)
Definition getTasks (g : engine) : list Task := tasks g.

Definition with_tasks (l : list Task) (g : engine) : engine :=
  mkEngine l (tasks_file g) (tasks_error g) (runs_file g) (runs_error g).

(** [addTask(task)]: [createdAt] and [updatedAt] are set to [now]. *)
Definition addTask (now : jsstring) (task : Task) : M engine Task :=
  let t := mkTask (id task) (cron task) (timezone task) (action task)
             (enabled task) (lastRun task) (Some now) (Some now) in
  fun g => (save ;; ret t) (with_tasks (tasks g ++ [t]) g).

(** [this.tasks.findIndex((t) => t.id === id)], and the assignment
    [this.tasks[i].lastRun = lastRun] at the index found. *)
Fixpoint findIndex (i : jsstring) (l : list Task) : option nat :=
  match l with
  | [] => None
  | t :: l' =>
      if streq (id t) i then Some O
      else match findIndex i l' with Some n => Some (S n) | None => None end
  end.

Definition set_lastRun (r : jsstring) (t : Task) : Task :=
  mkTask (id t) (cron t) (timezone t) (action t) (enabled t) (Some r)
    (createdAt t) (updatedAt t).

Fixpoint update_at (n : nat) (f : Task -> Task) (l : list Task) : list Task :=
  match l, n with
  | [], _ => []
  | t :: l', O => f t :: l'
  | t :: l', S k => t :: update_at k f l'
  end.

(** [setLastRun(id, lastRun)] *)
Definition setLastRun (i r : jsstring) : M engine unit :=
  fun g =>
    match findIndex i (tasks g) with
    | Some n => save (with_tasks (update_at n (set_lastRun r) (tasks g)) g)
    | None => (Return tt, g)
    end.

(** [appendRun(entry)] *)
Definition appendRun (entry : run) : M engine unit :=
  fun g =>
    match runs_error g with
    | Some e => (Throw e, g)
    | None =>
        (Return tt,
         mkEngine (tasks g) (tasks_file g) (tasks_error g)
           (runs_file g ++ [entry]) (runs_error g))
    end.

(** The tool names that [runTool] of the executor of [main] knows. *)
Definition known_tool (name : jsstring) : bool :=
  streq name (str "file.list") || streq name (str "file.read")
  || streq name (str "file.write") || streq name (str "file.delete").

Section Runner.

(** [W] is the state the approval listeners act on, [X] what the mail
    transport and the chat of the executor act on. *)
Variables W X : Type.
Variable workspaceRoot : jsstring.

(** What a run of a task acts on: the world of the file tools, the
    engine, and the rest. *)
Record state := mkState {
  world : Server.world W;
  the_engine : engine;
  rest : X
}.

Definition on_world {A} (m : M (Server.world W) A) : M state A :=
  fun s =>
    let (r, w) := m (world s) in (r, mkState w (the_engine s) (rest s)).

Definition on_engine {A} (m : M engine A) : M state A :=
  fun s =>
    let (r, g) := m (the_engine s) in (r, mkState (world s) g (rest s)).

(** [executor.sendMessage] and [executor.runChat]: the mail transport and
    the agents are not modelled. *)
Variable sendMessage : jsstring -> option jsstring -> jsstring -> M state unit.
Variable runChat : jsstring -> M state jsstring.

(** [executeAction(action)], on an action of one of the three types. *)
Definition executeAction (a : TaskAction) : M state unit :=
  match a with
  | SendMessage channel target textTemplate =>
      sendMessage channel target textTemplate
  | RunTool toolName args =>
      _ <- on_world (Server.runTool workspaceRoot toolName args) ;; ret tt
  | RunChat promptTemplate => _ <- runChat promptTemplate ;; ret tt
  end.

(** [runTask(task)] *)
Definition runTask (task : Task) : M state unit :=
  now <- on_world (@Server.read_clock W) ;;
  try_catch
    (executeAction (action task) ;;
     on_engine (setLastRun (id task) now) ;;
     on_engine (appendRun (mkRun (id task) now true None)))
    (fun e =>
       on_engine (appendRun (mkRun (id task) now false (Some (message e))))).

End Runner.

End Scheduler.

(* ================================================================== *)
(** * Summaries of a text (core/text.ts) *)

Module Text.

(** [s.split(/\r?\n/)[0]]: what stands before the first line break, a
    line feed or a carriage return followed by one. *)
Fixpoint first_line (s : jsstring) : jsstring :=
  match s with
  | [] => []
  | c :: s' =>
      if c =? 10 then []
      else if (c =? 13) && match s' with d :: _ => d =? 10 | [] => false end
      then []
      else c :: first_line s'
  end.

(** [s.replace(/\s+/g, " ")]: [in_run] says that the unit before was white
    space, of a run that has been replaced already. *)
Fixpoint collapse_from (in_run : bool) (s : jsstring) : jsstring :=
  match s with
  | [] => []
  | c :: s' =>
      if is_space c
      then (if in_run then collapse_from true s' else 32 :: collapse_from true s')
      else c :: collapse_from false s'
  end.

Definition collapse (s : jsstring) : jsstring := collapse_from false s.

(** [s.slice(0, n)] for an integer [n]: a negative [n] counts from the
    end. *)
Definition slice_to (s : jsstring) (n : Z) : jsstring :=
  let len := Z.of_nat (length s) in
  let e := if n <? 0 then Z.max (len + n) 0 else Z.min n len in
  firstn (Z.to_nat e) s.

(** The literal that [firstLineSummary] appends, as it stands in the
    source file: the three code units U+00E2, U+20AC, U+00A6. *)
Definition MARK : jsstring := [226; 8364; 166].

(** [firstLineSummary(s, maxLen)], for an integer [maxLen]. *)
Definition firstLineSummary (s : jsstring) (maxLen : Z) : jsstring :=
  let line := trim (first_line s) in
  let clean := collapse line in
  if Z.of_nat (length clean) <=? maxLen then clean
  else slice_to clean (maxLen - 1) ++ MARK.

End Text.

(* ================================================================== *)
(** * Facts about strings *)

Unset Implicit Arguments.

Lemma streq_refl (s : jsstring) : streq s s = true.
Proof.
  induction s as [|c s IH]; simpl; [reflexivity|].
  now rewrite Z.eqb_refl, IH.
Qed.

Lemma streq_eq (a b : jsstring) : streq a b = true <-> a = b.
Proof.
  split.
  - revert b; induction a as [|c a IH]; intros [|d b] H; simpl in H;
      try discriminate; [reflexivity|].
    apply andb_true_iff in H as [Hc Hs].
    apply Z.eqb_eq in Hc. apply IH in Hs. now subst.
  - intros ->. apply streq_refl.
Qed.

Lemma streq_neq (a b : jsstring) : streq a b = false <-> a <> b.
Proof.
  split.
  - intros H E. apply streq_eq in E. congruence.
  - intros H. destruct (streq a b) eqn:E; [|reflexivity].
    apply streq_eq in E. contradiction.
Qed.

Lemma streq_sym (a b : jsstring) : streq a b = streq b a.
Proof.
  destruct (streq a b) eqn:E; symmetry.
  - apply streq_eq in E. subst. apply streq_refl.
  - apply streq_neq. apply streq_neq in E. congruence.
Qed.

(* ================================================================== *)
(** * The approval ledger *)

Section Ledger.

Import ApprovalManager.
Variables A W : Type.

Implicit Types (m : t A W) (w : W) (i k : jsstring).

Lemma Map_get_set_same k (v : PendingTool A) (mp : Map A) :
  Map_get k (Map_set k v mp) = Some v.
Proof.
  induction mp as [|[k' v'] mp IH]; simpl.
  - now rewrite streq_refl.
  - destruct (streq k k') eqn:E; simpl; rewrite E; [reflexivity | exact IH].
Qed.

Lemma Map_get_delete_same k (mp : Map A) :
  Map_get k (Map_delete k mp) = None.
Proof.
  induction mp as [|[k' v'] mp IH]; simpl; [reflexivity|].
  destruct (streq k k') eqn:E; simpl; [exact IH | now rewrite E].
Qed.

Lemma Map_delete_absent k (mp : Map A) :
  Map_get k mp = None -> Map_delete k mp = mp.
Proof.
  induction mp as [|[k' v'] mp IH]; simpl; [reflexivity|].
  destruct (streq k k') eqn:E; simpl; [discriminate|].
  intros H. now rewrite IH.
Qed.

Lemma Map_delete_keys k (mp : Map A) kv :
  In kv (Map_delete k mp) -> fst kv <> k.
Proof.
  unfold Map_delete. intros H. apply filter_In in H as [_ H].
  apply negb_true_iff, streq_neq in H. congruence.
Qed.

Lemma keyed_set uuid (v : PendingTool A) (mp : Map A) :
  id v = uuid ->
  Forall (fun kv => id (snd kv) = fst kv) mp ->
  Forall (fun kv => id (snd kv) = fst kv) (Map_set uuid v mp).
Proof.
  intros Hv H. induction H as [|[k' v'] mp Hk H IH]; simpl.
  - constructor; [exact Hv | constructor].
  - destruct (streq uuid k') eqn:E.
    + apply streq_eq in E. subst k'. constructor; [exact Hv | exact H].
    + constructor; [exact Hk | exact IH].
Qed.

Lemma keyed_delete k (mp : Map A) :
  Forall (fun kv => id (snd kv) = fst kv) mp ->
  Forall (fun kv => id (snd kv) = fst kv) (Map_delete k mp).
Proof.
  intros H. apply Forall_forall. intros kv Hin.
  apply filter_In in Hin as [Hin _].
  revert kv Hin. now apply Forall_forall.
Qed.

Lemma Map_set_fresh k (v : PendingTool A) (mp : Map A) :
  Map_get k mp = None -> Map_set k v mp = mp ++ [(k, v)].
Proof.
  induction mp as [|[k' v'] mp IH]; cbn [Map_get Map_set app]; [reflexivity|].
  destruct (streq k k'); [discriminate|]. intros H. now rewrite IH.
Qed.

Lemma Map_set_pending k (v old : PendingTool A) (mp : Map A) :
  Map_get k mp = Some old ->
  map fst (Map_set k v mp) = map fst mp.
Proof.
  induction mp as [|[k' v'] mp IH]; cbn [Map_get Map_set]; [discriminate|].
  destruct (streq k k'); [reflexivity|]. intros H. cbn [map fst]. now rewrite IH.
Qed.

Lemma Map_get_set_other k j (v : PendingTool A) (mp : Map A) :
  streq j k = false -> Map_get j (Map_set k v mp) = Map_get j mp.
Proof.
  intros Hj. induction mp as [|[k' v'] mp IH]; cbn [Map_get Map_set].
  - now rewrite Hj.
  - destruct (streq k k') eqn:E; cbn [Map_get].
    + apply streq_eq in E. subst k'. now rewrite Hj.
    + now rewrite IH.
Qed.

Lemma Map_get_delete_other k j (mp : Map A) :
  streq j k = false -> Map_get j (Map_delete k mp) = Map_get j mp.
Proof.
  intros Hj. induction mp as [|[k' v'] mp IH]; [reflexivity|].
  unfold Map_delete in *. cbn [filter fst Map_get].
  destruct (streq k k') eqn:E; cbn [negb Map_get].
  - apply streq_eq in E. subst k'. now rewrite Hj.
  - now rewrite IH.
Qed.

Lemma Map_delete_values k (mp : Map A) :
  Forall (fun kv => id (snd kv) = fst kv) mp ->
  map snd (Map_delete k mp)
  = filter (fun p => negb (streq k (id p))) (map snd mp).
Proof.
  induction 1 as [|[k' v'] mp Hk _ IH]; [reflexivity|].
  unfold Map_delete in *. cbn [filter map fst snd] in *. rewrite Hk.
  destruct (streq k k'); cbn [negb map snd]; now rewrite IH.
Qed.

(** The invariant holds of a new manager and every call keeps it. *)
Lemma keyed_new : keyed (new A W).
Proof. constructor. Qed.

Lemma keyed_perform (mw : t A W * W) (o : operation A W) :
  keyed (fst mw) -> keyed (fst (perform mw o)).
Proof.
  destruct mw as [m w]; unfold keyed; intros H.
  destruct o as [uuid now tl ar | i | i | fn]; simpl.
  - now apply keyed_set.
  - destruct (Map_get i (pending m)); simpl; [now apply keyed_delete | exact H].
  - destruct (Map_get i (pending m)); simpl; [now apply keyed_delete | exact H].
  - exact H.
Qed.

(** An id that is not pending stays so as long as no [add] draws it again. *)
Lemma absent_perform (mw : t A W * W) (o : operation A W) i :
  adds i o = false ->
  get i (fst mw) = None -> get i (fst (perform mw o)) = None.
Proof.
  destruct mw as [m w]; unfold get.
  destruct o as [uuid now tl ar | j | j | fn]; simpl; intros Ho H.
  - induction (pending m) as [|[k' v'] mp IH]; simpl in *.
    + rewrite streq_sym, Ho. reflexivity.
    + destruct (streq i k') eqn:E; [discriminate|].
      destruct (streq uuid k') eqn:E'; simpl; rewrite E; [exact H | now apply IH].
  - destruct (Map_get j (pending m)) eqn:Ej; simpl; [|exact H].
    clear Ej. induction (pending m) as [|[k' v'] mp IH]; simpl in *; [reflexivity|].
    destruct (streq i k') eqn:E; [discriminate|].
    destruct (streq j k'); simpl; [now apply IH | rewrite E; now apply IH].
  - destruct (Map_get j (pending m)) eqn:Ej; simpl; [|exact H].
    clear Ej. induction (pending m) as [|[k' v'] mp IH]; simpl in *; [reflexivity|].
    destruct (streq i k') eqn:E; [discriminate|].
    destruct (streq j k'); simpl; [now apply IH | rewrite E; now apply IH].
  - exact H.
Qed.

Lemma absent_run (ops : Datatypes.list (operation A W)) (mw : t A W * W) i :
  forallb (fun o => negb (adds i o)) ops = true ->
  get i (fst mw) = None -> get i (fst (run ops mw)) = None.
Proof.
  revert mw. induction ops as [|o ops IH]; intros mw Hops H; simpl in *.
  - exact H.
  - apply andb_true_iff in Hops as [Ho Hops].
    apply IH; [exact Hops|].
    apply absent_perform; [now apply negb_true_iff | exact H].
Qed.

Lemma approve_absent i m w :
  get i m = None -> approve i (m, w) = (None, (m, w)).
Proof. unfold get, approve. now intros ->. Qed.

Lemma reject_absent i m w :
  get i m = None -> reject i (m, w) = (false, (m, w)).
Proof. unfold get, reject. now intros ->. Qed.

Lemma Map_delete_set k (v : PendingTool A) (mp : Map A) :
  Map_delete k (Map_set k v mp) = Map_delete k mp.
Proof.
  unfold Map_delete.
  induction mp as [|[k' v'] mp IH]; cbn [Map_set filter fst].
  - now rewrite streq_refl.
  - destruct (streq k k') eqn:E; cbn [filter fst]; rewrite E; cbn [negb];
      [reflexivity | now rewrite IH].
Qed.

(** C5.  An id is resolved at most once.  For a manager [m] (every record
    kept under its id) and a request submitted with [add], whose id is
    [uuid]: the record is in [list()]; [approve] on that id returns the
    record as submitted and removes it from [list()], which is then the
    list of before without the record of that id, the other records in
    their order (the list as it was before the submission, where the id
    was not pending then); a second [approve] returns [null] and changes
    neither the manager nor what the listeners act on; [reject] on the
    resolved id returns [false], as it does on any id that is not pending,
    without effect; and the id stays unresolvable through any further
    calls among which no [add] draws it again. *)
Theorem approval_resolved_at_most_once :
  forall m w uuid now tool_ (args_ : A),
    keyed m ->
    let submitted := mkPendingTool uuid tool_ args_ now in
    let m1 := snd (add uuid now tool_ args_ m) in
    let after := snd (approve uuid (m1, w)) in
    fst (add uuid now tool_ args_ m) = uuid /\
    In submitted (list m1) /\
    fst (approve uuid (m1, w)) = Some submitted /\
    list (fst after) = filter (fun p => negb (streq uuid (id p))) (list m1) /\
    (forall p, In p (list (fst after)) <-> In p (list m1) /\ id p <> uuid) /\
    ~ In submitted (list (fst after)) /\
    (get uuid m = None ->
       list m1 = list m ++ [submitted] /\ list (fst after) = list m) /\
    approve uuid after = (None, after) /\
    reject uuid after = (false, after) /\
    (forall m' w' i, get i m' = None -> reject i (m', w') = (false, (m', w'))) /\
    (forall m' w' i, fst (reject i (snd (reject i (m', w')))) = false) /\
    (forall ops, forallb (fun o => negb (adds uuid o)) ops = true ->
       fst (approve uuid (run ops after)) = None /\
       fst (reject uuid (run ops after)) = false).
Proof.
  intros m w uuid now tool_ args_ Hk submitted m1 after.
  assert (Hget : Map_get uuid (pending m1) = Some submitted)
    by apply Map_get_set_same.
  assert (Hafter : after = (mk (Map_delete uuid (pending m1)) (listeners m1),
                            notify (listeners m1) uuid true w)).
  { unfold after, approve. now rewrite Hget. }
  assert (Hgone : get uuid (fst after) = None).
  { rewrite Hafter. apply Map_get_delete_same. }
  assert (Hk1 : keyed m1)
    by (apply (keyed_perform (m, w) (Add W uuid now tool_ args_)), Hk).
  assert (Hlist : list (fst after)
                  = filter (fun p => negb (streq uuid (id p))) (list m1)).
  { rewrite Hafter. unfold list. cbn [fst pending].
    now apply Map_delete_values. }
  assert (Hiff : forall p, In p (list (fst after)) <-> In p (list m1) /\ id p <> uuid).
  { intros p. rewrite Hlist, filter_In. split; intros [Hin Hne]; (split; [exact Hin|]).
    - apply negb_true_iff, streq_neq in Hne. congruence.
    - apply negb_true_iff, streq_neq. congruence. }
  split; [reflexivity|].
  split.
  { unfold list. apply in_map_iff. exists (uuid, submitted).
    split; [reflexivity|].
    clear - Hget. induction (pending m1) as [|[k' v'] mp IH]; [discriminate|].
    cbn [Map_get] in Hget. destruct (streq uuid k') eqn:E.
    - apply streq_eq in E. injection Hget as ->. subst k'. now left.
    - right. now apply IH. }
  split; [unfold approve; now rewrite Hget|].
  split; [exact Hlist|].
  split; [exact Hiff|].
  split; [intros Hin; apply Hiff in Hin as [_ Hne]; now apply Hne|].
  split.
  { intros Hn. unfold get in Hn. split.
    - unfold m1, add, list. cbn [snd pending].
      rewrite Map_set_fresh by exact Hn. now rewrite map_app.
    - rewrite Hafter. unfold m1, add, list. cbn [fst snd pending].
      now rewrite Map_delete_set, Map_delete_absent. }
  split; [destruct after as [m2 w2]; now apply approve_absent|].
  split; [destruct after as [m2 w2]; now apply reject_absent|].
  split; [intros m' w' i; apply reject_absent|].
  split.
  { intros m' w' i. unfold reject at 2.
    destruct (Map_get i (pending m')) eqn:E; simpl.
    + unfold reject. simpl. now rewrite Map_get_delete_same.
    + unfold reject. now rewrite E. }
  intros ops H. pose proof (absent_run ops after uuid H Hgone) as Hn.
  destruct (run ops after) as [m3 w3].
  now rewrite approve_absent, reject_absent.
Qed.

End Ledger.

Lemma approval_resolved_at_most_once_witness :
  ApprovalManager.keyed (ApprovalManager.new nat unit) /\
  fst (ApprovalManager.approve (str "u-1")
         (snd (ApprovalManager.add (str "u-1") (str "t0") (str "file.delete") 7%nat
                 (ApprovalManager.new nat unit)), tt))
  = Some (ApprovalManager.mkPendingTool (str "u-1") (str "file.delete") 7%nat (str "t0")).
Proof.
  split.
  - constructor.
  - apply (approval_resolved_at_most_once nat unit
             (ApprovalManager.new nat unit) tt (str "u-1") (str "t0")
             (str "file.delete") 7%nat).
    constructor.
Defined.

(* ================================================================== *)
(** * The observers of the ledger *)

Section Observers.

Import ApprovalManager.
Variable A : Type.

Lemma listeners_register (names : Datatypes.list nat) (m : t A Log) :
  listeners (register names m) = listeners m ++ map recorder names.
Proof.
  revert m. induction names as [|n names IH]; intros m; simpl.
  - now rewrite app_nil_r.
  - unfold register in *. simpl. rewrite IH. simpl.
    now rewrite <- app_assoc.
Qed.

Lemma pending_register (names : Datatypes.list nat) (m : t A Log) :
  pending (register names m) = pending m.
Proof.
  revert m. induction names as [|n names IH]; intros m; simpl; [reflexivity|].
  unfold register in *. simpl. now rewrite IH.
Qed.

Lemma notify_recorders (names : Datatypes.list nat) i (b : bool) (log : Log) :
  notify (map recorder names) i b log
  = log ++ map (fun n => (n, i, b)) names.
Proof.
  revert log. induction names as [|n names IH]; intros log; simpl.
  - now rewrite app_nil_r.
  - unfold notify in *. simpl. rewrite IH. unfold recorder.
    now rewrite <- app_assoc.
Qed.

Lemma heard_by_app n (l1 l2 : Log) :
  heard_by n (l1 ++ l2) = heard_by n l1 ++ heard_by n l2.
Proof. apply filter_app. Qed.

Lemma heard_by_absent n i (b : bool) (names : Datatypes.list nat) :
  ~ In n names -> heard_by n (map (fun k => (k, i, b)) names) = [].
Proof.
  induction names as [|k names IH]; intros Hn; simpl; [reflexivity|].
  destruct (Nat.eqb_spec k n) as [->|Hne].
  - exfalso. apply Hn. now left.
  - apply IH. intros Hin. apply Hn. now right.
Qed.

Lemma heard_by_once n i (b : bool) (names : Datatypes.list nat) :
  NoDup names -> In n names ->
  heard_by n (map (fun k => (k, i, b)) names) = [(n, i, b)].
Proof.
  induction names as [|k names IH]; intros Hnd Hin; [contradiction|].
  inversion Hnd as [|? ? Hk Hnd']; subst. simpl.
  destruct (Nat.eqb_spec k n) as [->|Hne].
  - now rewrite heard_by_absent.
  - destruct Hin as [->|Hin]; [contradiction|]. now apply IH.
Qed.

(** C7.  Observers registered with [onResolve] (here the recording
    observers [names], each registered once, on a manager that had none)
    are each called exactly once by a resolution of a pending id, within
    the call that resolves it, in the order of registration, with that id
    and [true] for [approve], [false] for [reject]; a call on an id that is
    not pending calls no observer; an observer registered after the
    resolution has heard nothing of it, and hears nothing of it later. *)
Theorem observers_called_once_per_resolution :
  forall (m0 : t A Log) (names : Datatypes.list nat) i (p : PendingTool A) (log : Log),
    listeners m0 = [] ->
    NoDup names ->
    get i m0 = Some p ->
    let m := register names m0 in
    let approved := snd (approve i (m, log)) in
    let rejected := snd (reject i (m, log)) in
    snd approved = log ++ map (fun n => (n, i, true)) names /\
    snd rejected = log ++ map (fun n => (n, i, false)) names /\
    (forall n, In n names ->
       heard_by n (snd approved) = heard_by n log ++ [(n, i, true)] /\
       heard_by n (snd rejected) = heard_by n log ++ [(n, i, false)]) /\
    (forall j, get j m = None ->
       snd (snd (approve j (m, log))) = log /\
       snd (snd (reject j (m, log))) = log) /\
    (forall late, ~ In late names ->
       let m' := onResolve (recorder late) (fst approved) in
       heard_by late (snd approved) = heard_by late log /\
       snd (snd (approve i (m', snd approved))) = snd approved /\
       snd (snd (reject i (m', snd approved))) = snd approved).
Proof.
  intros m0 names i p log Hl Hnd Hget m approved rejected.
  assert (Hp : Map_get i (pending m) = Some p).
  { unfold m. rewrite pending_register. exact Hget. }
  assert (Hls : listeners m = map recorder names).
  { unfold m. rewrite listeners_register, Hl. reflexivity. }
  assert (Ha : approved = (mk (Map_delete i (pending m)) (listeners m),
                           log ++ map (fun n => (n, i, true)) names)).
  { unfold approved, approve. rewrite Hp, Hls. now rewrite notify_recorders. }
  assert (Hr : rejected = (mk (Map_delete i (pending m)) (listeners m),
                           log ++ map (fun n => (n, i, false)) names)).
  { unfold rejected, reject. rewrite Hp, Hls. now rewrite notify_recorders. }
  split; [now rewrite Ha|]. split; [now rewrite Hr|]. split; [|split].
  - intros n Hin. rewrite Ha, Hr. simpl. rewrite !heard_by_app.
    now rewrite !heard_by_once.
  - intros j Hj. now rewrite approve_absent, reject_absent.
  - intros late Hlate m'.
    assert (Hgone : get i m' = None).
    { unfold m'. rewrite Ha. simpl. apply Map_get_delete_same. }
    split; [|split].
    + rewrite Ha. simpl.
      rewrite heard_by_app, heard_by_absent by exact Hlate. apply app_nil_r.
    + now rewrite (approve_absent _ _ i m' _ Hgone).
    + now rewrite (reject_absent _ _ i m' _ Hgone).
Qed.

End Observers.

Lemma observers_called_once_per_resolution_witness :
  snd (snd (ApprovalManager.approve (str "u-1")
    (ApprovalManager.register [1%nat; 2%nat]
       (snd (ApprovalManager.add (str "u-1") (str "t0") (str "file.write") 0%nat
               (ApprovalManager.new nat ApprovalManager.Log))), [])))
  = [(1%nat, str "u-1", true); (2%nat, str "u-1", true)].
Proof.
  apply (observers_called_once_per_resolution nat
           (snd (ApprovalManager.add (str "u-1") (str "t0") (str "file.write") 0%nat
                   (ApprovalManager.new nat ApprovalManager.Log)))
           [1%nat; 2%nat] (str "u-1")
           (ApprovalManager.mkPendingTool (str "u-1") (str "file.write") 0%nat (str "t0"))
           []).
  - reflexivity.
  - repeat constructor; simpl; intuition discriminate.
  - reflexivity.
Defined.

(* ================================================================== *)
(** * Splitting and joining *)

Lemma split_nonnil c s : split c s <> [].
Proof.
  destruct s as [|d s]; simpl; [discriminate|].
  destruct (d =? c); [discriminate|].
  destruct (split c s); discriminate.
Qed.

Lemma split_app c a b : split c (a ++ c :: b) = split c a ++ split c b.
Proof.
  induction a as [|x a IH]; simpl.
  - now rewrite Z.eqb_refl.
  - destruct (x =? c); [now rewrite IH|].
    rewrite IH. destruct (split c a) eqn:E; [now apply split_nonnil in E|].
    reflexivity.
Qed.

Lemma split_name c s :
  forallb (fun d => negb (d =? c)) s = true -> split c s = [s].
Proof.
  induction s as [|d s IH]; simpl; [reflexivity|].
  intros H. apply andb_true_iff in H as [Hd Hs].
  apply negb_true_iff in Hd. rewrite Hd, IH by exact Hs. reflexivity.
Qed.

(* ================================================================== *)
(** * UTF-8 lengths *)

Lemma encode_ascii (s : jsstring) :
  Forall (fun c => 0 <= c < 128) s -> Utf8.encode s = s.
Proof.
  induction 1 as [|c s Hc _ IH]; [reflexivity|].
  cbn [Utf8.encode]. unfold Utf8.is_high, Utf8.is_low, Utf8.encode_cp.
  destruct (Z.leb_spec 55296 c); [lia|].
  destruct (Z.leb_spec 56320 c); [lia|].
  destruct (Z.ltb_spec c 128); [|lia].
  cbn [andb app]. now rewrite IH.
Qed.

Lemma byteLength_xs (n : Z) :
  0 <= n -> Utf8.byteLength (Sample.xs n) = n.
Proof.
  intros Hn. unfold Utf8.byteLength, Sample.xs.
  rewrite encode_ascii.
  - rewrite repeat_length. lia.
  - apply Forall_forall. intros c Hc. apply repeat_spec in Hc. lia.
Qed.

(* ================================================================== *)
(** * The endpoints of the file tools and of the approvals *)

Lemma guarded_returns {A} (m : M Fs.state A) (d : A -> FileTools.data) s :
  exists out, fst (FileTools.guarded m d s) = Return out.
Proof.
  unfold FileTools.guarded, try_catch, bind.
  destruct (m s) as [[a|e] s']; cbn; eauto.
Qed.

Section Endpoints.

Import Server.
Variable W : Type.
Variable ws : jsstring.

Local Notation handle := (Server.handle (W := W) ws main_deps).
Local Notation deferred := (Server.deferred ws).
Local Notation get := ApprovalManager.get.

Ltac enter_approvals Hi :=
  let Hne := fresh "Hne" in
  let Hsl := fresh "Hsl" in
  apply andb_true_iff in Hi as [Hne Hsl];
  apply negb_true_iff in Hne;
  unfold Server.handle, approve_request, reject_request; cbn;
  unfold route; cbn -[split Server.deferred];
  change Path.CHAR_FORWARD_SLASH with 47 in *;
  rewrite split_app, (split_name _ _ Hsl); cbn -[Server.deferred];
  rewrite Hne.

Ltac enter_tool :=
  unfold Server.handle, write_request, delete_request, list_request, read_request;
  cbn -[Utf8.byteLength MAX_WRITE_BYTES Z.gtb missing or_else FileTools.list FileTools.read];
  unfold route;
  cbn -[Utf8.byteLength MAX_WRITE_BYTES Z.gtb missing or_else FileTools.list FileTools.read].

Lemma deferred_returns p call s :
  deferred p = Some call -> exists out, fst (call s) = Return out.
Proof.
  unfold Server.deferred, write_pending, FileTools.write, FileTools.delete.
  destruct (streq _ _).
  - destruct (content _); intros [= <-]; apply guarded_returns.
  - destruct (streq _ _); [|discriminate].
    intros [= <-]; apply guarded_returns.
Qed.

Lemma add_run tool a (w : world W) :
  add tool a w =
  (Return (randomUUID w (uuids_drawn w)),
   mkWorld (fs w)
     (snd (ApprovalManager.add (randomUUID w (uuids_drawn w))
             (toISOString w (clock_reads w)) tool a (approvalManager w)))
     (outside w) (auditLogger w)
     (randomUUID w) (S (uuids_drawn w)) (toISOString w) (S (clock_reads w))).
Proof. reflexivity. Qed.

Lemma log_run tool a r d (w : world W) :
  log tool a r d w =
  match AuditLogger.append_error (auditLogger w) with
  | None =>
      (Return tt,
       mkWorld (fs w) (approvalManager w) (outside w)
         (AuditLogger.mk
            (AuditLogger.lines (auditLogger w)
             ++ [AuditLogger.mkEntry (toISOString w (clock_reads w)) tool a r d])
            None)
         (randomUUID w) (uuids_drawn w) (toISOString w) (S (clock_reads w)))
  | Some e =>
      (Throw e,
       mkWorld (fs w) (approvalManager w) (outside w) (auditLogger w)
         (randomUUID w) (uuids_drawn w) (toISOString w) (S (clock_reads w)))
  end.
Proof.
  unfold log, bind, read_clock, on_audit, AuditLogger.log. cbn.
  destruct (AuditLogger.append_error (auditLogger w)); reflexivity.
Qed.

Lemma appendable_true (a : AuditLogger.t tool_args) :
  AuditLogger.appendable a = true -> AuditLogger.append_error a = None.
Proof. unfold AuditLogger.appendable. now destruct (AuditLogger.append_error a). Qed.

(** A write request that names no path is answered 400, whatever its
    content. *)
Lemma write_without_path (w : world W) (p c : option jsstring) :
  missing p = true ->
  handle (write_request p c) w
  = (Return (sendJson 400 (JsonError (str "Missing path"))), w).
Proof. intros Hp. enter_tool. now rewrite Hp. Qed.

(** So is one that names a path and carries no string as its content. *)
Lemma write_without_content (w : world W) (p : jsstring) :
  missing (Some p) = false ->
  handle (write_request (Some p) None) w
  = (Return (sendJson 400 (JsonError (str "Missing or invalid content"))), w).
Proof. intros Hp. enter_tool. now rewrite Hp. Qed.

(** And a delete request that names no path. *)
Lemma delete_without_path (w : world W) (p : option jsstring) :
  missing p = true ->
  handle (delete_request p) w
  = (Return (sendJson 400 (JsonError (str "Missing path"))), w).
Proof. intros Hp. enter_tool. now rewrite Hp. Qed.

(** The size gate of the write endpoint, for any world and content. *)
Lemma write_too_large (w : world W) (p c : jsstring) :
  missing (Some p) = false ->
  Utf8.byteLength c > MAX_WRITE_BYTES ->
  handle (write_request (Some p) (Some c)) w
  = (Return (sendJson 413 (JsonError (str "Content too large"))), w).
Proof.
  intros Hp Hc. enter_tool. rewrite Hp.
  destruct (Z.gtb_spec (Utf8.byteLength c) MAX_WRITE_BYTES); [reflexivity | lia].
Qed.

Lemma write_accepted (w : world W) (p c : jsstring) :
  missing (Some p) = false ->
  Utf8.byteLength c <= MAX_WRITE_BYTES ->
  handle (write_request (Some p) (Some c)) w
  = try_catch
      (i <- add (str "file.write") (mkArgs p (Some c)) ;;
       log (str "file.write") (mkArgs p None) AuditLogger.pending (Some i) ;;
       ret (sendJson 200 (JsonPending i (str "Approval required"))))%js
      (fun e => ret (sendJson 500 (JsonError (message e)))) w.
Proof.
  intros Hp Hc. enter_tool. rewrite Hp.
  destruct (Z.gtb_spec (Utf8.byteLength c) MAX_WRITE_BYTES); [lia | reflexivity].
Qed.

Lemma delete_accepted (w : world W) (p : jsstring) :
  missing (Some p) = false ->
  handle (delete_request (Some p)) w
  = try_catch
      (i <- add (str "file.delete") (mkArgs p None) ;;
       log (str "file.delete") (mkArgs p None) AuditLogger.pending (Some i) ;;
       ret (sendJson 200 (JsonPending i (str "Approval required"))))%js
      (fun e => ret (sendJson 500 (JsonError (message e)))) w.
Proof. intros Hp. enter_tool. now rewrite Hp. Qed.

(** What a request for a mutation leaves behind: the record in the ledger,
    a pending line in the audit trail when that can be written, the state
    of the file tools as it was. *)
Lemma request_recorded tool p c (w : world W) :
  let i := randomUUID w (uuids_drawn w) in
  let out :=
    try_catch
      (i <- add tool (mkArgs p c) ;;
       log tool (mkArgs p None) AuditLogger.pending (Some i) ;;
       ret (sendJson 200 (JsonPending i (str "Approval required"))))%js
      (fun e => ret (sendJson 500 (JsonError (message e)))) w in
  fs (snd out) = fs w /\
  outside (snd out) = outside w /\
  get i (approvalManager (snd out))
  = Some (ApprovalManager.mkPendingTool i tool (mkArgs p c)
            (toISOString w (clock_reads w))) /\
  fst out =
    match AuditLogger.append_error (auditLogger w) with
    | None => Return (sendJson 200 (JsonPending i (str "Approval required")))
    | Some e => Return (sendJson 500 (JsonError (message e)))
    end /\
  AuditLogger.lines (auditLogger (snd out)) =
    match AuditLogger.append_error (auditLogger w) with
    | None => AuditLogger.lines (auditLogger w)
              ++ [AuditLogger.mkEntry (toISOString w (S (clock_reads w))) tool
                    (mkArgs p None) AuditLogger.pending (Some i)]
    | Some _ => AuditLogger.lines (auditLogger w)
    end /\
  approvalManager (snd out)
  = snd (ApprovalManager.add i (toISOString w (clock_reads w)) tool (mkArgs p c)
           (approvalManager w)).
Proof.
  intros i out. unfold out, try_catch, bind.
  rewrite add_run, log_run. cbn [auditLogger].
  destruct (AuditLogger.append_error (auditLogger w)); cbn;
    (repeat split; try reflexivity; apply Map_get_set_same).
Qed.

(** What the ledger holds after a record has been added under [i]: the
    record under [i], the records of the other ids as they were, and the
    new record last in [list()] where [i] was not pending. *)
Lemma ledger_after_add i now tool (a : tool_args)
    (m : ApprovalManager.t tool_args W) :
  let record := ApprovalManager.mkPendingTool i tool a now in
  let m1 := snd (ApprovalManager.add i now tool a m) in
  get i m1 = Some record /\
  (forall j, streq j i = false -> get j m1 = get j m) /\
  (get i m = None ->
   ApprovalManager.list m1 = ApprovalManager.list m ++ [record]) /\
  ApprovalManager.listeners m1 = ApprovalManager.listeners m.
Proof.
  intros record m1. unfold m1, get, ApprovalManager.get, ApprovalManager.add,
    ApprovalManager.list. cbn [snd ApprovalManager.pending ApprovalManager.listeners].
  split; [apply Map_get_set_same|].
  split; [intros j Hj; now apply Map_get_set_other|].
  split; [|reflexivity].
  intros Hn. rewrite Map_set_fresh by exact Hn. now rewrite map_app.
Qed.

(** The call that the approval of an entry of the endpoints stands for:
    the write or the removal that the entry records. *)
Lemma deferred_write (q : ApprovalManager.PendingTool tool_args) c :
  ApprovalManager.tool q = str "file.write" ->
  content (ApprovalManager.args q) = Some c ->
  deferred q = Some (FileTools.write ws (path (ApprovalManager.args q)) c).
Proof.
  intros Ht Hc. unfold Server.deferred, write_pending. now rewrite Ht, Hc.
Qed.

Lemma deferred_delete (q : ApprovalManager.PendingTool tool_args) :
  ApprovalManager.tool q = str "file.delete" ->
  deferred q = Some (FileTools.delete ws (path (ApprovalManager.args q))).
Proof. intros Ht. unfold Server.deferred. now rewrite Ht. Qed.

(** An approval of a pending entry runs the call it stands for and then
    writes the audit line; a failure of that line is what the caller is
    answered. *)
Lemma approve_pending (w : world W) i p call :
  url_segment i = true ->
  get i (approvalManager w) = Some p ->
  deferred p = Some call ->
  exists out,
    fst (call (fs w)) = Return out /\
    let after := handle (approve_request i) w in
    fs (snd after) = snd (call (fs w)) /\
    get i (approvalManager (snd after)) = None /\
    outside (snd after)
    = ApprovalManager.notify (ApprovalManager.listeners (approvalManager w))
        i true (outside w) /\
    fst after =
      match AuditLogger.append_error (auditLogger w) with
      | None => Return (sendJson 200 (JsonResult out))
      | Some e => Return (sendJson 500 (JsonError (message e)))
      end /\
    AuditLogger.lines (auditLogger (snd after)) =
      match AuditLogger.append_error (auditLogger w) with
      | None => AuditLogger.lines (auditLogger w)
                ++ [AuditLogger.mkEntry (toISOString w (clock_reads w))
                      (ApprovalManager.tool p) (ApprovalManager.args p)
                      (result_of out) (detail_of out)]
      | Some _ => AuditLogger.lines (auditLogger w)
      end.
Proof.
  intros Hi Hp Hcall.
  destruct (deferred_returns p call (fs w) Hcall) as [out Hout].
  exists out. split; [exact Hout|].
  enter_approvals Hi.
  unfold try_catch, bind, on_approvals, ApprovalManager.approve.
  cbn -[Server.deferred].
  unfold ApprovalManager.get in Hp. rewrite Hp. cbn -[Server.deferred].
  rewrite Hcall. unfold on_fs. cbn [fs].
  destruct (call (fs w)) as [r f] eqn:Ecall. cbn in Hout. subst r.
  unfold on_audit, AuditLogger.log. cbn.
  destruct (AuditLogger.append_error (auditLogger w)); cbn;
    (repeat split; try reflexivity; apply Map_get_delete_same).
Qed.

Lemma reject_pending (w : world W) i p :
  url_segment i = true ->
  get i (approvalManager w) = Some p ->
  let after := handle (reject_request i) w in
  fst after = Return (sendJson 200 (JsonRejected true)) /\
  fs (snd after) = fs w /\
  auditLogger (snd after) = auditLogger w /\
  get i (approvalManager (snd after)) = None.
Proof.
  intros Hi Hp. enter_approvals Hi.
  unfold try_catch, bind, on_approvals, ApprovalManager.reject. cbn.
  unfold ApprovalManager.get in Hp. rewrite Hp. cbn.
  repeat split. apply Map_get_delete_same.
Qed.

Lemma world_eta (w : world W) :
  mkWorld (fs w) (approvalManager w) (outside w) (auditLogger w)
    (randomUUID w) (uuids_drawn w) (toISOString w) (clock_reads w) = w.
Proof. now destruct w. Qed.

Lemma resolve_unknown (w : world W) i :
  url_segment i = true ->
  get i (approvalManager w) = None ->
  handle (approve_request i) w
  = (Return (sendJson 404 (JsonError (str "Not found"))), w) /\
  handle (reject_request i) w
  = (Return (sendJson 200 (JsonRejected false)), w).
Proof.
  intros Hi Hp. split.
  - enter_approvals Hi.
    unfold try_catch, bind, on_approvals, ApprovalManager.approve. cbn.
    unfold ApprovalManager.get in Hp. rewrite Hp. cbn.
    now rewrite world_eta.
  - enter_approvals Hi.
    unfold try_catch, bind, on_approvals, ApprovalManager.reject. cbn.
    unfold ApprovalManager.get in Hp. rewrite Hp. cbn.
    now rewrite world_eta.
Qed.

Lemma list_audited (w : world W) (p : option jsstring) :
  exists out,
    fst (FileTools.list ws (or_else p (str ".")) (fs w)) = Return out /\
    fs (snd (handle (list_request p) w))
    = snd (FileTools.list ws (or_else p (str ".")) (fs w)) /\
    fst (handle (list_request p) w) =
      match AuditLogger.append_error (auditLogger w) with
      | None => Return (sendJson 200 (JsonResult out))
      | Some e => Return (sendJson 500 (JsonError (message e)))
      end.
Proof.
  destruct (guarded_returns
              (WorkspaceFS.listDir ws
                 (if is_empty (or_else p (str ".")) then str "." else or_else p (str ".")))
              FileTools.Entries (fs w)) as [out Hout].
  exists out. split; [exact Hout|].
  enter_tool. unfold try_catch, bind, on_fs.
  unfold FileTools.list in *.
  destruct (FileTools.guarded _ _ (fs w)) as [r f] eqn:E. cbn in Hout. subst r.
  rewrite log_run. cbn [auditLogger fs].
  destruct (AuditLogger.append_error (auditLogger w)); cbn; split; reflexivity.
Qed.

Lemma read_audited (w : world W) (p : jsstring) (n : option Z) :
  missing (Some p) = false ->
  let budget := match n with Some k => k | None => 1000000 end in
  exists out,
    fst (FileTools.read ws p budget (fs w)) = Return out /\
    fs (snd (handle (read_request (Some p) n) w))
    = snd (FileTools.read ws p budget (fs w)) /\
    fst (handle (read_request (Some p) n) w) =
      match AuditLogger.append_error (auditLogger w) with
      | None => Return (sendJson 200 (JsonResult out))
      | Some e => Return (sendJson 500 (JsonError (message e)))
      end.
Proof.
  intros Hp budget.
  destruct (guarded_returns (WorkspaceFS.readText ws p budget)
              FileTools.Text (fs w)) as [out Hout].
  exists out. split; [exact Hout|].
  enter_tool. rewrite Hp. unfold try_catch, bind, on_fs.
  unfold FileTools.read in *. cbn [or_else]. fold budget.
  destruct (FileTools.guarded _ _ (fs w)) as [r f] eqn:E. cbn in Hout. subst r.
  rewrite log_run. cbn [auditLogger fs].
  destruct (AuditLogger.append_error (auditLogger w)); cbn; split; reflexivity.
Qed.

(** C10, as amended.  A write request that names a path and carries a
    string content of more than 10 MiB of UTF-8 is answered 413 and leaves
    the world as it was: no pending entry, no audit line, no UUID drawn.
    With a content of at most that size the request puts its record in the
    ledger. *)
Theorem write_size_gate :
  forall (w : world W) (p c : jsstring),
    missing (Some p) = false ->
    (Utf8.byteLength c > MAX_WRITE_BYTES ->
       handle (write_request (Some p) (Some c)) w
       = (Return (sendJson 413 (JsonError (str "Content too large"))), w)) /\
    (Utf8.byteLength c <= MAX_WRITE_BYTES ->
       get (randomUUID w (uuids_drawn w))
         (approvalManager (snd (handle (write_request (Some p) (Some c)) w)))
       = Some (ApprovalManager.mkPendingTool (randomUUID w (uuids_drawn w))
                 (str "file.write") (mkArgs p (Some c))
                 (toISOString w (clock_reads w)))).
Proof.
  intros w p c Hp. split; intros Hc.
  - now apply write_too_large.
  - rewrite write_accepted by assumption.
    apply (request_recorded (str "file.write") p (Some c) w).
Qed.

(** C8, as amended.  When the audit line cannot be written, the request is
    answered 500 with the message of what [fs.appendFile] threw, in place
    of the tool's result or of the pending id.  What was done before the
    log step stays done: the write or the removal that an approved entry
    records has run on the file system, with the recorded path and
    content, and its entry is consumed; the record of a requested mutation
    is in the ledger; the listing or the reading has been made.  No audit
    line has been added. *)
Theorem audit_failure_fails_the_request :
  forall (w : world W) (e : exn),
    AuditLogger.append_error (auditLogger w) = Some e ->
    let failure : outcome response :=
      Return (sendJson 500 (JsonError (message e))) in
    (forall i q,
       url_segment i = true ->
       get i (approvalManager w) = Some q ->
       let after := handle (approve_request i) w in
       (forall c,
          ApprovalManager.tool q = str "file.write" ->
          content (ApprovalManager.args q) = Some c ->
          fst after = failure /\
          fs (snd after)
          = snd (FileTools.write ws (path (ApprovalManager.args q)) c (fs w)) /\
          get i (approvalManager (snd after)) = None /\
          AuditLogger.lines (auditLogger (snd after))
          = AuditLogger.lines (auditLogger w)) /\
       (ApprovalManager.tool q = str "file.delete" ->
          fst after = failure /\
          fs (snd after)
          = snd (FileTools.delete ws (path (ApprovalManager.args q)) (fs w)) /\
          get i (approvalManager (snd after)) = None /\
          AuditLogger.lines (auditLogger (snd after))
          = AuditLogger.lines (auditLogger w))) /\
    (forall p c,
       missing (Some p) = false ->
       Utf8.byteLength c <= MAX_WRITE_BYTES ->
       let after := handle (write_request (Some p) (Some c)) w in
       fst after = failure /\
       get (randomUUID w (uuids_drawn w)) (approvalManager (snd after))
       = Some (ApprovalManager.mkPendingTool (randomUUID w (uuids_drawn w))
                 (str "file.write") (mkArgs p (Some c))
                 (toISOString w (clock_reads w))) /\
       AuditLogger.lines (auditLogger (snd after))
       = AuditLogger.lines (auditLogger w)) /\
    (forall p,
       missing (Some p) = false ->
       let after := handle (delete_request (Some p)) w in
       fst after = failure /\
       get (randomUUID w (uuids_drawn w)) (approvalManager (snd after))
       = Some (ApprovalManager.mkPendingTool (randomUUID w (uuids_drawn w))
                 (str "file.delete") (mkArgs p None)
                 (toISOString w (clock_reads w))) /\
       AuditLogger.lines (auditLogger (snd after))
       = AuditLogger.lines (auditLogger w)) /\
    (forall p,
       fst (handle (list_request p) w) = failure /\
       fs (snd (handle (list_request p) w))
       = snd (FileTools.list ws (or_else p (str ".")) (fs w))) /\
    (forall p n,
       missing (Some p) = false ->
       fst (handle (read_request (Some p) n) w) = failure /\
       fs (snd (handle (read_request (Some p) n) w))
       = snd (FileTools.read ws p
                (match n with Some k => k | None => 1000000 end) (fs w))).
Proof.
  intros w e Hw failure. split; [|split; [|split; [|split]]].
  - intros i q Hi Hq after. split.
    + intros c Ht Hc.
      destruct (approve_pending w i q _ Hi Hq (deferred_write q c Ht Hc))
        as [out [_ [Hf [Hg [_ [Hr Hl]]]]]].
      rewrite Hw in Hr, Hl. repeat split; assumption.
    + intros Ht.
      destruct (approve_pending w i q _ Hi Hq (deferred_delete q Ht))
        as [out [_ [Hf [Hg [_ [Hr Hl]]]]]].
      rewrite Hw in Hr, Hl. repeat split; assumption.
  - intros p c Hp Hc after. unfold after.
    rewrite write_accepted by assumption.
    destruct (request_recorded (str "file.write") p (Some c) w)
      as [_ [_ [Hg [Hr [Hl _]]]]].
    rewrite Hw in Hr, Hl. repeat split; assumption.
  - intros p Hp after. unfold after.
    rewrite delete_accepted by assumption.
    destruct (request_recorded (str "file.delete") p None w)
      as [_ [_ [Hg [Hr [Hl _]]]]].
    rewrite Hw in Hr, Hl. repeat split; assumption.
  - intros p. destruct (list_audited w p) as [out [_ [Hf Hr]]].
    rewrite Hw in Hr. split; assumption.
  - intros p n Hp. destruct (read_audited w p n Hp) as [out [_ [Hf Hr]]].
    rewrite Hw in Hr. split; assumption.
Qed.

(** C3, as amended.  A write or delete request to the HTTP endpoints that
    names no path, and a write request without a string as its content,
    are answered 400 and change nothing.  A delete request that names a
    path, and a write request that does and carries a content of at most
    10 MiB, call no file tool: the state that the file tools act on,
    with the calls they have made to [fs], is as it was.  The handler
    puts the record of the request, its path and content, in the ledger
    under the id that [randomUUID] returns, leaves what is pending under
    the other ids as it was (the record is then the last of [list()],
    unless that id was pending already) and appends one line to the audit
    trail, after which the caller is sent the id.  The approval of a
    pending id runs the write or the removal that its record asks for,
    with the recorded path and content, and consumes the entry: so does
    the approval of the id that a request was answered with.  A rejection
    consumes the entry and leaves the file system alone; an approval or
    rejection of an id that is not pending changes nothing. *)
Theorem http_mutations_wait_for_approval :
  forall (w : world W),
    (forall p c, missing p = true ->
       handle (write_request p c) w
       = (Return (sendJson 400 (JsonError (str "Missing path"))), w)) /\
    (forall p, missing (Some p) = false ->
       handle (write_request (Some p) None) w
       = (Return (sendJson 400 (JsonError (str "Missing or invalid content"))), w)) /\
    (forall p, missing p = true ->
       handle (delete_request p) w
       = (Return (sendJson 400 (JsonError (str "Missing path"))), w)) /\
    (forall p content_ req tool,
       missing (Some p) = false ->
       (req = write_request (Some p) content_ /\ tool = str "file.write" /\
        exists c, content_ = Some c /\ Utf8.byteLength c <= MAX_WRITE_BYTES) \/
       (req = delete_request (Some p) /\ tool = str "file.delete" /\
        content_ = None) ->
       let i := randomUUID w (uuids_drawn w) in
       let record :=
         ApprovalManager.mkPendingTool i tool (mkArgs p content_)
           (toISOString w (clock_reads w)) in
       let w1 := snd (handle req w) in
       fs w1 = fs w /\
       get i (approvalManager w1) = Some record /\
       (forall j, streq j i = false ->
          get j (approvalManager w1) = get j (approvalManager w)) /\
       (get i (approvalManager w) = None ->
        ApprovalManager.list (approvalManager w1)
        = ApprovalManager.list (approvalManager w) ++ [record]) /\
       (AuditLogger.append_error (auditLogger w) = None ->
        fst (handle req w)
        = Return (sendJson 200 (JsonPending i (str "Approval required"))) /\
        AuditLogger.lines (auditLogger w1)
        = AuditLogger.lines (auditLogger w)
          ++ [AuditLogger.mkEntry (toISOString w (S (clock_reads w))) tool
                (mkArgs p None) AuditLogger.pending (Some i)] /\
        (url_segment i = true ->
         exists call,
           call = match content_ with
                  | Some c => FileTools.write ws p c
                  | None => FileTools.delete ws p
                  end /\
           fs (snd (handle (approve_request i) w1)) = snd (call (fs w)) /\
           get i (approvalManager (snd (handle (approve_request i) w1))) = None /\
           exists out,
             fst (call (fs w)) = Return out /\
             fst (handle (approve_request i) w1)
             = Return (sendJson 200 (JsonResult out))))) /\
    (forall i q,
       url_segment i = true ->
       get i (approvalManager w) = Some q ->
       let after := handle (approve_request i) w in
       (forall c,
          ApprovalManager.tool q = str "file.write" ->
          content (ApprovalManager.args q) = Some c ->
          fs (snd after)
          = snd (FileTools.write ws (path (ApprovalManager.args q)) c (fs w)) /\
          get i (approvalManager (snd after)) = None /\
          (AuditLogger.append_error (auditLogger w) = None ->
           exists out,
             fst (FileTools.write ws (path (ApprovalManager.args q)) c (fs w))
             = Return out /\
             fst after = Return (sendJson 200 (JsonResult out)))) /\
       (ApprovalManager.tool q = str "file.delete" ->
          fs (snd after)
          = snd (FileTools.delete ws (path (ApprovalManager.args q)) (fs w)) /\
          get i (approvalManager (snd after)) = None /\
          (AuditLogger.append_error (auditLogger w) = None ->
           exists out,
             fst (FileTools.delete ws (path (ApprovalManager.args q)) (fs w))
             = Return out /\
             fst after = Return (sendJson 200 (JsonResult out))))) /\
    (forall i q,
       url_segment i = true ->
       get i (approvalManager w) = Some q ->
       fst (handle (reject_request i) w) = Return (sendJson 200 (JsonRejected true)) /\
       fs (snd (handle (reject_request i) w)) = fs w /\
       auditLogger (snd (handle (reject_request i) w)) = auditLogger w /\
       get i (approvalManager (snd (handle (reject_request i) w))) = None) /\
    (forall i,
       url_segment i = true ->
       get i (approvalManager w) = None ->
       handle (approve_request i) w
       = (Return (sendJson 404 (JsonError (str "Not found"))), w) /\
       handle (reject_request i) w
       = (Return (sendJson 200 (JsonRejected false)), w)).
Proof.
  intros w.
  split; [intros p c; apply write_without_path|].
  split; [intros p; apply write_without_content|].
  split; [intros p; apply delete_without_path|].
  split; [|split; [|split]].
  - intros p content_ req tool Hp Hreq i record w1.
    assert (Hh : handle req w
                 = try_catch
                     (i <- add tool (mkArgs p content_) ;;
                      log tool (mkArgs p None) AuditLogger.pending (Some i) ;;
                      ret (sendJson 200 (JsonPending i (str "Approval required"))))%js
                     (fun e => ret (sendJson 500 (JsonError (message e)))) w).
    { destruct Hreq as [[-> [-> [c [-> Hc]]]]|[-> [-> ->]]].
      - now apply write_accepted.
      - now apply delete_accepted. }
    assert (Hd : Server.deferred ws record
                 = Some (match content_ with
                         | Some c => FileTools.write ws p c
                         | None => FileTools.delete ws p
                         end)).
    { destruct Hreq as [[_ [-> [c [-> _]]]]|[_ [-> ->]]]; reflexivity. }
    destruct (request_recorded tool p content_ w)
      as [Hf [_ [Hg [Hr [Hl Hm]]]]].
    unfold w1. rewrite Hh. fold i in Hf, Hg, Hr, Hl, Hm |- *.
    destruct (ledger_after_add i (toISOString w (clock_reads w)) tool
                (mkArgs p content_) (approvalManager w)) as [_ [Ho [Hlast _]]].
    split; [exact Hf|]. split; [exact Hg|].
    split; [intros j Hj; rewrite Hm; now apply Ho|].
    split; [intros Hn; rewrite Hm; now apply Hlast|].
    intros Ha. rewrite Ha in Hr, Hl.
    split; [exact Hr|]. split; [exact Hl|].
    intros Hi. eexists. split; [reflexivity|].
    match goal with
    | |- context [handle (approve_request i) ?w2] =>
        destruct (approve_pending w2 i record _ Hi Hg Hd)
          as [out [Hout [Hf2 [Hg2 [_ [Hr2 _]]]]]];
        assert (Ha2 : AuditLogger.append_error (auditLogger w2) = None)
    end.
    { unfold try_catch, bind. rewrite add_run, log_run. cbn [auditLogger].
      rewrite Ha. reflexivity. }
    rewrite Hf in Hout, Hf2. rewrite Ha2 in Hr2.
    split; [exact Hf2|]. split; [exact Hg2|].
    exists out. split; assumption.
  - intros i q Hi Hq after. split.
    + intros c Ht Hc.
      destruct (approve_pending w i q _ Hi Hq (deferred_write q c Ht Hc))
        as [out [Hout [Hf [Hg [_ [Hr _]]]]]].
      split; [exact Hf|]. split; [exact Hg|].
      intros Ha. exists out. split; [exact Hout|]. unfold after.
      rewrite Hr, Ha. reflexivity.
    + intros Ht.
      destruct (approve_pending w i q _ Hi Hq (deferred_delete q Ht))
        as [out [Hout [Hf [Hg [_ [Hr _]]]]]].
      split; [exact Hf|]. split; [exact Hg|].
      intros Ha. exists out. split; [exact Hout|]. unfold after.
      rewrite Hr, Ha. reflexivity.
  - intros i q Hi Hq. exact (reject_pending w i q Hi Hq).
  - intros i Hi Hn. now apply resolve_unknown.
Qed.

End Endpoints.

Lemma write_size_gate_witness :
  Server.handle Sample.workspaceRoot Server.main_deps
    (Server.write_request (Some (str "a.txt"))
       (Some (Sample.xs (Server.MAX_WRITE_BYTES + 1))))
    (Sample.world true)
  = (Return (Server.sendJson 413 (Server.JsonError (str "Content too large"))),
     Sample.world true).
Proof.
  apply (proj1 (write_size_gate unit Sample.workspaceRoot (Sample.world true)
                  (str "a.txt") (Sample.xs (Server.MAX_WRITE_BYTES + 1))
                  eq_refl)).
  rewrite byteLength_xs; unfold Server.MAX_WRITE_BYTES; lia.
Defined.

(** C10, as stated, fails on a request that names no path: it is answered
    400 whatever the size of its content. *)
Lemma oversized_write_without_path_is_400 :
  Utf8.byteLength (Sample.xs (Server.MAX_WRITE_BYTES + 1)) > Server.MAX_WRITE_BYTES /\
  Server.handle Sample.workspaceRoot Server.main_deps
    (Server.write_request (Some (str ""))
       (Some (Sample.xs (Server.MAX_WRITE_BYTES + 1))))
    (Sample.world true)
  = (Return (Server.sendJson 400 (Server.JsonError (str "Missing path"))),
     Sample.world true).
Proof.
  split.
  - rewrite byteLength_xs; unfold Server.MAX_WRITE_BYTES; lia.
  - apply write_without_path. reflexivity.
Qed.

Lemma audit_failure_fails_the_request_witness :
  fst (Server.handle Sample.workspaceRoot Server.main_deps
         (Server.approve_request (str "uuid-0")) (Sample.world_pending false))
  = Return (Server.sendJson 500 (Server.JsonError (message Sample.audit_error))) /\
  Server.fs (snd (Server.handle Sample.workspaceRoot Server.main_deps
                    (Server.approve_request (str "uuid-0"))
                    (Sample.world_pending false)))
  = snd (FileTools.write Sample.workspaceRoot (str "a.txt") (str "x")
           (Server.fs (Sample.world_pending false))).
Proof.
  pose proof (proj1 (proj1 (audit_failure_fails_the_request unit
                 Sample.workspaceRoot (Sample.world_pending false)
                 Sample.audit_error eq_refl)
                 (str "uuid-0") Sample.pending_write eq_refl eq_refl)
                 (str "x") eq_refl eq_refl) as H.
  split; [exact (proj1 H) | exact (proj1 (proj2 H))].
Defined.

(** C8, as stated, fails when the approved write has run and its audit
    line cannot be written: the file is there, and the caller is answered
    500 with the error of the append, not the [{ ok: true }] of the write. *)
Lemma approved_write_answered_500_when_audit_fails :
  Fs.locate (Fs.tree (Server.fs (Sample.world_pending false)))
    [str "srv"; str "data"; str "workspace"; str "a.txt"] = inl ENOENT /\
  AuditLogger.append_error (Server.auditLogger (Sample.world_pending false))
  = Some Sample.audit_error /\
  fst (FileTools.write Sample.workspaceRoot (str "a.txt") (str "x")
         (Server.fs (Sample.world_pending false)))
  = Return (FileTools.ok (FileTools.Text (str "written"))) /\
  fst (Server.handle Sample.workspaceRoot Server.main_deps
         (Server.approve_request (str "uuid-0")) (Sample.world_pending false))
  = Return (Server.sendJson 500
              (Server.JsonError (message Sample.audit_error))) /\
  Fs.locate
    (Fs.tree (Server.fs (snd (Server.handle Sample.workspaceRoot Server.main_deps
       (Server.approve_request (str "uuid-0")) (Sample.world_pending false)))))
    [str "srv"; str "data"; str "workspace"; str "a.txt"]
  = inr (Fs.File (Utf8.encode (str "x"))).
Proof. vm_compute. repeat split. Qed.

Lemma http_mutations_wait_for_approval_witness :
  let w := Sample.world true in
  let w1 := snd (Server.handle Sample.workspaceRoot Server.main_deps
                   (Server.write_request (Some (str "a.txt")) (Some (str "x"))) w) in
  Server.fs w1 = Server.fs w /\
  Server.fs (snd (Server.handle Sample.workspaceRoot Server.main_deps
                    (Server.approve_request (str "uuid-0")) w1))
  = snd (FileTools.write Sample.workspaceRoot (str "a.txt") (str "x") (Server.fs w)).
Proof.
  intros w w1.
  destruct (http_mutations_wait_for_approval unit Sample.workspaceRoot w)
    as [_ [_ [_ [H _]]]].
  specialize (H (str "a.txt") (Some (str "x"))
                (Server.write_request (Some (str "a.txt")) (Some (str "x")))
                (str "file.write") eq_refl).
  assert (Hc : Utf8.byteLength (str "x") <= Server.MAX_WRITE_BYTES)
    by (vm_compute; discriminate).
  specialize (H (or_introl (conj eq_refl (conj eq_refl
                   (ex_intro _ (str "x") (conj eq_refl Hc)))))).
  destruct H as [Hf [_ [_ [_ Hok]]]].
  split; [exact Hf|].
  destruct (Hok eq_refl) as [_ [_ Hap]].
  destruct (Hap eq_refl) as [call [-> [Hfs _]]].
  exact Hfs.
Defined.

(** C3, as stated, fails in two ways.  A write request that the scheduler's
    executor runs ([runTool]) writes the file at once, with nothing pending
    in the ledger; and a write request to the HTTP endpoint that names no
    path creates no pending entry and is sent no id. *)
Lemma write_requests_outside_the_ledger :
  Fs.locate (Fs.tree (Server.fs (Sample.world true)))
    [str "srv"; str "data"; str "workspace"; str "a.txt"] = inl ENOENT /\
  fst (Server.runTool Sample.workspaceRoot (str "file.write")
         (Server.mkBody (Some (str "a.txt")) (Some (str "x")) None)
         (Sample.world true))
  = Return (FileTools.ok (FileTools.Text (str "written"))) /\
  Fs.locate
    (Fs.tree (Server.fs (snd (Server.runTool Sample.workspaceRoot (str "file.write")
       (Server.mkBody (Some (str "a.txt")) (Some (str "x")) None)
       (Sample.world true)))))
    [str "srv"; str "data"; str "workspace"; str "a.txt"]
  = inr (Fs.File (Utf8.encode (str "x"))) /\
  ApprovalManager.list
    (Server.approvalManager (snd (Server.runTool Sample.workspaceRoot (str "file.write")
       (Server.mkBody (Some (str "a.txt")) (Some (str "x")) None)
       (Sample.world true)))) = [] /\
  Server.handle Sample.workspaceRoot Server.main_deps
    (Server.write_request None (Some (str "x"))) (Sample.world true)
  = (Return (Server.sendJson 400 (Server.JsonError (str "Missing path"))),
     Sample.world true) /\
  ApprovalManager.list (Server.approvalManager (Sample.world true)) = [].
Proof. vm_compute. repeat split. Qed.

(* ================================================================== *)
(** * Normal forms of paths *)

Section PathFacts.

Import Path.

Lemma join_cons x y l :
  Js.join sep (x :: y :: l) = x ++ CHAR_FORWARD_SLASH :: Js.join sep (y :: l).
Proof. reflexivity. Qed.

Lemma join_snoc l x :
  l <> [] -> Js.join sep (l ++ [x]) = Js.join sep l ++ CHAR_FORWARD_SLASH :: x.
Proof.
  induction l as [|a l IH]; intros Hl; [contradiction|].
  destruct l as [|b l]; [reflexivity|].
  cbn [app]. rewrite (join_cons a b (l ++ [x])), (join_cons a b l).
  change (b :: l ++ [x]) with ((b :: l) ++ [x]).
  rewrite IH by discriminate.
  now rewrite <- app_assoc.
Qed.

Lemma is_name_no_slash seg : is_name seg = true -> no_slash seg = true.
Proof.
  unfold is_name. intros H.
  apply andb_true_iff in H as [H _]. apply andb_true_iff in H as [H _].
  now apply andb_true_iff in H as [_ H].
Qed.

Lemma is_name_nonempty seg : is_name seg = true -> is_empty seg = false.
Proof.
  unfold is_name. intros H.
  apply andb_true_iff in H as [H _]. apply andb_true_iff in H as [H _].
  apply andb_true_iff in H as [H _]. now apply negb_true_iff.
Qed.

Lemma is_name_not_dot seg : is_name seg = true -> streq seg dot = false.
Proof.
  unfold is_name. intros H.
  apply andb_true_iff in H as [H _]. apply andb_true_iff in H as [_ H].
  now apply negb_true_iff.
Qed.

Lemma is_name_not_dotdot seg : is_name seg = true -> streq seg dotdot = false.
Proof.
  unfold is_name. intros H.
  apply andb_true_iff in H as [_ H]. now apply negb_true_iff.
Qed.

Lemma split_join_names l :
  Forall (fun seg => is_name seg = true) l -> l <> [] ->
  split CHAR_FORWARD_SLASH (Js.join sep l) = l.
Proof.
  induction 1 as [|x l Hx Hl IH]; intros Hne; [contradiction|].
  destruct l as [|y l].
  - cbn [Js.join]. apply split_name. now apply is_name_no_slash.
  - rewrite join_cons, split_app, IH by discriminate.
    rewrite split_name by now apply is_name_no_slash. reflexivity.
Qed.

Lemma filter_Boolean_names l :
  Forall (fun seg => is_name seg = true) l -> filter_Boolean l = l.
Proof.
  induction 1 as [|x l Hx Hl IH]; [reflexivity|].
  unfold filter_Boolean in *. cbn [filter].
  rewrite (is_name_nonempty _ Hx). cbn [negb]. now rewrite IH.
Qed.

Lemma split_render l :
  Forall (fun seg => is_name seg = true) l ->
  split CHAR_FORWARD_SLASH (render l) = [] :: (match l with [] => [[]] | _ => l end).
Proof.
  intros Hl. unfold render, sep. cbn [app split].
  rewrite Z.eqb_refl. destruct l as [|x l]; [reflexivity|].
  now rewrite split_join_names.
Qed.

Lemma segments_render l :
  Forall (fun seg => is_name seg = true) l -> segments (render l) = l.
Proof.
  intros Hl. unfold segments. rewrite split_render by assumption.
  destruct l as [|x l]; [reflexivity|].
  change (filter_Boolean ([] :: x :: l)) with (filter_Boolean (x :: l)).
  now apply filter_Boolean_names.
Qed.

(** ** Normalization *)

Lemma normalize_step_name allow stack seg :
  is_name seg = true -> normalize_step allow stack seg = seg :: stack.
Proof.
  intros H. unfold normalize_step.
  now rewrite (is_name_nonempty _ H), (is_name_not_dot _ H), (is_name_not_dotdot _ H).
Qed.

Lemma normalize_names allow stack l :
  Forall (fun seg => is_name seg = true) l ->
  normalize_segments allow stack l = rev l ++ stack.
Proof.
  unfold normalize_segments. intros H. revert stack.
  induction H as [|x l Hx Hl IH]; intros stack; [reflexivity|].
  cbn [fold_left rev]. rewrite normalize_step_name by assumption.
  rewrite IH. now rewrite <- app_assoc.
Qed.

Lemma normalize_app allow stack l1 l2 :
  normalize_segments allow stack (l1 ++ l2)
  = normalize_segments allow (normalize_segments allow stack l1) l2.
Proof. apply fold_left_app. Qed.

Lemma split_no_slash s :
  Forall (fun seg => no_slash seg = true) (split CHAR_FORWARD_SLASH s).
Proof.
  induction s as [|c s IH]; cbn [split].
  - repeat constructor.
  - destruct (c =? CHAR_FORWARD_SLASH) eqn:E.
    + constructor; [reflexivity | exact IH].
    + destruct (split CHAR_FORWARD_SLASH s) as [|h t]; [repeat constructor; cbn; now rewrite E|].
      inversion IH; subst. constructor; [|assumption].
      cbn. rewrite E. assumption.
Qed.

Lemma normalize_step_keeps_names stack seg :
  Forall (fun x => is_name x = true) stack ->
  no_slash seg = true ->
  Forall (fun x => is_name x = true) (normalize_step false stack seg).
Proof.
  intros Hs Hseg. unfold normalize_step.
  destruct (is_empty seg) eqn:E1; [exact Hs|].
  destruct (streq seg dot) eqn:E2; [exact Hs|]. cbn [orb].
  destruct (streq seg dotdot) eqn:E3.
  - destruct stack as [|top below]; [constructor|].
    inversion Hs; subst.
    destruct (streq top dotdot); assumption.
  - constructor; [|exact Hs].
    unfold is_name. now rewrite E1, Hseg, E2, E3.
Qed.

Lemma normalize_keeps_names stack l :
  Forall (fun x => is_name x = true) stack ->
  Forall (fun seg => no_slash seg = true) l ->
  Forall (fun x => is_name x = true) (normalize_segments false stack l).
Proof.
  unfold normalize_segments. intros Hs Hl. revert stack Hs.
  induction Hl as [|x l Hx Hl IH]; intros stack Hs; [exact Hs|].
  cbn [fold_left]. apply IH. now apply normalize_step_keeps_names.
Qed.

Lemma normalize_empty_last allow stack l :
  normalize_segments allow stack (l ++ [[]]) = normalize_segments allow stack l.
Proof. now rewrite normalize_app. Qed.

Lemma canon_names p : Forall (fun x => is_name x = true) (canon p).
Proof.
  unfold canon. apply Forall_rev.
  apply normalize_keeps_names; [constructor | apply split_no_slash].
Qed.

Lemma below_names base u :
  Forall (fun x => is_name x = true) base ->
  Forall (fun x => is_name x = true) (below base u).
Proof.
  intros H. unfold below. apply Forall_rev.
  apply normalize_keeps_names; [now apply Forall_rev | apply split_no_slash].
Qed.

Lemma canon_render_app rs u :
  Forall (fun x => is_name x = true) rs ->
  canon (render rs ++ CHAR_FORWARD_SLASH :: u) = below rs u.
Proof.
  intros Hrs. unfold canon, below.
  rewrite split_app, split_render by assumption.
  rewrite normalize_app. f_equal. f_equal.
  destruct rs as [|x rs]; [reflexivity|].
  change (normalize_segments false [] ([] :: x :: rs))
    with (normalize_segments false [] (x :: rs)).
  rewrite normalize_names by assumption. apply app_nil_r.
Qed.

Lemma below_nil rs :
  Forall (fun x => is_name x = true) rs -> below rs [] = rs.
Proof.
  intros H. unfold below. cbn [split normalize_segments fold_left].
  unfold normalize_step. cbn [is_empty orb]. apply rev_involutive.
Qed.

Lemma render_nonempty l : is_empty (render l) = false.
Proof. reflexivity. Qed.

Lemma render_absolute l : isAbsolute (render l) = true.
Proof. reflexivity. Qed.

Lemma join_names_nonempty l :
  Forall (fun x => is_name x = true) l -> l <> [] ->
  is_empty (Js.join sep l) = false.
Proof.
  intros H Hne. destruct H as [|x l Hx Hl]; [contradiction|].
  apply is_name_nonempty in Hx.
  destruct x as [|c x]; [discriminate|].
  destruct l; reflexivity.
Qed.

(** [resolve] returns a normal form. *)
Lemma resolve_loop_absolute paths cb acc :
  snd (resolve_loop (paths ++ [CHAR_FORWARD_SLASH :: cb]) acc) = true.
Proof.
  revert acc. induction paths as [|p paths IH]; intros acc; cbn [app resolve_loop].
  - reflexivity.
  - destruct (is_empty p); [apply IH|].
    destruct (isAbsolute p); [reflexivity | apply IH].
Qed.

Lemma resolve_canon cb args :
  resolve (CHAR_FORWARD_SLASH :: cb) args
  = render (canon (fst (resolve_loop (rev args ++ [CHAR_FORWARD_SLASH :: cb]) []))).
Proof.
  unfold resolve.
  pose proof (resolve_loop_absolute (rev args) cb []) as H.
  destruct (resolve_loop _ _) as [rp abs]. cbn in H. subst abs.
  reflexivity.
Qed.

Lemma resolve_render cb ts :
  Forall (fun x => is_name x = true) ts ->
  resolve (CHAR_FORWARD_SLASH :: cb) [render ts] = render ts.
Proof.
  intros H. rewrite resolve_canon. cbn [rev app resolve_loop].
  rewrite render_nonempty, render_absolute. cbn [fst].
  change (render ts ++ sep ++ [])
    with (render ts ++ CHAR_FORWARD_SLASH :: []).
  rewrite canon_render_app by assumption. now rewrite below_nil.
Qed.

Lemma resolve_below cb rs u :
  Forall (fun x => is_name x = true) rs ->
  isAbsolute u = false ->
  resolve (CHAR_FORWARD_SLASH :: cb) [render rs; u] = render (below rs u).
Proof.
  intros Hrs Hu. rewrite resolve_canon. cbn [rev app resolve_loop].
  destruct (is_empty u) eqn:Eu.
  - destruct u; [|discriminate].
    rewrite render_nonempty, render_absolute. cbn [fst].
    change (render rs ++ sep ++ [])
      with (render rs ++ CHAR_FORWARD_SLASH :: []).
    now rewrite canon_render_app.
  - rewrite Hu, render_nonempty, render_absolute. cbn [fst].
    change (render rs ++ sep ++ u ++ sep ++ [])
      with (render rs ++ CHAR_FORWARD_SLASH :: (u ++ CHAR_FORWARD_SLASH :: [])).
    rewrite canon_render_app by assumption.
    unfold below. rewrite split_app.
    change (split CHAR_FORWARD_SLASH []) with [@nil Z].
    now rewrite normalize_empty_last.
Qed.

(** ** [relative] between normal forms *)

Lemma render_inj l1 l2 :
  Forall (fun x => is_name x = true) l1 ->
  Forall (fun x => is_name x = true) l2 ->
  render l1 = render l2 -> l1 = l2.
Proof.
  intros H1 H2 E. rewrite <- (segments_render l1 H1), <- (segments_render l2 H2).
  now rewrite E.
Qed.

Lemma relative_render cb rs ts :
  Forall (fun x => is_name x = true) rs ->
  Forall (fun x => is_name x = true) ts ->
  relative (CHAR_FORWARD_SLASH :: cb) (render rs) (render ts)
  = if streq (render rs) (render ts) then []
    else Js.join sep (map (fun _ => dotdot) (fst (drop_common rs ts))
                      ++ snd (drop_common rs ts)).
Proof.
  intros Hrs Hts. unfold relative.
  destruct (streq (render rs) (render ts)) eqn:E; [reflexivity|].
  rewrite !resolve_render by assumption. rewrite E.
  rewrite !segments_render by assumption.
  now destruct (drop_common rs ts).
Qed.

Lemma drop_common_prefix rs ts :
  is_prefix rs ts = true ->
  exists down, ts = rs ++ down /\ drop_common rs ts = ([], down).
Proof.
  revert ts. induction rs as [|x rs IH]; intros ts H.
  - exists ts. split; [reflexivity|]. now destruct ts.
  - destruct ts as [|y ts]; [discriminate|]. cbn [is_prefix] in H.
    apply andb_true_iff in H as [Hxy H]. apply streq_eq in Hxy. subst y.
    destruct (IH ts H) as [down [-> Hd]].
    exists down. split; [reflexivity|]. cbn [drop_common].
    now rewrite streq_refl.
Qed.

Lemma drop_common_not_prefix rs ts :
  is_prefix rs ts = false -> fst (drop_common rs ts) <> [].
Proof.
  revert ts. induction rs as [|x rs IH]; intros ts H; [discriminate|].
  destruct ts as [|y ts]; [discriminate|]. cbn [is_prefix] in H. cbn [drop_common].
  destruct (streq x y); [|discriminate].
  apply IH. exact H.
Qed.

Lemma is_prefix_app rs down : is_prefix rs (rs ++ down) = true.
Proof.
  induction rs as [|x rs IH]; [reflexivity|].
  cbn [app is_prefix]. now rewrite streq_refl.
Qed.

Lemma startsWith_app s p : startsWith (p ++ s) p = true.
Proof.
  induction p as [|c p IH]; [reflexivity|].
  cbn [app startsWith]. now rewrite Z.eqb_refl.
Qed.

Lemma join_starts_with x l :
  startsWith (Js.join sep (x :: l)) x = true.
Proof.
  destruct l as [|y l].
  - cbn [Js.join]. rewrite <- (app_nil_r x) at 1. apply startsWith_app.
  - rewrite join_cons. apply startsWith_app.
Qed.

Lemma isAbsolute_join_names l :
  Forall (fun x => is_name x = true) l -> isAbsolute (Js.join sep l) = false.
Proof.
  intros H. destruct H as [|x l Hx Hl]; [reflexivity|].
  pose proof (is_name_nonempty _ Hx) as Hne.
  apply is_name_no_slash in Hx.
  destruct x as [|c x]; [discriminate|].
  unfold no_slash in Hx. cbn [forallb] in Hx.
  apply andb_true_iff in Hx as [Hc _]. apply negb_true_iff in Hc.
  destruct l; cbn; exact Hc.
Qed.

(** A path that is not below the root is spelled with a leading [..] by
    [relative]. *)
Lemma relative_outside cb rs ts :
  Forall (fun x => is_name x = true) rs ->
  Forall (fun x => is_name x = true) ts ->
  is_prefix rs ts = false ->
  startsWith (relative (CHAR_FORWARD_SLASH :: cb) (render rs) (render ts))
    (str "..") = true.
Proof.
  intros Hrs Hts Hp. rewrite relative_render by assumption.
  destruct (streq (render rs) (render ts)) eqn:E.
  - apply streq_eq, render_inj in E; try assumption. subst ts.
    rewrite <- (app_nil_r rs) in Hp at 2. now rewrite is_prefix_app in Hp.
  - pose proof (drop_common_not_prefix rs ts Hp) as Hup.
    destruct (drop_common rs ts) as [up down]. cbn [fst snd] in *.
    destruct up as [|u up]; [contradiction|].
    cbn [map app]. apply (join_starts_with dotdot).
Qed.

(** A path at or below the root is spelled by [relative] with the names
    that lead to it from the root. *)
Lemma relative_inside cb rs down :
  Forall (fun x => is_name x = true) rs ->
  Forall (fun x => is_name x = true) down ->
  relative (CHAR_FORWARD_SLASH :: cb) (render rs) (render (rs ++ down))
  = Js.join sep down.
Proof.
  intros Hrs Hd.
  rewrite relative_render by (try apply Forall_app; auto).
  destruct (drop_common_prefix rs (rs ++ down) (is_prefix_app rs down))
    as [down' [E Hdc]].
  apply app_inv_head in E. subst down'. rewrite Hdc. cbn [fst snd map app].
  destruct (streq (render rs) (render (rs ++ down))) eqn:E; [|reflexivity].
  apply streq_eq, render_inj in E; try (try apply Forall_app; auto).
  rewrite <- (app_nil_r rs) in E at 1. apply app_inv_head in E. now subst down.
Qed.

Lemma parts_inside cb rs down :
  Forall (fun x => is_name x = true) rs ->
  Forall (fun x => is_name x = true) down ->
  filter_Boolean
    (split CHAR_FORWARD_SLASH
       (relative (CHAR_FORWARD_SLASH :: cb) (render rs) (render (rs ++ down))))
  = down.
Proof.
  intros Hrs Hd. rewrite relative_inside by assumption.
  destruct down as [|x down]; [reflexivity|].
  rewrite split_join_names by (assumption || discriminate).
  now apply filter_Boolean_names.
Qed.

(** ** [dirname] and [join] on normal forms *)

Lemma no_slash_rev a : no_slash (rev a) = no_slash a.
Proof.
  unfold no_slash. induction a as [|c a IH]; [reflexivity|].
  cbn [rev forallb]. rewrite forallb_app, IH. cbn [forallb].
  rewrite andb_true_r. apply andb_comm.
Qed.

Lemma drop_slashes_name a X :
  no_slash a = true -> is_empty a = false ->
  drop_slashes (a ++ X) = a ++ X.
Proof.
  intros Ha Hne. destruct a as [|c a]; [discriminate|].
  unfold no_slash in Ha. cbn [forallb] in Ha.
  apply andb_true_iff in Ha as [Hc _]. apply negb_true_iff in Hc.
  cbn [app drop_slashes]. now rewrite Hc.
Qed.

Lemma drop_name_app a X :
  no_slash a = true ->
  drop_name (a ++ CHAR_FORWARD_SLASH :: X) = CHAR_FORWARD_SLASH :: X.
Proof.
  unfold no_slash. induction a as [|c a IH]; intros Ha.
  - cbn [app drop_name]. now rewrite Z.eqb_refl.
  - cbn [forallb] in Ha. apply andb_true_iff in Ha as [Hc Ha].
    apply negb_true_iff in Hc. cbn [app drop_name]. rewrite Hc. now apply IH.
Qed.

Lemma drop_name_name a :
  no_slash a = true -> drop_name a = [].
Proof.
  unfold no_slash. induction a as [|c a IH]; intros Ha; [reflexivity|].
  cbn [forallb] in Ha. apply andb_true_iff in Ha as [Hc Ha].
  apply negb_true_iff in Hc. cbn [drop_name]. rewrite Hc. now apply IH.
Qed.

Lemma is_empty_rev (a : jsstring) : is_empty (rev a) = is_empty a.
Proof.
  destruct a as [|c a]; [reflexivity|]. cbn [rev].
  destruct (rev a); reflexivity.
Qed.

Lemma last_or_nil {A} (l : list A) :
  l = [] \/ exists init last, l = init ++ [last].
Proof.
  destruct l as [|a l]; [now left|]. right.
  destruct (exists_last (l := a :: l)) as [init [last E]]; [discriminate|].
  eauto.
Qed.

Lemma dirname_render ts :
  Forall (fun x => is_name x = true) ts ->
  dirname (render ts) = render (removelast ts).
Proof.
  intros H. destruct (last_or_nil ts) as [->|[init [last ->]]].
  - reflexivity.
  - rewrite removelast_last.
    apply Forall_app in H as [Hi Hl]. inversion Hl as [|? ? Hlast _]; subst.
    pose proof (is_name_no_slash _ Hlast) as Hns.
    pose proof (is_name_nonempty _ Hlast) as Hne.
    unfold render, sep, dirname. cbn [app]. rewrite Z.eqb_refl.
    destruct init as [|i0 init].
    + cbn [app Js.join].
      rewrite <- (app_nil_r (rev last)).
      rewrite drop_slashes_name by (now rewrite ?no_slash_rev, ?is_empty_rev).
      rewrite app_nil_r, drop_name_name by now rewrite no_slash_rev.
      reflexivity.
    + rewrite join_snoc by discriminate.
      rewrite rev_app_distr. cbn [rev]. rewrite <- app_assoc. cbn [app].
      rewrite drop_slashes_name by (now rewrite ?no_slash_rev, ?is_empty_rev).
      rewrite drop_name_app by now rewrite no_slash_rev.
      pose proof (join_names_nonempty (i0 :: init) Hi ltac:(discriminate)) as Hj.
      rewrite <- is_empty_rev in Hj.
      destruct (rev (Js.join sep (i0 :: init))) as [|r0 r] eqn:E; [discriminate|].
      rewrite <- E, rev_involutive. reflexivity.
Qed.

Lemma last_char_of_name a X :
  no_slash a = true -> is_empty a = false ->
  match rev (X ++ CHAR_FORWARD_SLASH :: a) with
  | c :: _ => c =? CHAR_FORWARD_SLASH
  | [] => false
  end = false.
Proof.
  intros Ha Hne. rewrite rev_app_distr. cbn [rev]. rewrite <- app_assoc.
  rewrite <- no_slash_rev in Ha. rewrite <- is_empty_rev in Hne.
  destruct (rev a) as [|c r]; [discriminate|].
  unfold no_slash in Ha. cbn [forallb] in Ha.
  apply andb_true_iff in Ha as [Hc _]. now apply negb_true_iff in Hc.
Qed.

(** [path.join(cur, part)] for a directory in normal form and a segment
    with no [/] in it, such as a name or [..]. *)
Lemma join_paths_render cs part :
  Forall (fun x => is_name x = true) cs ->
  no_slash part = true -> is_empty part = false ->
  join_paths [render cs; part] = render (below cs part).
Proof.
  intros Hcs Hns Hne. unfold join_paths.
  change (filter_Boolean [render cs; part])
    with (render cs :: if negb (is_empty part) then [part] else []).
  rewrite Hne. cbn [negb].
  change (Js.join sep [render cs; part])
    with (render cs ++ CHAR_FORWARD_SLASH :: part).
  unfold normalize.
  change (render cs ++ CHAR_FORWARD_SLASH :: part)
    with (CHAR_FORWARD_SLASH :: (Js.join sep cs ++ CHAR_FORWARD_SLASH :: part)) at 1.
  cbv iota.
  change (isAbsolute (render cs ++ CHAR_FORWARD_SLASH :: part)) with true.
  rewrite last_char_of_name by assumption.
  unfold normalizeString. cbn [negb].
  change (rev (normalize_segments false []
                 (split CHAR_FORWARD_SLASH (render cs ++ CHAR_FORWARD_SLASH :: part))))
    with (canon (render cs ++ CHAR_FORWARD_SLASH :: part)).
  rewrite canon_render_app by assumption.
  unfold render.
  destruct (Js.join sep (below cs part)); reflexivity.
Qed.

Lemma below_name cs part :
  is_name part = true -> below cs part = cs ++ [part].
Proof.
  intros H. unfold below.
  rewrite split_name by now apply is_name_no_slash.
  rewrite normalize_names by (constructor; [assumption | constructor]).
  cbn [rev app]. rewrite rev_involutive. reflexivity.
Qed.

Lemma below_dotdot cs :
  Forall (fun x => is_name x = true) cs -> below cs dotdot = removelast cs.
Proof.
  intros H. unfold below.
  change (split CHAR_FORWARD_SLASH dotdot) with [dotdot].
  unfold normalize_segments. cbn [fold_left]. unfold normalize_step.
  change (is_empty dotdot || streq dotdot dot) with false.
  change (streq dotdot dotdot) with true.
  cbv iota.
  destruct (last_or_nil cs) as [->|[init [last ->]]]; [reflexivity|].
  rewrite rev_app_distr. cbn [rev app].
  apply Forall_app in H as [_ Hl]. inversion Hl as [|? ? Hlast _]; subst.
  rewrite (is_name_not_dotdot _ Hlast).
  now rewrite rev_involutive, removelast_last.
Qed.

Lemma below_names_app cs l :
  Forall (fun x => is_name x = true) l ->
  below cs (Js.join sep l) = cs ++ l.
Proof.
  intros H. unfold below. destruct l as [|x l].
  - cbn [Js.join split normalize_segments fold_left].
    unfold normalize_step. cbn [is_empty orb].
    now rewrite rev_involutive, app_nil_r.
  - rewrite split_join_names by (assumption || discriminate).
    rewrite normalize_names by assumption.
    now rewrite rev_app_distr, !rev_involutive.
Qed.

End PathFacts.

(* ================================================================== *)
(** * The calls to [fs], read on the tree *)

Section FsFacts.

Import Fs Path WorkspaceFS Walk.

Lemma location_render s ts :
  Forall (fun x => is_name x = true) ts -> location s (render ts) = ts.
Proof.
  intros H. unfold location, cwd.
  rewrite resolve_render by assumption. now apply segments_render.
Qed.

Lemma lstat_render ts s :
  Forall (fun x => is_name x = true) ts ->
  lstat (render ts) s =
  (match locate (tree s) ts with
   | inr n => Return (kind_of n)
   | inl e => Throw (IOError e (str "lstat") (render ts))
   end, note (Lstat (render ts)) s).
Proof.
  intros H. unfold lstat.
  change (tree (note (Lstat (render ts)) s)) with (tree s).
  change (location (note (Lstat (render ts)) s) (render ts))
    with (location s (render ts)).
  rewrite location_render by assumption.
  destruct (locate (tree s) ts); reflexivity.
Qed.

Lemma exists_render ts s :
  Forall (fun x => is_name x = true) ts ->
  exists_ (render ts) s =
  (Return (match locate (tree s) ts with inr _ => true | inl _ => false end),
   note (Lstat (render ts)) s).
Proof.
  intros H. unfold exists_, try_catch, bind. rewrite lstat_render by assumption.
  destruct (locate (tree s) ts); reflexivity.
Qed.

Lemma assertNotLink_render ts s :
  Forall (fun x => is_name x = true) ts ->
  assertNotLinkOrReparse (render ts) s =
  (match locate (tree s) ts with
   | inr (Link _) => Throw (SymlinkNotAllowed (render ts))
   | inr _ => Return tt
   | inl e => Throw (IOError e (str "lstat") (render ts))
   end, note (Lstat (render ts)) s).
Proof.
  intros H. unfold assertNotLinkOrReparse, bind.
  rewrite lstat_render by assumption.
  destruct (locate (tree s) ts) as [e|[c|tg|es]]; reflexivity.
Qed.

Lemma check_parts_scan parts : forall base s,
  Forall (fun x => is_name x = true) base ->
  Forall (fun x => no_slash x = true /\ is_empty x = false) parts ->
  exists s',
    same_disk s s' /\
    check_parts (render base) parts s =
    (match scan (tree s) base parts with
     | Some l => Throw (SymlinkNotAllowed (render l))
     | None => Return tt
     end, s').
Proof.
  induction parts as [|part rest IH]; intros base s Hb Hp.
  - exists s. split; [split; reflexivity | reflexivity].
  - inversion Hp as [|? ? [Hns Hne] Hrest]; subst.
    cbn [check_parts scan]. unfold bind.
    rewrite join_paths_render by assumption.
    pose proof (below_names base part Hb) as Hcur.
    rewrite exists_render by assumption.
    destruct (locate (tree s) (below base part)) as [e|n] eqn:El.
    + cbn [negb]. eexists. split; [|reflexivity]. split; reflexivity.
    + cbn [negb]. rewrite assertNotLink_render by assumption.
      change (tree (note (Lstat (render (below base part))) s)) with (tree s).
      rewrite El.
      destruct n as [c|tg|es].
      * destruct (IH (below base part)
                    (note (Lstat (render (below base part)))
                       (note (Lstat (render (below base part))) s)) Hcur Hrest)
          as [s' [[Ht Hc] E]].
        exists s'. split; [split; assumption | exact E].
      * eexists. split; [|reflexivity]. split; reflexivity.
      * destruct (IH (below base part)
                    (note (Lstat (render (below base part)))
                       (note (Lstat (render (below base part))) s)) Hcur Hrest)
          as [s' [[Ht Hc] E]].
        exists s'. split; [split; assumption | exact E].
Qed.

(** ** The root and the target are normal forms *)

Lemma root_render s ws :
  resolve (cwd s) [ws] = render (root_names s ws) /\
  Forall (fun x => is_name x = true) (root_names s ws).
Proof.
  unfold root_names, cwd. rewrite resolve_canon.
  rewrite segments_render by apply canon_names.
  split; [reflexivity | apply canon_names].
Qed.

Lemma win32_absolute_of_posix u :
  isAbsolute u = true -> win32_isAbsolute u = true.
Proof.
  destruct u as [|c u]; [discriminate|]. cbn [isAbsolute win32_isAbsolute].
  intros H. unfold isPathSeparator. now rewrite H.
Qed.

Lemma target_render s ws u :
  win32_isAbsolute u = false ->
  resolve (cwd s) [resolve (cwd s) [ws]; u] = render (target_names s ws u) /\
  target_names s ws u = below (root_names s ws) u /\
  Forall (fun x => is_name x = true) (target_names s ws u).
Proof.
  intros Hu. destruct (root_render s ws) as [Hr Hn].
  assert (Ha : isAbsolute u = false).
  { destruct (isAbsolute u) eqn:E; [|reflexivity].
    apply win32_absolute_of_posix in E. congruence. }
  unfold target_names. rewrite Hr. unfold cwd.
  rewrite resolve_below by assumption.
  rewrite segments_render by now apply below_names.
  split; [reflexivity|]. split; [reflexivity | now apply below_names].
Qed.

Lemma is_prefix_split rs ts :
  is_prefix rs ts = true -> exists down, ts = rs ++ down.
Proof.
  intros H. destruct (drop_common_prefix rs ts H) as [down [E _]]. eauto.
Qed.

Lemma rejected_none s ws u :
  rejected s ws u = None ->
  (is_empty u || streq (trim u) []) = false /\
  win32_isAbsolute u = false /\
  drive_prefix u = false /\
  (startsWith u (str "\\") || startsWith u (str "//")) = false /\
  (startsWith (relative (cwd s) (resolve (cwd s) [ws])
                 (resolve (cwd s) [resolve (cwd s) [ws]; u])) (str "..")
   || isAbsolute (relative (cwd s) (resolve (cwd s) [ws])
                    (resolve (cwd s) [resolve (cwd s) [ws]; u]))) = false.
Proof.
  unfold rejected.
  destruct (is_empty u || streq (trim u) []); [discriminate|].
  destruct (win32_isAbsolute u); [discriminate|].
  destruct (drive_prefix u); [discriminate|].
  destruct (startsWith u (str "\\") || startsWith u (str "//")); [discriminate|].
  destruct (_ || _); [discriminate|]. auto.
Qed.

(** A path whose spelling is accepted resolves at or below the root. *)
Lemma admitted_inside s ws u :
  rejected s ws u = None ->
  is_prefix (root_names s ws) (target_names s ws u) = true.
Proof.
  intros H. apply rejected_none in H as [_ [Hw [_ [_ Hrel]]]].
  destruct (root_render s ws) as [Hr Hn].
  destruct (target_render s ws u Hw) as [Ht [_ Hnt]].
  rewrite Ht, Hr in Hrel.
  destruct (is_prefix (root_names s ws) (target_names s ws u)) eqn:E; [reflexivity|].
  unfold cwd in Hrel.
  rewrite (relative_outside _ _ _ Hn Hnt E) in Hrel. discriminate.
Qed.

Lemma ensure_rejected ws u m s e :
  rejected s ws u = Some e ->
  ensureInsideWorkspace ws u m s = (Throw e, s).
Proof.
  unfold rejected, ensureInsideWorkspace.
  destruct (is_empty u || streq (trim u) []); [now intros [= <-]|].
  destruct (win32_isAbsolute u); [now intros [= <-]|].
  destruct (drive_prefix u); [now intros [= <-]|].
  destruct (startsWith u (str "\\") || startsWith u (str "//")); [now intros [= <-]|].
  unfold bind, get_cwd.
  destruct (_ || _); [now intros [= <-] | discriminate].
Qed.

Lemma names_removelast (l : list jsstring) :
  Forall (fun x => is_name x = true) l ->
  Forall (fun x => is_name x = true) (removelast l).
Proof.
  intros H. destruct (last_or_nil l) as [->|[init [last ->]]]; [constructor|].
  rewrite removelast_last. now apply Forall_app in H as [H _].
Qed.

Lemma parts_well_formed s :
  Forall (fun x => no_slash x = true /\ is_empty x = false)
    (filter_Boolean (split CHAR_FORWARD_SLASH s)).
Proof.
  apply Forall_forall. intros x Hx. unfold filter_Boolean in Hx.
  apply filter_In in Hx as [Hin Hne]. apply negb_true_iff in Hne.
  split; [|exact Hne].
  pose proof (split_no_slash s) as H. rewrite Forall_forall in H. now apply H.
Qed.

Lemma relative_cwd_irrelevant cb rs ts :
  Forall (fun x => is_name x = true) rs ->
  Forall (fun x => is_name x = true) ts ->
  relative (CHAR_FORWARD_SLASH :: cb) (render rs) (render ts)
  = relative sep (render rs) (render ts).
Proof.
  intros Hrs Hts. unfold sep. now rewrite !relative_render.
Qed.

(** Once the spelling is accepted, the code does what [walk] says. *)
Lemma ensure_walk ws u m s :
  rejected s ws u = None ->
  exists s',
    cwd_below s' = cwd_below s /\
    tree s' = snd (walk (tree s) m (root_names s ws) (target_names s ws u)) /\
    ensureInsideWorkspace ws u m s
    = (fst (walk (tree s) m (root_names s ws) (target_names s ws u)), s').
Proof.
  intros Hrej. pose proof (rejected_none _ _ _ Hrej) as [H1 [H2 [H3 [H4 H5]]]].
  destruct (root_render s ws) as [Hr Hn].
  destruct (target_render s ws u H2) as [Ht [_ Hnt]].
  set (rs := root_names s ws) in *. set (ts := target_names s ws u) in *.
  unfold ensureInsideWorkspace. rewrite H1, H2, H3, H4.
  unfold bind at 1. unfold get_cwd at 1. cbv beta iota.
  rewrite H5. rewrite Ht, Hr.
  assert (Hparts :
    filter_Boolean (split CHAR_FORWARD_SLASH
      (relative (cwd s) (render rs)
         match m with ModeWrite => dirname (render ts) | _ => render ts end))
    = parts_to_check m rs ts).
  { unfold parts_to_check, cwd.
    destruct m; try (now rewrite relative_cwd_irrelevant).
    rewrite dirname_render by assumption.
    now rewrite relative_cwd_irrelevant by (try apply names_removelast; assumption). }
  rewrite Hparts. clear Hparts.
  unfold walk, prepare_root, bind.
  rewrite exists_render by assumption.
  destruct (locate (tree s) rs) as [e|n] eqn:Eroot.
  - (* the root is created *)
    cbn [negb]. unfold mkdir_recursive at 1.
    change (tree (note (Mkdir (render rs)) (note (Lstat (render rs)) s))) with (tree s).
    change (location (note (Mkdir (render rs)) (note (Lstat (render rs)) s)) (render rs))
      with (location s (render rs)).
    rewrite location_render by assumption.
    destruct (mkdirp (tree s) [] (tree s) rs) as [e'|t1] eqn:Emk.
    + eexists. split; [|split; [|reflexivity]]; reflexivity.
    + set (s1 := with_tree t1 (note (Mkdir (render rs)) (note (Lstat (render rs)) s))).
      rewrite assertNotLink_render by assumption.
      change (tree s1) with t1.
      destruct (locate t1 rs) as [e'|[c|tg|es]] eqn:E1; cbn [fst snd].
      * eexists. split; [|split; [|reflexivity]]; reflexivity.
      * destruct (check_parts_scan (parts_to_check m rs ts) rs
                    (note (Lstat (render rs)) s1) Hn (parts_well_formed _))
          as [s' [[Hts' Hcs'] E]].
        rewrite E. change (tree (note (Lstat (render rs)) s1)) with t1.
        exists s'. split; [exact Hcs'|]. split; [exact Hts'|].
        destruct (scan t1 rs (parts_to_check m rs ts)); reflexivity.
      * eexists. split; [|split; [|reflexivity]]; reflexivity.
      * destruct (check_parts_scan (parts_to_check m rs ts) rs
                    (note (Lstat (render rs)) s1) Hn (parts_well_formed _))
          as [s' [[Hts' Hcs'] E]].
        rewrite E. change (tree (note (Lstat (render rs)) s1)) with t1.
        exists s'. split; [exact Hcs'|]. split; [exact Hts'|].
        destruct (scan t1 rs (parts_to_check m rs ts)); reflexivity.
  - (* the root is there *)
    cbn [negb]. unfold ret at 1. cbv beta iota.
    rewrite assertNotLink_render by assumption.
    change (tree (note (Lstat (render rs)) s)) with (tree s). rewrite Eroot.
    destruct n as [c|tg|es]; cbn [fst snd].
    + destruct (check_parts_scan (parts_to_check m rs ts) rs
                  (note (Lstat (render rs)) (note (Lstat (render rs)) s))
                  Hn (parts_well_formed _))
        as [s' [[Hts' Hcs'] E]].
      rewrite E.
      change (tree (note (Lstat (render rs)) (note (Lstat (render rs)) s)))
        with (tree s).
      exists s'. split; [exact Hcs'|]. split; [exact Hts'|].
      destruct (scan (tree s) rs (parts_to_check m rs ts)); reflexivity.
    + eexists. split; [|split; [|reflexivity]]; reflexivity.
    + destruct (check_parts_scan (parts_to_check m rs ts) rs
                  (note (Lstat (render rs)) (note (Lstat (render rs)) s))
                  Hn (parts_well_formed _))
        as [s' [[Hts' Hcs'] E]].
      rewrite E.
      change (tree (note (Lstat (render rs)) (note (Lstat (render rs)) s)))
        with (tree s).
      exists s'. split; [exact Hcs'|]. split; [exact Hts'|].
      destruct (scan (tree s) rs (parts_to_check m rs ts)); reflexivity.
Qed.

End FsFacts.

(* ================================================================== *)
(** * The sandbox: the checks on a path and their order *)

Section Sandbox.

Import Fs Path WorkspaceFS Walk.

Lemma unc_is_win32_absolute u :
  (startsWith u (str "\\") || startsWith u (str "//")) = true ->
  win32_isAbsolute u = true.
Proof.
  destruct u as [|c u]; [discriminate|].
  cbn [str startsWith win32_isAbsolute]. unfold isPathSeparator.
  change (Z.of_N (N_of_ascii "\"%char)) with CHAR_BACKWARD_SLASH.
  change (Z.of_N (N_of_ascii "/"%char)) with CHAR_FORWARD_SLASH.
  intros H. apply orb_true_iff in H as [H|H];
    apply andb_true_iff in H as [H _]; rewrite Z.eqb_sym in H; rewrite H;
    [now rewrite orb_true_r | reflexivity].
Qed.

Lemma rejected_cases s ws u e :
  rejected s ws u = Some e ->
  (e = EmptyPath /\ (is_empty u || streq (trim u) []) = true) \/
  (e = AbsolutePath /\ win32_isAbsolute u = true) \/
  (e = DrivePath /\ drive_prefix u = true) \/
  e = PathEscapesWorkspace.
Proof.
  unfold rejected.
  destruct (is_empty u || streq (trim u) []); [intros [= <-]; auto|].
  destruct (win32_isAbsolute u) eqn:Ew; [intros [= <-]; auto|].
  destruct (drive_prefix u); [intros [= <-]; auto|].
  destruct (startsWith u (str "\\") || startsWith u (str "//")) eqn:Eu.
  - apply unc_is_win32_absolute in Eu. congruence.
  - match goal with
    | |- (if ?b then _ else _) = _ -> _ => destruct b
    end; [|discriminate].
    intros E. injection E as <-. auto.
Qed.

Lemma walk_outcome t m rs ts :
  match fst (walk t m rs ts) with
  | Return p => p = render ts
  | Throw (SymlinkNotAllowed _) | Throw (IOError _ _ _) => True
  | Throw _ => False
  end.
Proof.
  unfold walk. destruct (prepare_root t rs) as [e|t1]; [exact I|]. cbn [fst].
  destruct (locate t1 rs) as [e|[c|tg|es]]; try exact I;
    destruct (scan t1 rs _); auto.
Qed.

(** C4, as amended.  The checks are made in the order of the claim, the
    first that matches decides, and the checks on the spelling and on
    where the path resolves to are made without a call to the file
    system: the state, in which the calls are written down, is as it was.
    The absolute paths of the second check are those of the Windows
    convention, on every host: a leading [/] or [\], or a drive letter, a
    colon and one of the two.  A UNC spelling is such a path, so that it
    is rejected as an absolute path and [UncPath] is never the reason.
    Once the spelling is accepted the outcome is that of the walk: the
    resolved path, [SymlinkNotAllowed], or an error of [fs].  The messages
    of the reasons are pairwise distinct. *)
Theorem checks_in_order :
  forall ws u m s,
    let empty := is_empty u || streq (trim u) [] in
    let unc := startsWith u (str "\\") || startsWith u (str "//") in
    let root := resolve (cwd s) [ws] in
    let rel := relative (cwd s) root (resolve (cwd s) [root; u]) in
    let escapes := startsWith rel (str "..") || isAbsolute rel in
    (empty = true -> ensureInsideWorkspace ws u m s = (Throw EmptyPath, s)) /\
    (empty = false -> win32_isAbsolute u = true ->
       ensureInsideWorkspace ws u m s = (Throw AbsolutePath, s)) /\
    (empty = false -> win32_isAbsolute u = false -> drive_prefix u = true ->
       ensureInsideWorkspace ws u m s = (Throw DrivePath, s)) /\
    (empty = false -> unc = true ->
       ensureInsideWorkspace ws u m s = (Throw AbsolutePath, s)) /\
    fst (ensureInsideWorkspace ws u m s) <> Throw UncPath /\
    (empty = false -> win32_isAbsolute u = false -> drive_prefix u = false ->
       escapes = true ->
       ensureInsideWorkspace ws u m s = (Throw PathEscapesWorkspace, s)) /\
    (empty = false -> win32_isAbsolute u = false -> drive_prefix u = false ->
       escapes = false ->
       fst (ensureInsideWorkspace ws u m s)
       = fst (walk (tree s) m (root_names s ws) (target_names s ws u))) /\
    NoDup (map message
             [EmptyPath; AbsolutePath; DrivePath; UncPath; PathEscapesWorkspace]) /\
    (forall p, ~ In (message (SymlinkNotAllowed p))
                 (map message
                    [EmptyPath; AbsolutePath; DrivePath; UncPath;
                     PathEscapesWorkspace])).
Proof.
  intros ws u m s empty unc root rel escapes.
  assert (Hunc : unc = true -> win32_isAbsolute u = true)
    by apply unc_is_win32_absolute.
  split; [|split; [|split; [|split; [|split; [|split; [|split; [|split]]]]]]].
  - intros He. apply ensure_rejected. unfold rejected. fold empty. now rewrite He.
  - intros He Hw. apply ensure_rejected. unfold rejected. fold empty.
    now rewrite He, Hw.
  - intros He Hw Hd. apply ensure_rejected. unfold rejected. fold empty.
    now rewrite He, Hw, Hd.
  - intros He Hu. apply ensure_rejected. unfold rejected. fold empty.
    now rewrite He, (Hunc Hu).
  - destruct (rejected s ws u) as [e|] eqn:Er.
    + rewrite (ensure_rejected ws u m s e Er). cbn [fst].
      destruct (rejected_cases s ws u e Er) as [[-> _]|[[-> _]|[[-> _]| ->]]];
        discriminate.
    + destruct (ensure_walk ws u m s Er) as [s' [_ [_ E]]]. rewrite E. cbn [fst].
      pose proof (walk_outcome (tree s) m (root_names s ws) (target_names s ws u)) as H.
      intros Hc. rewrite Hc in H. exact H.
  - intros He Hw Hd Hesc. apply ensure_rejected. unfold rejected.
    fold empty unc. rewrite He, Hw, Hd.
    destruct unc; [now rewrite Hunc in Hw|].
    fold root. fold rel. fold escapes. now rewrite Hesc.
  - intros He Hw Hd Hesc.
    assert (Er : rejected s ws u = None).
    { unfold rejected. fold empty unc. rewrite He, Hw, Hd.
      destruct unc; [now rewrite Hunc in Hw|].
      fold root. fold rel. fold escapes. now rewrite Hesc. }
    destruct (ensure_walk ws u m s Er) as [s' [_ [_ E]]]. now rewrite E.
  - vm_compute. repeat constructor; cbn; intuition discriminate.
  - intros p. cbn [map In message].
    change (str "Symlink/junction is not allowed: " ++ p)
      with (83 :: (str "ymlink/junction is not allowed: " ++ p)).
    vm_compute. intuition discriminate.
Qed.

(** Where the two requests that the specification names lead to: one
    level above the root, then down to [outside]. *)
Lemma step_dotdot_pop top stack :
  is_name top = true -> normalize_step false (top :: stack) dotdot = stack.
Proof.
  intros H. unfold normalize_step.
  change (is_empty dotdot || streq dotdot dot) with false.
  change (streq dotdot dotdot) with true. cbv iota.
  now rewrite (is_name_not_dotdot _ H).
Qed.

Lemma below_climbs rs u :
  Forall (fun x => is_name x = true) rs ->
  u = str "../outside" \/ u = str "a/../../outside" ->
  below rs u = removelast rs ++ [str "outside"].
Proof.
  intros H Hu.
  assert (Ho : is_name (str "outside") = true) by reflexivity.
  assert (Ha : is_name (str "a") = true) by reflexivity.
  assert (E : normalize_segments false (rev rs) (split CHAR_FORWARD_SLASH u)
              = normalize_step false (normalize_step false (rev rs) dotdot)
                  (str "outside")).
  { destruct Hu as [-> | ->].
    - reflexivity.
    - change (split CHAR_FORWARD_SLASH (str "a/../../outside"))
        with [str "a"; dotdot; dotdot; str "outside"].
      unfold normalize_segments. cbn [fold_left].
      now rewrite (normalize_step_name false (rev rs) _ Ha), (step_dotdot_pop _ _ Ha). }
  unfold below. rewrite E. rewrite (normalize_step_name _ _ _ Ho).
  destruct (last_or_nil rs) as [->|[init [l ->]]]; [reflexivity|].
  apply Forall_app in H as [_ Hl]. inversion Hl as [|? ? Hlast _]; subst.
  rewrite rev_app_distr. cbn [rev app].
  rewrite (step_dotdot_pop _ _ Hlast). cbn [rev].
  now rewrite rev_involutive, removelast_last.
Qed.

Lemma is_prefix_app_same (a b c : list jsstring) :
  is_prefix (a ++ b) (a ++ c) = is_prefix b c.
Proof.
  induction a as [|x a IH]; [reflexivity|].
  cbn [app is_prefix]. now rewrite streq_refl.
Qed.

Lemma climbs_inside rs :
  is_prefix rs (removelast rs ++ [str "outside"])
  = match rs with
    | [] => true
    | _ => streq (last rs []) (str "outside")
    end.
Proof.
  destruct (last_or_nil rs) as [->|[init [l ->]]]; [reflexivity|].
  rewrite removelast_last, last_last, is_prefix_app_same.
  cbn [is_prefix]. rewrite andb_true_r.
  now destruct init.
Qed.

(** A request that resolves outside of the root is rejected by the check
    on where it resolves to, if by none before it. *)
Lemma outside_rejected s ws u :
  is_prefix (root_names s ws) (target_names s ws u) = false ->
  (is_empty u || streq (trim u) []) = false ->
  win32_isAbsolute u = false ->
  drive_prefix u = false ->
  rejected s ws u = Some PathEscapesWorkspace.
Proof.
  intros Hout He Hw Hd.
  destruct (rejected s ws u) as [e|] eqn:Er.
  - destruct (rejected_cases s ws u e Er) as [[_ H]|[[_ H]|[[_ H]| ->]]];
      congruence.
  - apply admitted_inside in Er. congruence.
Qed.

(** C1, as amended.  A path that [ensureInsideWorkspace] returns is the
    one the request resolves to; the relative path from the root to it
    does not begin with [..] and is not absolute, and it is the root or
    lies below it, segment by segment.  A request that resolves outside
    of the root is rejected, and the state is as it was, by the first of
    the checks that matches, in the order of the code: [EmptyPath],
    [AbsolutePath] (in the Windows convention), [DrivePath], and
    [PathEscapesWorkspace] where none of these three matches.  The
    requests [../outside] and [a/../../outside] match none of the three:
    for a root other than [/] whose last name is not [outside] they are
    rejected with [PathEscapesWorkspace]; for the root [/] and for a root
    whose last name is [outside] they resolve to a path that is the root
    or lies below it, and are no escape. *)
Theorem resolved_paths_stay_inside :
  forall ws u m s,
    let root := resolve (cwd s) [ws] in
    let empty := is_empty u || streq (trim u) [] in
    (forall resolved s',
       ensureInsideWorkspace ws u m s = (Return resolved, s') ->
       resolved = resolve (cwd s) [root; u] /\
       startsWith (relative (cwd s) root resolved) (str "..") = false /\
       isAbsolute (relative (cwd s) root resolved) = false /\
       inside root resolved = true) /\
    (inside root (resolve (cwd s) [root; u]) = false ->
       (empty = true ->
          ensureInsideWorkspace ws u m s = (Throw EmptyPath, s)) /\
       (empty = false -> win32_isAbsolute u = true ->
          ensureInsideWorkspace ws u m s = (Throw AbsolutePath, s)) /\
       (empty = false -> win32_isAbsolute u = false -> drive_prefix u = true ->
          ensureInsideWorkspace ws u m s = (Throw DrivePath, s)) /\
       (empty = false -> win32_isAbsolute u = false -> drive_prefix u = false ->
          ensureInsideWorkspace ws u m s = (Throw PathEscapesWorkspace, s))) /\
    (u = str "../outside" \/ u = str "a/../../outside" ->
       empty = false /\ win32_isAbsolute u = false /\ drive_prefix u = false /\
       (root_names s ws <> [] ->
        last (root_names s ws) [] <> str "outside" ->
        inside root (resolve (cwd s) [root; u]) = false /\
        ensureInsideWorkspace ws u m s = (Throw PathEscapesWorkspace, s)) /\
       (root_names s ws = [] \/ last (root_names s ws) [] = str "outside" ->
        inside root (resolve (cwd s) [root; u]) = true)).
Proof.
  intros ws u m s root empty.
  assert (Hinside : inside root (resolve (cwd s) [root; u])
                    = is_prefix (root_names s ws) (target_names s ws u))
    by reflexivity.
  split; [|split].
  - intros resolved s' E.
    destruct (rejected s ws u) as [e|] eqn:Er.
    { rewrite (ensure_rejected ws u m s e Er) in E. discriminate. }
    destruct (ensure_walk ws u m s Er) as [s1 [_ [_ Ew]]].
    rewrite Ew in E. injection E as Eo _.
    pose proof (walk_outcome (tree s) m (root_names s ws) (target_names s ws u)) as Ho.
    rewrite Eo in Ho.
    pose proof (rejected_none _ _ _ Er) as [_ [Hw [_ [_ Hrel]]]].
    destruct (target_render s ws u Hw) as [Ht _].
    assert (Hres : resolved = resolve (cwd s) [root; u])
      by (unfold root; congruence).
    split; [exact Hres|]. rewrite Hres. fold root in Hrel.
    apply orb_false_iff in Hrel as [Hs Ha].
    split; [exact Hs|]. split; [exact Ha|].
    apply (admitted_inside s ws u Er).
  - intros Hout. rewrite Hinside in Hout.
    split; [|split; [|split]].
    + intros He. apply ensure_rejected. unfold rejected. fold empty. now rewrite He.
    + intros He Hw. apply ensure_rejected. unfold rejected. fold empty.
      now rewrite He, Hw.
    + intros He Hw Hd. apply ensure_rejected. unfold rejected. fold empty.
      now rewrite He, Hw, Hd.
    + intros He Hw Hd. apply ensure_rejected. now apply outside_rejected.
  - intros Hu.
    assert (He : empty = false) by (destruct Hu as [-> | ->]; reflexivity).
    assert (Hw : win32_isAbsolute u = false) by (destruct Hu as [-> | ->]; reflexivity).
    assert (Hd : drive_prefix u = false) by (destruct Hu as [-> | ->]; reflexivity).
    destruct (root_render s ws) as [_ Hn].
    destruct (target_render s ws u Hw) as [_ [Ht _]].
    assert (Hp : is_prefix (root_names s ws) (target_names s ws u)
                 = match root_names s ws with
                   | [] => true
                   | _ => streq (last (root_names s ws) []) (str "outside")
                   end).
    { rewrite Ht, (below_climbs _ _ Hn Hu). apply climbs_inside. }
    split; [exact He|]. split; [exact Hw|]. split; [exact Hd|]. split.
    + intros Hne Hlast. rewrite Hinside.
      assert (Hout : is_prefix (root_names s ws) (target_names s ws u) = false).
      { rewrite Hp. destruct (root_names s ws); [contradiction|].
        now apply streq_neq. }
      split; [exact Hout|].
      apply ensure_rejected. now apply outside_rejected.
    + intros H. rewrite Hinside, Hp. destruct H as [-> |H]; [reflexivity|].
      destruct (root_names s ws); [reflexivity|]. rewrite H. apply streq_refl.
Qed.

End Sandbox.

Lemma checks_in_order_witness :
  WorkspaceFS.ensureInsideWorkspace Sample.workspaceRoot (str "C:foo")
    WorkspaceFS.ModeRead Sample.disk
  = (Throw DrivePath, Sample.disk).
Proof.
  apply (proj1 (proj2 (proj2
           (checks_in_order Sample.workspaceRoot (str "C:foo")
              WorkspaceFS.ModeRead Sample.disk))));
    reflexivity.
Defined.

(** C4, as stated, fails on a POSIX host for a path that begins with a
    backslash.  [\foo] is not absolute there, has no drive or UNC prefix
    and stays below the root, so that no check of the claim's list
    matches its spelling, and nothing on the sample disk is a link on its
    way: the code rejects it as an absolute path.  [\\server\share] is not
    absolute there either: the claim's list gives [UncPath], the code
    [AbsolutePath]. *)
Lemma backslash_paths_rejected_as_absolute :
  Path.isAbsolute (str "\foo") = false /\
  Spec.claimed_rejection Sample.disk Sample.workspaceRoot (str "\foo") = None /\
  fst (Walk.walk (Fs.tree Sample.disk) WorkspaceFS.ModeRead
         (Walk.root_names Sample.disk Sample.workspaceRoot)
         (Walk.target_names Sample.disk Sample.workspaceRoot (str "\foo")))
  = Return (str "/srv/data/workspace/\foo") /\
  WorkspaceFS.ensureInsideWorkspace Sample.workspaceRoot (str "\foo")
    WorkspaceFS.ModeRead Sample.disk
  = (Throw AbsolutePath, Sample.disk) /\
  Spec.claimed_rejection Sample.disk Sample.workspaceRoot (str "\\server\share")
  = Some UncPath /\
  WorkspaceFS.ensureInsideWorkspace Sample.workspaceRoot (str "\\server\share")
    WorkspaceFS.ModeRead Sample.disk
  = (Throw AbsolutePath, Sample.disk).
Proof. vm_compute. repeat split. Qed.

Lemma resolved_paths_stay_inside_witness :
  WorkspaceFS.ensureInsideWorkspace Sample.workspaceRoot (str "a/../../outside")
    WorkspaceFS.ModeRead Sample.disk
  = (Throw PathEscapesWorkspace, Sample.disk).
Proof.
  apply (proj1 (proj2 (proj2 (proj2
           (proj2 (proj2 (resolved_paths_stay_inside Sample.workspaceRoot
                            (str "a/../../outside") WorkspaceFS.ModeRead
                            Sample.disk))
              (or_intror eq_refl)))))).
  - vm_compute. discriminate.
  - vm_compute. discriminate.
Defined.

(** The two requests that the specification names are rejected for
    escaping the sample workspace, in every mode. *)
Lemma escapes_of_the_specification :
  forall m,
    WorkspaceFS.ensureInsideWorkspace Sample.workspaceRoot (str "../outside")
      m Sample.disk = (Throw PathEscapesWorkspace, Sample.disk) /\
    WorkspaceFS.ensureInsideWorkspace Sample.workspaceRoot (str "a/../../outside")
      m Sample.disk = (Throw PathEscapesWorkspace, Sample.disk).
Proof. intros m. split; apply ensure_rejected; reflexivity. Qed.

(** C1, as stated, fails on a request with a parent segment that resolves
    outside of the root and is spelled as an absolute path: it is
    rejected as an absolute path, not for escaping the workspace. *)
Lemma absolute_escape_rejected_as_absolute :
  Path.has_parent_segment (str "/../outside") = true /\
  Path.resolve (Fs.cwd Sample.disk)
    [Path.resolve (Fs.cwd Sample.disk) [Sample.workspaceRoot]; str "/../outside"]
  = str "/outside" /\
  Path.inside (Path.resolve (Fs.cwd Sample.disk) [Sample.workspaceRoot])
    (str "/outside") = false /\
  forall m,
    WorkspaceFS.ensureInsideWorkspace Sample.workspaceRoot (str "/../outside")
      m Sample.disk = (Throw AbsolutePath, Sample.disk).
Proof.
  split; [reflexivity|]. split; [reflexivity|]. split; [reflexivity|].
  intros m. apply ensure_rejected. reflexivity.
Qed.

(* ================================================================== *)
(** * Locating, putting and creating in the tree *)

Section TreeFacts.

Import Fs Path.

Lemma locate_app t p q :
  locate t (p ++ q) =
  match locate t p with
  | inr n => locate n q
  | inl e => inl e
  end.
Proof.
  revert t. induction p as [|x p IH]; intros t; [reflexivity|].
  cbn [app locate]. destruct t as [c|tg|es]; try reflexivity.
  destruct (assoc x es); [apply IH | reflexivity].
Qed.

Lemma locate_through t p x q n :
  locate t (p ++ x :: q) = inr n -> exists es, locate t p = inr (Dir es).
Proof.
  rewrite locate_app. destruct (locate t p) as [e|[c|tg|es]]; try discriminate.
  eauto.
Qed.

Lemma assoc_set_same k v es : assoc k (set k v es) = Some v.
Proof.
  induction es as [|[k' v'] es IH]; cbn [set assoc].
  - now rewrite streq_refl.
  - destruct (streq k k') eqn:E; cbn [assoc]; rewrite E; [reflexivity | exact IH].
Qed.

Lemma assoc_set_other k k' v es :
  streq k' k = false -> assoc k' (set k v es) = assoc k' es.
Proof.
  intros Hk. induction es as [|[k0 v0] es IH]; cbn [set assoc].
  - now rewrite Hk.
  - destruct (streq k k0) eqn:E; cbn [assoc].
    + apply streq_eq in E. subst k0. now rewrite Hk.
    + now rewrite IH.
Qed.

Lemma put_locate_same p : forall t n t',
  put t p n = inr t' -> locate t' p = inr n.
Proof.
  induction p as [|x p IH]; intros t n t' H.
  - cbn in H. injection H as <-. reflexivity.
  - cbn [put] in H. destruct t as [c|tg|es]; try discriminate.
    destruct p as [|y p].
    + injection H as <-. cbn [locate]. now rewrite assoc_set_same.
    + destruct (assoc x es) as [c|]; [|discriminate].
      destruct (put c (y :: p) n) as [e|c'] eqn:Ep; [discriminate|].
      injection H as <-. cbn [locate]. rewrite assoc_set_same.
      now apply (IH c).
Qed.

Lemma put_locate_prefix p : forall t n t' q x r,
  put t p n = inr t' -> p = q ++ x :: r ->
  exists es, locate t' q = inr (Dir es).
Proof.
  induction p as [|y p IH]; intros t n t' q x r H E.
  - destruct q; discriminate.
  - cbn [put] in H. destruct t as [c|tg|es]; try discriminate.
    destruct q as [|z q].
    + destruct p as [|y' p].
      * injection H as <-. cbn [locate]. eauto.
      * destruct (assoc y es) as [c|]; [|discriminate].
        destruct (put c (y' :: p) n) as [e|c'] eqn:Ep; [discriminate|].
        injection H as <-. cbn [locate]. eauto.
    + cbn [app] in E. injection E as -> ->.
      destruct (q ++ x :: r) as [|y' p'] eqn:Eq; [destruct q; discriminate|].
      destruct (assoc z es) as [c|]; [|discriminate].
      destruct (put c (y' :: p') n) as [e|c'] eqn:Ep; [discriminate|].
      injection H as <-. cbn [locate]. rewrite assoc_set_same.
      apply (IH c n c' q x r Ep). now rewrite Eq.
Qed.

Lemma is_prefix_length a b : is_prefix a b = true -> (length a <= length b)%nat.
Proof.
  revert b. induction a as [|x a IH]; intros b H; [cbn; lia|].
  destruct b as [|y b]; [discriminate|]. cbn [is_prefix] in H.
  apply andb_true_iff in H as [_ H]. apply IH in H. cbn [length]. lia.
Qed.

(** [mkdir -p] changes nothing at a location that is not on its way. *)
Lemma mkdirp_elsewhere p : forall g here t t' q,
  mkdirp g here t p = inr t' ->
  is_prefix q p = false ->
  locate t' q = locate t q.
Proof.
  induction p as [|x p IH]; intros g here t t' q H Hq.
  - cbn [mkdirp] in H.
    destruct t as [c|tg|es]; try discriminate.
    + destruct (is_dir_at g here); [|discriminate]. now injection H as <-.
    + now injection H as <-.
  - cbn [mkdirp] in H. destruct t as [c|tg|es]; try discriminate.
    destruct (mkdirp g (here ++ [x])
                match assoc x es with Some c => c | None => Dir [] end p)
      as [e|c'] eqn:Em; [discriminate|].
    injection H as <-.
    destruct q as [|y q]; [discriminate|].
    cbn [is_prefix] in Hq. cbn [locate].
    destruct (streq y x) eqn:Eyx.
    + apply streq_eq in Eyx. subst y. cbn [andb] in Hq.
      rewrite assoc_set_same.
      rewrite (IH _ _ _ _ q Em Hq).
      destruct (assoc x es) as [c|]; [reflexivity|].
      destruct q as [|z q]; [discriminate|]. reflexivity.
    + now rewrite assoc_set_other.
Qed.

End TreeFacts.

(* ================================================================== *)
(** * Links on the way to the target *)

Section Links.

Import Fs Path WorkspaceFS Walk.

Lemma parts_to_check_target m rs down :
  m <> ModeWrite ->
  Forall (fun x => is_name x = true) rs ->
  Forall (fun x => is_name x = true) down ->
  parts_to_check m rs (rs ++ down) = down.
Proof.
  intros Hm Hrs Hd. unfold parts_to_check, sep.
  destruct m; try contradiction; now apply parts_inside.
Qed.

Lemma parts_to_check_parent rs down :
  down <> [] ->
  Forall (fun x => is_name x = true) rs ->
  Forall (fun x => is_name x = true) down ->
  parts_to_check ModeWrite rs (rs ++ down) = removelast down.
Proof.
  intros Hne Hrs Hd. unfold parts_to_check.
  rewrite dirname_render by (apply Forall_app; auto).
  rewrite removelast_app by assumption. unfold sep.
  apply parts_inside; [assumption | now apply names_removelast].
Qed.

Lemma scan_finds_link t pre : forall base rest tgt,
  Forall (fun x => is_name x = true) (pre ++ rest) ->
  pre <> [] ->
  locate t (base ++ pre) = inr (Link tgt) ->
  scan t base (pre ++ rest) = Some (base ++ pre).
Proof.
  induction pre as [|x pre IH]; intros base rest tgt Hn Hne Hl; [contradiction|].
  inversion Hn as [|? ? Hx Hn']; subst.
  cbn [app scan]. rewrite below_name by assumption.
  destruct pre as [|y pre].
  - now rewrite Hl.
  - destruct (locate_through t (base ++ [x]) y pre (Link tgt)) as [es Hes].
    { now rewrite <- app_assoc. }
    rewrite Hes.
    rewrite (IH (base ++ [x]) rest tgt Hn' ltac:(discriminate)).
    + now rewrite <- app_assoc.
    + now rewrite <- app_assoc.
Qed.

(** The walk passes where no component on the way is a link. *)
Lemma scan_clear t parts : forall base,
  Forall (fun x => is_name x = true) parts ->
  (forall pre rest tgt, parts = pre ++ rest -> pre <> [] ->
     locate t (base ++ pre) <> inr (Link tgt)) ->
  scan t base parts = None.
Proof.
  induction parts as [|x parts IH]; intros base Hn Hc; [reflexivity|].
  inversion Hn as [|? ? Hx Hn']; subst.
  cbn [scan]. rewrite below_name by assumption.
  destruct (locate t (base ++ [x])) as [e|[c|tg|es]] eqn:El; try reflexivity.
  - apply IH; [assumption|]. intros pre rest tgt E Hne.
    rewrite <- app_assoc. apply (Hc (x :: pre) rest tgt); [now rewrite E | discriminate].
  - exfalso. apply (Hc [x] parts tg); [reflexivity | discriminate | exact El].
  - apply IH; [assumption|]. intros pre rest tgt E Hne.
    rewrite <- app_assoc. apply (Hc (x :: pre) rest tgt); [now rewrite E | discriminate].
Qed.

Lemma removelast_shorter {A} (l : list A) :
  (length (removelast l) <= length l)%nat.
Proof.
  induction l as [|a [|b r] IH]; cbn [removelast length] in *; lia.
Qed.

(** The parts checked for a target at or below the root, when a location
    [rs ++ pre] with [pre] not empty is on the way to the checked target. *)
Lemma parts_on_the_way m rs down pre rest :
  Forall (fun x => is_name x = true) rs ->
  Forall (fun x => is_name x = true) down ->
  pre <> [] ->
  match m with
  | ModeWrite => removelast (rs ++ down)
  | _ => rs ++ down
  end = (rs ++ pre) ++ rest ->
  parts_to_check m rs (rs ++ down) = pre ++ rest /\
  Forall (fun x => is_name x = true) (pre ++ rest).
Proof.
  intros Hrs Hd Hne E. rewrite <- app_assoc in E.
  assert (Hother : m <> ModeWrite -> rs ++ down = rs ++ pre ++ rest ->
            parts_to_check m rs (rs ++ down) = pre ++ rest /\
            Forall (fun x => is_name x = true) (pre ++ rest)).
  { intros Hm E'. apply app_inv_head in E'. subst down.
    split; [now apply parts_to_check_target | assumption]. }
  destruct m; try (apply Hother; [discriminate | exact E]).
  destruct down as [|d down].
  - rewrite app_nil_r in E. apply (f_equal (@length jsstring)) in E.
    rewrite !length_app in E. pose proof (removelast_shorter rs).
    destruct pre; [contradiction|]. cbn [length] in E. lia.
  - rewrite removelast_app in E by discriminate. apply app_inv_head in E.
    rewrite parts_to_check_parent by (assumption || discriminate).
    rewrite E. split; [reflexivity|]. rewrite <- E. now apply names_removelast.
Qed.

(** C2, as amended.  For a request whose spelling is accepted: if the
    root, or a component between the root and the checked target, is a
    symbolic link, the request is refused with [SymlinkNotAllowed] in
    every mode.  The checked target is the path itself for read, list and
    delete, and its parent directory for write: a write to a path that is
    itself a link is not refused by this check. *)
Theorem links_on_the_way_are_refused :
  forall ws u m s l tgt,
    rejected s ws u = None ->
    locate (tree s) l = inr (Link tgt) ->
    is_prefix (root_names s ws) l = true ->
    is_prefix l
      (match m with
       | ModeWrite => removelast (target_names s ws u)
       | _ => target_names s ws u
       end) = true \/ l = root_names s ws ->
    fst (ensureInsideWorkspace ws u m s) = Throw (SymlinkNotAllowed (render l)).
Proof.
  intros ws u m s l tgt Hrej Hl Hrl Hlt.
  destruct (ensure_walk ws u m s Hrej) as [s' [_ [_ E]]]. rewrite E. cbn [fst].
  pose proof (admitted_inside s ws u Hrej) as Hin.
  pose proof (rejected_none _ _ _ Hrej) as [_ [Hw _]].
  destruct (root_render s ws) as [_ Hnr].
  destruct (target_render s ws u Hw) as [_ [_ Hnt]].
  set (rs := root_names s ws) in *. set (ts := target_names s ws u) in *.
  destruct (is_prefix_split rs l Hrl) as [pre ->].
  destruct (is_prefix_split rs ts Hin) as [down Ets].
  destruct pre as [|x pre].
  - (* the root itself *)
    rewrite app_nil_r in Hl. unfold walk, prepare_root. rewrite Hl. cbn [fst].
    rewrite Hl. now rewrite app_nil_r.
  - destruct Hlt as [Hlt| Hlt];
      [|apply (f_equal (@length jsstring)) in Hlt;
        rewrite length_app in Hlt; cbn [length] in Hlt; lia].
    destruct (locate_through (tree s) rs x pre (Link tgt) Hl) as [es Hes].
    unfold walk, prepare_root. rewrite Hes. cbn [fst]. rewrite Hes.
    destruct (is_prefix_split _ _ Hlt) as [rest Erest].
    rewrite Ets in *. apply Forall_app in Hnt as [_ Hnd].
    destruct (parts_on_the_way m rs down (x :: pre) rest Hnr Hnd
                ltac:(discriminate)) as [Hparts Hnp].
    { destruct m; exact Erest. }
    rewrite Hparts.
    now rewrite (scan_finds_link (tree s) (x :: pre) rs rest tgt Hnp
                   ltac:(discriminate) Hl).
Qed.

End Links.

Lemma links_on_the_way_are_refused_witness :
  fst (WorkspaceFS.ensureInsideWorkspace Sample.workspaceRoot (str "link.txt")
         WorkspaceFS.ModeRead Sample.disk)
  = Throw (SymlinkNotAllowed (str "/srv/data/workspace/link.txt")).
Proof.
  apply (links_on_the_way_are_refused Sample.workspaceRoot (str "link.txt")
           WorkspaceFS.ModeRead Sample.disk
           [str "srv"; str "data"; str "workspace"; str "link.txt"]
           [str "etc"; str "passwd"]).
  - reflexivity.
  - reflexivity.
  - reflexivity.
  - left. reflexivity.
Defined.

(** C2, as stated, fails for the mode write on a path that is itself a
    link: the path is resolved, and the write goes through the link to
    the file it names outside of the workspace.  The other modes refuse
    the same path. *)
Lemma write_to_a_link_is_not_refused :
  Fs.locate (Fs.tree Sample.disk)
    [str "srv"; str "data"; str "workspace"; str "link.txt"]
  = inr (Fs.Link [str "etc"; str "passwd"]) /\
  fst (WorkspaceFS.ensureInsideWorkspace Sample.workspaceRoot (str "link.txt")
         WorkspaceFS.ModeWrite Sample.disk)
  = Return (str "/srv/data/workspace/link.txt") /\
  fst (FileTools.write Sample.workspaceRoot (str "link.txt") (str "pwned") Sample.disk)
  = Return (FileTools.ok (FileTools.Text (str "written"))) /\
  Fs.locate
    (Fs.tree (snd (FileTools.write Sample.workspaceRoot (str "link.txt")
                     (str "pwned") Sample.disk)))
    [str "etc"; str "passwd"]
  = inr (Fs.File (Utf8.encode (str "pwned"))) /\
  (forall m, m <> WorkspaceFS.ModeWrite ->
     fst (WorkspaceFS.ensureInsideWorkspace Sample.workspaceRoot (str "link.txt")
            m Sample.disk)
     = Throw (SymlinkNotAllowed (str "/srv/data/workspace/link.txt"))).
Proof.
  split; [reflexivity|]. split; [vm_compute; reflexivity|].
  split; [vm_compute; reflexivity|]. split; [vm_compute; reflexivity|].
  intros [] H; try contradiction; vm_compute; reflexivity.
Qed.

(* ================================================================== *)
(** * The empty path at the gateway *)

Section Gateway.

Import Fs Path WorkspaceFS Walk.

Lemma below_dot rs :
  Forall (fun x => is_name x = true) rs -> below rs (str ".") = rs.
Proof.
  intros H. unfold below.
  change (split CHAR_FORWARD_SLASH (str ".")) with [dot].
  unfold normalize_segments. cbn [fold_left]. unfold normalize_step.
  change (is_empty dot || streq dot dot) with true. cbv iota.
  apply rev_involutive.
Qed.

Lemma relative_self cb p : relative cb p p = [].
Proof. unfold relative. now rewrite streq_refl. Qed.

Lemma dot_admitted s ws :
  rejected s ws (str ".") = None /\
  target_names s ws (str ".") = root_names s ws.
Proof.
  destruct (root_render s ws) as [Hr Hn].
  destruct (target_render s ws (str ".") eq_refl) as [Ht [Hb _]].
  rewrite below_dot in Hb by assumption.
  split; [|exact Hb].
  unfold rejected. rewrite Ht, Hb, <- Hr. rewrite relative_self. reflexivity.
Qed.

Lemma follow_not_link hops t p :
  (forall tg, locate t p <> inr (Link tg)) -> follow hops t p = inr p.
Proof.
  intros H. destruct hops; cbn [follow];
    destruct (locate t p) as [e|[c|tg|es]]; try reflexivity;
    now destruct (H tg).
Qed.

Lemma empty_path_rejected s ws u :
  (is_empty u || streq (trim u) []) = true ->
  rejected s ws u = Some EmptyPath.
Proof. intros H. unfold rejected. now rewrite H. Qed.

(** C9.  At the file tools, [list] with the empty string is [list] with
    ["."]: where the workspace root is a directory it returns the listing
    of the root, and leaves the tree as it is.  [list] with a path of
    white space only, and [read], [write] and [delete] with an empty path
    or one of white space only, return [{ ok: false, error: "Empty path" }]
    and make no call to the file system. *)
Theorem empty_path_at_the_file_tools :
  forall ws s,
    FileTools.list ws [] s = FileTools.list ws (str ".") s /\
    (forall es,
       locate (tree s) (root_names s ws) = inr (Dir es) ->
       fst (FileTools.list ws [] s)
       = Return (FileTools.ok (FileTools.Entries (map listed es))) /\
       tree (snd (FileTools.list ws [] s)) = tree s) /\
    (forall u,
       is_empty u = false -> streq (trim u) [] = true ->
       FileTools.list ws u s = (Return (FileTools.error (str "Empty path")), s)) /\
    (forall u,
       (is_empty u || streq (trim u) []) = true ->
       (forall n, FileTools.read ws u n s
                  = (Return (FileTools.error (str "Empty path")), s)) /\
       (forall c, FileTools.write ws u c s
                  = (Return (FileTools.error (str "Empty path")), s)) /\
       FileTools.delete ws u s
       = (Return (FileTools.error (str "Empty path")), s)).
Proof.
  intros ws s. split; [reflexivity|]. split; [|split].
  - intros es Hroot.
    destruct (dot_admitted s ws) as [Hrej Ht].
    destruct (ensure_walk ws (str ".") ModeList s Hrej) as [s' [Hc [Hts E]]].
    destruct (root_render s ws) as [_ Hn].
    rewrite Ht in *. set (rs := root_names s ws) in *.
    assert (Hw : walk (tree s) ModeList rs rs = (Return (render rs), tree s)).
    { pose proof (parts_to_check_target ModeList rs [] ltac:(discriminate) Hn
                    (Forall_nil _)) as Hp.
      rewrite app_nil_r in Hp.
      unfold walk, prepare_root. rewrite Hroot. rewrite Hroot, Hp. reflexivity. }
    rewrite Hw in *. cbn [fst snd] in *.
    unfold FileTools.list, FileTools.guarded, listDir, try_catch, bind.
    cbn [is_empty]. rewrite E.
    unfold readdir.
    change (tree (note (Readdir (render rs)) s')) with (tree s').
    change (location (note (Readdir (render rs)) s') (render rs))
      with (location s' (render rs)).
    rewrite location_render by assumption. rewrite Hts.
    rewrite follow_not_link by (intros tg; rewrite Hroot; discriminate).
    rewrite Hroot. unfold ret. cbn [fst snd tree note].
    split; [|exact Hts].
    do 3 f_equal. rewrite map_map. apply map_ext.
    intros [name [c|tg|es']]; reflexivity.
  - intros u Hne Hws.
    assert (Hrej : rejected s ws u = Some EmptyPath)
      by (apply empty_path_rejected; now rewrite Hws, orb_true_r).
    unfold FileTools.list, FileTools.guarded, listDir, try_catch, bind.
    rewrite Hne. now rewrite (ensure_rejected ws u ModeList s _ Hrej).
  - intros u Hu. pose proof (empty_path_rejected s ws u Hu) as Hrej.
    split; [|split].
    + intros n. unfold FileTools.read, FileTools.guarded, readText, try_catch, bind.
      now rewrite (ensure_rejected ws u ModeRead s _ Hrej).
    + intros c. unfold FileTools.write, FileTools.guarded, writeText, try_catch, bind.
      now rewrite (ensure_rejected ws u ModeWrite s _ Hrej).
    + unfold FileTools.delete, FileTools.guarded, remove, try_catch, bind.
      now rewrite (ensure_rejected ws u ModeDelete s _ Hrej).
Qed.

End Gateway.

Lemma empty_path_at_the_file_tools_witness :
  fst (FileTools.list Sample.workspaceRoot [] Sample.disk)
  = Return (FileTools.ok (FileTools.Entries
              [str "notes.txt"; str "sub/"; str "link.txt"])) /\
  FileTools.list Sample.workspaceRoot (str "   ") Sample.disk
  = (Return (FileTools.error (str "Empty path")), Sample.disk).
Proof.
  split.
  - apply (proj1 (proj2 (empty_path_at_the_file_tools Sample.workspaceRoot Sample.disk))
             [(str "notes.txt", Fs.File (Utf8.encode (str "hello")));
              (str "sub", Fs.Dir [(str "b.txt", Fs.File (Utf8.encode (str "b")))]);
              (str "link.txt", Fs.Link [str "etc"; str "passwd"])]).
    reflexivity.
  - apply (proj1 (proj2 (proj2
             (empty_path_at_the_file_tools Sample.workspaceRoot Sample.disk)))
             (str "   ")); reflexivity.
Defined.


(* ================================================================== *)
(** * UTF-8: decoding what was encoded *)

Section Utf8Facts.

Import Utf8.

Ltac arith := Z.div_mod_to_equations; lia.

Ltac test_true t :=
  replace t with true
    by (symmetry;
        first [apply Z.leb_le | apply Z.ltb_lt | apply Z.eqb_eq]; arith).

Ltac test_false t :=
  replace t with false
    by (symmetry;
        first [apply Z.leb_gt | apply Z.ltb_ge | apply Z.eqb_neq]; arith).

Ltac settle :=
  repeat match goal with
  | |- context [?a <=? ?b] => first [test_true (a <=? b) | test_false (a <=? b)]
  | |- context [?a <? ?b] => first [test_true (a <? b) | test_false (a <? b)]
  | |- context [?a =? ?b] => first [test_true (a =? b) | test_false (a =? b)]
  end; cbn [andb orb negb].

Lemma decode_one_byte cp rest :
  0 <= cp < 128 ->
  decode_from None (encode_cp cp ++ rest) = units cp ++ decode_from None rest.
Proof.
  intros H. unfold encode_cp, units. settle.
  cbn [app decode_from]. unfold lead. settle. reflexivity.
Qed.

Lemma decode_two_bytes cp rest :
  128 <= cp < 2048 ->
  decode_from None (encode_cp cp ++ rest) = units cp ++ decode_from None rest.
Proof.
  intros H. unfold encode_cp, units. settle.
  cbn [app decode_from]. unfold lead. settle.
  cbn [app decode_from lower upper acc needed]. settle.
  replace ((192 + cp / 64 - 192) * 64 + (128 + cp mod 64 - 128)) with cp by arith.
  unfold units. settle. reflexivity.
Qed.

Lemma decode_three_bytes cp rest :
  2048 <= cp < 65536 -> ~ (55296 <= cp <= 57343) ->
  decode_from None (encode_cp cp ++ rest) = units cp ++ decode_from None rest.
Proof.
  intros H Hs. unfold encode_cp, units. settle.
  cbn [app decode_from]. unfold lead. settle.
  cbn [app decode_from lower upper acc needed].
  destruct (Z.eqb_spec (224 + cp / 4096) 224) as [E0|E0];
    destruct (Z.eqb_spec (224 + cp / 4096) 237) as [E1|E1]; try lia; settle;
    cbn [app decode_from lower upper acc needed]; settle;
    replace (((224 + cp / 4096 - 224) * 64 + (128 + cp / 64 mod 64 - 128)) * 64
             + (128 + cp mod 64 - 128)) with cp by arith;
    unfold units; settle; reflexivity.
Qed.

Lemma decode_four_bytes cp rest :
  65536 <= cp < 1114112 ->
  decode_from None (encode_cp cp ++ rest) = units cp ++ decode_from None rest.
Proof.
  intros H. unfold encode_cp. settle.
  cbn [app decode_from]. unfold lead. settle.
  cbn [app decode_from lower upper acc needed].
  destruct (Z.eqb_spec (240 + cp / 262144) 240) as [E0|E0];
    destruct (Z.eqb_spec (240 + cp / 262144) 244) as [E1|E1]; try lia; settle;
    cbn [app decode_from lower upper acc needed]; settle;
    cbn [app decode_from lower upper acc needed]; settle;
    replace ((((240 + cp / 262144 - 240) * 64 + (128 + cp / 4096 mod 64 - 128)) * 64
              + (128 + cp / 64 mod 64 - 128)) * 64 + (128 + cp mod 64 - 128))
      with cp by arith;
    reflexivity.
Qed.

Lemma decode_scalar cp rest :
  0 <= cp < 1114112 -> ~ (55296 <= cp <= 57343) ->
  decode_from None (encode_cp cp ++ rest) = units cp ++ decode_from None rest.
Proof.
  intros H Hs.
  destruct (Z.lt_ge_cases cp 128); [now apply decode_one_byte|].
  destruct (Z.lt_ge_cases cp 2048); [apply decode_two_bytes; lia|].
  destruct (Z.lt_ge_cases cp 65536); [apply decode_three_bytes; lia|].
  apply decode_four_bytes; lia.
Qed.

Lemma surrogates_spec c :
  (is_high c = true <-> 55296 <= c <= 56319) /\
  (is_low c = true <-> 56320 <= c <= 57343).
Proof.
  unfold is_high, is_low. rewrite !andb_true_iff, !Z.leb_le. tauto.
Qed.

Lemma units_of_pair c d :
  is_high c = true -> is_low d = true ->
  65536 <= 65536 + (c - 55296) * 1024 + (d - 56320) < 1114112 /\
  units (65536 + (c - 55296) * 1024 + (d - 56320)) = [c; d].
Proof.
  intros Hc Hd. apply surrogates_spec in Hc. apply surrogates_spec in Hd.
  split; [lia|]. unfold units. settle.
  f_equal; [|f_equal]; arith.
Qed.

Lemma units_of_unit c : 0 <= c < 65536 -> units c = [c].
Proof. intros H. unfold units. settle. reflexivity. Qed.

Lemma decode_encode_bounded n : forall s,
  (length s <= n)%nat ->
  Forall (fun c => is_unit c = true) s ->
  isWellFormed s = true ->
  decode (encode s) = s.
Proof.
  unfold decode. induction n as [|n IH]; intros s Hlen Hu Hwf.
  - destruct s; [reflexivity | cbn in Hlen; lia].
  - destruct s as [|c s]; [reflexivity|].
    inversion Hu as [|? ? Hc Hu']; subst.
    unfold is_unit in Hc. apply andb_true_iff in Hc as [Hc0 Hc1].
    apply Z.leb_le in Hc0. apply Z.ltb_lt in Hc1.
    cbn [encode isWellFormed] in *.
    destruct (is_high c) eqn:Eh.
    + destruct s as [|d s]; [discriminate|].
      apply andb_true_iff in Hwf as [Hd Hwf]. rewrite Hd.
      inversion Hu' as [|? ? _ Hu'']; subst.
      destruct (units_of_pair c d Eh Hd) as [Hr Hup].
      rewrite decode_scalar by lia. rewrite Hup. cbn [app].
      rewrite IH; [reflexivity | cbn [length] in Hlen; lia | assumption | assumption].
    + apply andb_true_iff in Hwf as [Hl Hwf]. apply negb_true_iff in Hl.
      rewrite Hl.
      assert (Hns : ~ (55296 <= c <= 57343)).
      { intros Hr.
        destruct (Z.le_gt_cases c 56319).
        - assert (is_high c = true) by (apply surrogates_spec; lia). congruence.
        - assert (is_low c = true) by (apply surrogates_spec; lia). congruence. }
      rewrite decode_scalar by lia. rewrite units_of_unit by lia. cbn [app].
      rewrite IH; [reflexivity | cbn [length] in Hlen; lia | assumption | assumption].
Qed.

(** What is written is read back: for a string of code units without a
    lone surrogate, decoding its UTF-8 bytes gives the string. *)
Lemma decode_encode s :
  Forall (fun c => is_unit c = true) s ->
  isWellFormed s = true ->
  decode (encode s) = s.
Proof. apply (decode_encode_bounded (length s)). lia. Qed.

End Utf8Facts.

(* ================================================================== *)
(** * Writing, then reading *)

Section RoundTrip.

Import Fs Path WorkspaceFS Walk.

Lemma bind_returns {S A B} (m : M S A) (k : A -> M S B) s b s2 :
  bind m k s = (Return b, s2) ->
  exists a s1, m s = (Return a, s1) /\ k a s1 = (Return b, s2).
Proof.
  unfold bind. destruct (m s) as [[a|e] s1]; [eauto | discriminate].
Qed.

Lemma bind_run {S A B} (m : M S A) (k : A -> M S B) s a s1 :
  m s = (Return a, s1) -> bind m k s = k a s1.
Proof. intros H. unfold bind. now rewrite H. Qed.

(** [mkdir -p] makes directories only: a link of the tree it leaves was
    there before. *)
Lemma mkdirp_no_new_link p : forall g here t t' q tg,
  mkdirp g here t p = inr t' ->
  locate t' q = inr (Link tg) -> locate t q = inr (Link tg).
Proof.
  induction p as [|x p IH]; intros g here t t' q tg H Hq.
  - cbn [mkdirp] in H. destruct t as [c|tg'|es]; try discriminate.
    + destruct (is_dir_at g here); [|discriminate]. injection H as <-. exact Hq.
    + injection H as <-. exact Hq.
  - cbn [mkdirp] in H. destruct t as [c|tg'|es]; try discriminate.
    destruct (mkdirp g (here ++ [x])
                match assoc x es with Some c => c | None => Dir [] end p)
      as [e|c'] eqn:Em; [discriminate|].
    injection H as <-.
    destruct q as [|y q]; [discriminate|].
    cbn [locate] in *.
    destruct (streq y x) eqn:Eyx.
    + apply streq_eq in Eyx. subst y. rewrite assoc_set_same in Hq.
      apply (IH _ _ _ _ _ _ Em) in Hq.
      destruct (assoc x es) as [c|]; [exact Hq|].
      destruct q as [|z q]; discriminate.
    + rewrite assoc_set_other in Hq by assumption. exact Hq.
Qed.

Lemma prepare_root_no_new_link t rs t1 q tg :
  prepare_root t rs = inr t1 ->
  locate t1 q = inr (Link tg) -> locate t q = inr (Link tg).
Proof.
  unfold prepare_root. destruct (locate t rs).
  - apply mkdirp_no_new_link.
  - now intros [= <-].
Qed.

Lemma walk_returns t m rs ts p :
  fst (walk t m rs ts) = Return p ->
  p = render ts /\ prepare_root t rs = inr (snd (walk t m rs ts)).
Proof.
  intros H. pose proof (walk_outcome t m rs ts) as Ho. rewrite H in Ho.
  split; [exact Ho|].
  unfold walk in *. destruct (prepare_root t rs); [discriminate | reflexivity].
Qed.

(** The three checks of the spelling and the names of the root and of the
    target depend on the working directory only. *)
Lemma same_cwd s s' ws u :
  cwd_below s' = cwd_below s ->
  rejected s' ws u = rejected s ws u /\
  root_names s' ws = root_names s ws /\
  target_names s' ws u = target_names s ws u.
Proof.
  intros H. unfold rejected, root_names, target_names, cwd. now rewrite H.
Qed.

Lemma mkdir_render ts s :
  Forall (fun x => is_name x = true) ts ->
  mkdir_recursive (render ts) s =
  match mkdirp (tree s) [] (tree s) ts with
  | inr t' => (Return tt, with_tree t' (note (Mkdir (render ts)) s))
  | inl e => (Throw (IOError e (str "mkdir") (render ts)),
              note (Mkdir (render ts)) s)
  end.
Proof.
  intros H. unfold mkdir_recursive.
  change (tree (note (Mkdir (render ts)) s)) with (tree s).
  change (location (note (Mkdir (render ts)) s) (render ts))
    with (location s (render ts)).
  now rewrite location_render.
Qed.

Lemma writeFile_render ts bytes s t' :
  Forall (fun x => is_name x = true) ts ->
  (forall tg, locate (tree s) ts <> inr (Link tg)) ->
  fst (writeFile (render ts) bytes s) = Return tt ->
  tree (snd (writeFile (render ts) bytes s)) = t' ->
  put (tree s) ts (File bytes) = inr t' /\
  cwd_below (snd (writeFile (render ts) bytes s)) = cwd_below s.
Proof.
  intros H Hnl. unfold writeFile.
  change (tree (note (WriteFile (render ts)) s)) with (tree s).
  change (location (note (WriteFile (render ts)) s) (render ts))
    with (location s (render ts)).
  rewrite location_render by assumption.
  rewrite follow_not_link by assumption.
  destruct (locate (tree s) ts) as [e|[c|tg|es]];
    try (intros; discriminate);
    destruct (put (tree s) ts (File bytes)) as [e'|t2];
    try (intros; discriminate);
    cbn [fst snd tree with_tree cwd_below note]; intros _ <-; split; reflexivity.
Qed.

Lemma readFile_render ts bytes s :
  Forall (fun x => is_name x = true) ts ->
  locate (tree s) ts = inr (File bytes) ->
  readFile (render ts) s = (Return bytes, note (ReadFile (render ts)) s).
Proof.
  intros H Hl. unfold readFile.
  change (tree (note (ReadFile (render ts)) s)) with (tree s).
  change (location (note (ReadFile (render ts)) s) (render ts))
    with (location s (render ts)).
  rewrite location_render by assumption.
  rewrite follow_not_link by (intros tg; rewrite Hl; discriminate).
  now rewrite Hl.
Qed.

(** Where a file has been put, a read of its path passes the walk. *)
Lemma walk_to_a_file t rs down bytes :
  Forall (fun x => is_name x = true) rs ->
  Forall (fun x => is_name x = true) down ->
  locate t (rs ++ down) = inr (File bytes) ->
  (forall q x r, rs ++ down = q ++ x :: r -> exists es, locate t q = inr (Dir es)) ->
  walk t ModeRead rs (rs ++ down) = (Return (render (rs ++ down)), t).
Proof.
  intros Hrs Hd Hfile Hdirs.
  assert (Hroot : exists n, locate t rs = inr n /\ forall tg, n <> Link tg).
  { destruct down as [|x down].
    - rewrite app_nil_r in Hfile. exists (File bytes). split; [exact Hfile | discriminate].
    - destruct (Hdirs rs x down eq_refl) as [es Hes].
      exists (Dir es). split; [exact Hes | discriminate]. }
  destruct Hroot as [n [Hn Hnl]].
  unfold walk, prepare_root. rewrite Hn. rewrite Hn.
  rewrite parts_to_check_target by (assumption || discriminate).
  rewrite scan_clear.
  - destruct n as [c|tg|es]; try reflexivity. now destruct (Hnl tg).
  - assumption.
  - intros pre rest tgt E Hne Hl.
    destruct rest as [|x rest].
    + rewrite app_nil_r in E. subst pre. rewrite Hfile in Hl. discriminate.
    + destruct (Hdirs (rs ++ pre) x rest) as [es Hes].
      { rewrite E. now rewrite app_assoc. }
      rewrite Hes in Hl. discriminate.
Qed.

(** C6, as amended.  Where [writeText(p, c)] returns, [p] was not itself
    a symbolic link, [c] is a string of code units without a surrogate on
    its own, and the UTF-8 encoding of [c] is within the byte budget of
    the read, [readText(p)] right after it returns [c]. *)
Theorem written_text_is_read_back :
  forall ws u c maxBytes s s1,
    writeText ws u c s = (Return tt, s1) ->
    (forall tg, locate (tree s) (target_names s ws u) <> inr (Link tg)) ->
    Forall (fun x => Utf8.is_unit x = true) c ->
    Utf8.isWellFormed c = true ->
    Utf8.byteLength c <= maxBytes ->
    fst (readText ws u maxBytes s1) = Return c.
Proof.
  intros ws u c maxBytes s s1 Hw Hnl Hu Hwf Hb.
  destruct (rejected s ws u) as [e|] eqn:Hrej.
  { unfold writeText, bind in Hw.
    rewrite (ensure_rejected ws u ModeWrite s e Hrej) in Hw. discriminate. }
  destruct (ensure_walk ws u ModeWrite s Hrej) as [s0 [Hc0 [Ht0 E0]]].
  pose proof (admitted_inside s ws u Hrej) as Hin.
  pose proof (rejected_none _ _ _ Hrej) as [_ [Hwin _]].
  destruct (root_render s ws) as [_ Hnr].
  destruct (target_render s ws u Hwin) as [_ [_ Hnt]].
  destruct (same_cwd s s1 ws u) as [Hrej1 [Hrs1 Hts1]].
  { (* the working directory is not changed by the write *)
    unfold writeText in Hw.
    apply bind_returns in Hw as [p [sa [Ha Hw]]].
    apply bind_returns in Hw as [[] [sb [Hmk Hw]]].
    rewrite E0 in Ha. injection Ha as _ <-.
    unfold mkdir_recursive in Hmk.
    destruct (mkdirp _ _ _ _); [discriminate|]. injection Hmk as <-.
    unfold writeFile in Hw.
    destruct (follow _ _ _); [discriminate|].
    destruct (locate _ _) as [?|[?|?|?]]; try discriminate;
      destruct (put _ _ _); try discriminate; injection Hw as <-; exact Hc0. }
  set (rs := root_names s ws) in *. set (ts := target_names s ws u) in *.
  (* the write *)
  unfold writeText in Hw.
  apply bind_returns in Hw as [p [sa [Ha Hw]]].
  apply bind_returns in Hw as [[] [sb [Hmk Hw]]].
  rewrite E0 in Ha. injection Ha as Hp <-.
  destruct (walk_returns _ _ _ _ _ Hp) as [-> Hprep]. rewrite <- Ht0 in Hprep.
  rewrite dirname_render in Hmk by assumption.
  rewrite mkdir_render in Hmk by now apply names_removelast.
  destruct (mkdirp (tree s0) [] (tree s0) (removelast ts)) as [e|t2] eqn:Emk;
    [discriminate|].
  injection Hmk as <-.
  assert (Hnl2 : forall tg, locate t2 ts <> inr (Link tg)).
  { intros tg Hl. apply (mkdirp_no_new_link _ _ _ _ _ _ _ Emk) in Hl.
    apply (prepare_root_no_new_link _ _ _ _ _ Hprep) in Hl. now apply (Hnl tg). }
  destruct (writeFile_render ts (Utf8.encode c)
              (with_tree t2 (note (Mkdir (render (removelast ts))) s0)) (tree s1)
              Hnt Hnl2) as [Hput _].
  { now rewrite Hw. }
  { now rewrite Hw. }
  change (tree (with_tree t2 (note (Mkdir (render (removelast ts))) s0)))
    with t2 in Hput.
  (* the read *)
  rewrite <- Hrej1 in Hrej.
  destruct (ensure_walk ws u ModeRead s1 Hrej) as [s2 [Hc2 [Ht2 E2]]].
  rewrite Hrs1, Hts1 in *. fold rs ts in Ht2, E2.
  destruct (is_prefix_split rs ts Hin) as [down Ets].
  assert (Hwalk : walk (tree s1) ModeRead rs ts = (Return (render ts), tree s1)).
  { rewrite Ets in *. apply walk_to_a_file with (bytes := Utf8.encode c).
    - assumption.
    - now apply Forall_app in Hnt as [_ Hnd].
    - apply (put_locate_same _ _ _ _ Hput).
    - intros q x r E. apply (put_locate_prefix _ _ _ _ q x r Hput E). }
  rewrite Hwalk in *. cbn [fst snd] in *.
  unfold readText. rewrite (bind_run _ _ _ _ _ E2).
  rewrite (bind_run _ _ _ _ _
             (readFile_render ts (Utf8.encode c) s2 Hnt
                ltac:(rewrite Ht2; apply (put_locate_same _ _ _ _ Hput)))).
  unfold Utf8.byteLength in Hb.
  replace (Z.of_nat (length (Utf8.encode c)) >? maxBytes) with false
    by (symmetry; rewrite Z.gtb_ltb; apply Z.ltb_ge; exact Hb).
  unfold ret. cbn [fst]. f_equal. now apply decode_encode.
Qed.

End RoundTrip.

Lemma written_text_is_read_back_witness :
  fst (WorkspaceFS.readText Sample.workspaceRoot (str "new/a.txt") 1000000
         (snd (WorkspaceFS.writeText Sample.workspaceRoot (str "new/a.txt")
                 (str "hi " ++ [55357; 56832]) Sample.disk)))
  = Return (str "hi " ++ [55357; 56832]).
Proof.
  apply (written_text_is_read_back Sample.workspaceRoot (str "new/a.txt")
           (str "hi " ++ [55357; 56832]) 1000000 Sample.disk).
  - vm_compute. reflexivity.
  - intros tg. vm_compute. discriminate.
  - repeat constructor.
  - reflexivity.
  - apply Z.leb_le. reflexivity.
Defined.

(** C6, as stated, fails for a content with a surrogate on its own: the
    path resolves inside the root, the content is three bytes long once
    encoded, the write returns, and the read returns U+FFFD in the place
    of the surrogate. *)
Lemma lone_surrogate_is_not_read_back :
  Walk.rejected Sample.disk Sample.workspaceRoot (str "a.txt") = None /\
  Utf8.byteLength [55296] = 3 /\
  fst (WorkspaceFS.writeText Sample.workspaceRoot (str "a.txt") [55296] Sample.disk)
  = Return tt /\
  fst (WorkspaceFS.readText Sample.workspaceRoot (str "a.txt") 1000000
         (snd (WorkspaceFS.writeText Sample.workspaceRoot (str "a.txt") [55296]
                 Sample.disk)))
  = Return [65533] /\
  [65533] <> [55296].
Proof.
  split; [vm_compute; reflexivity|]. split; [reflexivity|].
  split; [vm_compute; reflexivity|]. split; [vm_compute; reflexivity|].
  discriminate.
Qed.

(** It fails as well for a path that is itself a symbolic link: the write
    goes through the link and returns, the read of the same path is
    refused. *)
Lemma write_through_a_link_is_not_read_back :
  Walk.rejected Sample.disk Sample.workspaceRoot (str "link.txt") = None /\
  fst (WorkspaceFS.writeText Sample.workspaceRoot (str "link.txt") (str "x")
         Sample.disk)
  = Return tt /\
  fst (WorkspaceFS.readText Sample.workspaceRoot (str "link.txt") 1000000
         (snd (WorkspaceFS.writeText Sample.workspaceRoot (str "link.txt") (str "x")
                 Sample.disk)))
  = Throw (SymlinkNotAllowed (str "/srv/data/workspace/link.txt")).
Proof.
  split; [vm_compute; reflexivity|]. split; vm_compute; reflexivity.
Qed.

(** And for a path inside the root on which the write does not return:
    that of a directory, or of the root itself. *)
Lemma write_to_a_directory_fails :
  Walk.rejected Sample.disk Sample.workspaceRoot (str "sub") = None /\
  fst (WorkspaceFS.writeText Sample.workspaceRoot (str "sub") (str "x") Sample.disk)
  = Throw (IOError EISDIR (str "open") (str "/srv/data/workspace/sub")) /\
  Walk.rejected Sample.disk Sample.workspaceRoot (str ".") = None /\
  fst (WorkspaceFS.writeText Sample.workspaceRoot (str ".") (str "x") Sample.disk)
  = Throw (IOError EISDIR (str "open") (str "/srv/data/workspace")).
Proof.
  split; [vm_compute; reflexivity|]. split; [vm_compute; reflexivity|].
  split; vm_compute; reflexivity.
Qed.

(* ================================================================== *)
(** * What the calls to [fs] change in the tree *)

Section TreeChanges.

Import Fs Path Shape.

Lemma assoc_remove_other k k' es :
  streq k' k = false -> assoc k' (Fs.remove k es) = assoc k' es.
Proof.
  intros Hk. induction es as [|[k0 v0] es IH]; cbn [Fs.remove assoc]; [reflexivity|].
  destruct (streq k k0) eqn:E.
  - apply streq_eq in E. subst k0. now rewrite Hk.
  - cbn [assoc]. now rewrite IH.
Qed.

Lemma assoc_unlisted k es :
  existsb (fun e : jsstring * node => streq k (fst e)) es = false ->
  assoc k es = None.
Proof.
  induction es as [|[k1 v1] es IH]; [reflexivity|].
  cbn [existsb fst assoc]. intros H. apply orb_false_iff in H as [H1 H2].
  rewrite H1. now apply IH.
Qed.

Lemma assoc_remove_same k es :
  names_once es = true -> assoc k (Fs.remove k es) = None.
Proof.
  induction es as [|[k0 v0] es IH]; cbn [Fs.remove assoc names_once]; [reflexivity|].
  intros H. apply andb_true_iff in H as [Hn Ho]. destruct (streq k k0) eqn:E.
  - apply streq_eq in E. subst k0. apply negb_true_iff in Hn.
    now apply assoc_unlisted.
  - cbn [assoc]. rewrite E. now apply IH.
Qed.

Lemma assoc_In k es c : assoc k es = Some c -> In (k, c) es.
Proof.
  induction es as [|[k0 v0] es IH]; cbn [assoc]; [discriminate|].
  destruct (streq k k0) eqn:E.
  - apply streq_eq in E. subst k0. intros [= ->]. now left.
  - intros H. right. now apply IH.
Qed.

Lemma listed_set k v es j :
  existsb (fun e : jsstring * node => streq j (fst e)) (set k v es)
  = existsb (fun e : jsstring * node => streq j (fst e)) es || streq j k.
Proof.
  induction es as [|[k0 v0] es IH]; cbn [set existsb fst].
  - now rewrite orb_false_r.
  - destruct (streq k k0) eqn:E; cbn [existsb fst].
    + apply streq_eq in E. subst k0.
      destruct (streq j k); cbn [orb]; [reflexivity|]. now rewrite orb_false_r.
    + rewrite IH. now rewrite orb_assoc.
Qed.

Lemma names_once_set k v es :
  names_once es = true -> names_once (set k v es) = true.
Proof.
  induction es as [|[k0 v0] es IH]; cbn [set names_once]; [reflexivity|].
  intros H. apply andb_true_iff in H as [Hn Ho].
  destruct (streq k k0) eqn:E; cbn [names_once].
  - now rewrite Hn, Ho.
  - rewrite listed_set. apply negb_true_iff in Hn. rewrite Hn.
    rewrite streq_sym, E. cbn [orb negb andb]. now apply IH.
Qed.

Lemma well_formed_set k v es :
  well_formed v = true -> well_formed (Dir es) = true ->
  well_formed (Dir (set k v es)) = true.
Proof.
  cbn [well_formed]. intros Hv H. apply andb_true_iff in H as [Hn Hc].
  rewrite names_once_set by assumption. cbn [andb].
  clear Hn. induction es as [|[k0 v0] es IH]; cbn [set forallb] in *.
  - now rewrite Hv.
  - apply andb_true_iff in Hc as [H0 Hc].
    destruct (streq k k0); cbn [forallb].
    + now rewrite Hv, Hc.
    + rewrite H0. now apply IH.
Qed.

Lemma well_formed_child es k c :
  well_formed (Dir es) = true -> assoc k es = Some c -> well_formed c = true.
Proof.
  cbn [well_formed]. intros H Ha. apply andb_true_iff in H as [_ Hc].
  apply assoc_In in Ha. rewrite forallb_forall in Hc. exact (Hc _ Ha).
Qed.

Lemma mkdirp_well_formed p : forall g here t t',
  mkdirp g here t p = inr t' -> well_formed t = true -> well_formed t' = true.
Proof.
  induction p as [|x p IH]; intros g here t t' H Hw.
  - cbn [mkdirp] in H. destruct t as [c|tg|es]; try discriminate.
    + destruct (is_dir_at g here); [|discriminate]. now injection H as <-.
    + now injection H as <-.
  - cbn [mkdirp] in H. destruct t as [c|tg|es]; try discriminate.
    destruct (mkdirp g (here ++ [x])
                match assoc x es with Some c => c | None => Dir [] end p)
      as [e|c'] eqn:Em; [discriminate|].
    injection H as <-. apply well_formed_set; [|exact Hw].
    apply (IH _ _ _ _ Em).
    destruct (assoc x es) as [c|] eqn:Ea; [|reflexivity].
    now apply (well_formed_child es x c).
Qed.

(** What [rm] removes is not there afterwards. *)
Lemma del_gone p : forall t n,
  well_formed t = true -> p <> [] -> locate t p = inr n ->
  locate (del t p) p = inl ENOENT.
Proof.
  induction p as [|x p IH]; intros t n Hw Hp Hl; [contradiction|].
  cbn [locate] in Hl. destruct t as [c|tg|es]; try discriminate.
  destruct (assoc x es) as [c|] eqn:Ea; [|discriminate].
  destruct p as [|y p].
  - cbn [del locate]. rewrite assoc_remove_same; [reflexivity|].
    cbn [well_formed] in Hw. now apply andb_true_iff in Hw as [Hw _].
  - cbn [del]. rewrite Ea. cbn [locate]. rewrite assoc_set_same.
    apply (IH c n); [now apply (well_formed_child es x c) | discriminate | exact Hl].
Qed.

(** [rm] and [writeFile] change nothing at a location that is neither on
    the way to theirs nor below it. *)
Lemma del_elsewhere p : forall t q,
  is_prefix p q = false -> is_prefix q p = false ->
  locate (del t p) q = locate t q.
Proof.
  induction p as [|x p IH]; intros t q Hpq Hqp; [discriminate|].
  destruct q as [|y q]; [discriminate|].
  cbn [is_prefix] in *. destruct t as [c|tg|es]; try reflexivity.
  destruct (streq x y) eqn:Exy.
  - apply streq_eq in Exy. subst y. rewrite streq_refl in Hqp. cbn [andb] in *.
    destruct p as [|x' p]; [discriminate|].
    cbn [del]. destruct (assoc x es) as [c|] eqn:Ea; [|reflexivity].
    cbn [locate]. rewrite assoc_set_same, Ea. now apply IH.
  - assert (Eyx : streq y x = false) by (rewrite streq_sym; exact Exy).
    destruct p as [|x' p]; cbn [del].
    + cbn [locate]. now rewrite assoc_remove_other.
    + destruct (assoc x es) as [c|] eqn:Ea; [|reflexivity].
      cbn [locate]. now rewrite assoc_set_other.
Qed.

Lemma put_elsewhere p : forall t n t' q,
  put t p n = inr t' ->
  is_prefix p q = false -> is_prefix q p = false ->
  locate t' q = locate t q.
Proof.
  induction p as [|x p IH]; intros t n t' q H Hpq Hqp; [discriminate|].
  destruct q as [|y q]; [discriminate|].
  cbn [is_prefix] in *. cbn [put] in H. destruct t as [c|tg|es]; try discriminate.
  destruct (streq x y) eqn:Exy.
  - apply streq_eq in Exy. subst y. rewrite streq_refl in Hqp. cbn [andb] in *.
    destruct p as [|x' p]; [discriminate|].
    destruct (assoc x es) as [c|] eqn:Ea; [|discriminate].
    destruct (put c (x' :: p) n) as [e|c'] eqn:Ep; [discriminate|].
    injection H as <-. cbn [locate]. rewrite assoc_set_same, Ea.
    now apply (IH c n c' q Ep).
  - assert (Eyx : streq y x = false) by (rewrite streq_sym; exact Exy).
    destruct p as [|x' p].
    + injection H as <-. cbn [locate]. now rewrite assoc_set_other.
    + destruct (assoc x es) as [c|] eqn:Ea; [|discriminate].
      destruct (put c (x' :: p) n) as [e|c'] eqn:Ep; [discriminate|].
      injection H as <-. cbn [locate]. now rewrite assoc_set_other.
Qed.

Lemma is_prefix_trans a b c :
  is_prefix a b = true -> is_prefix b c = true -> is_prefix a c = true.
Proof.
  revert b c. induction a as [|x a IH]; intros b c Hab Hbc; [reflexivity|].
  destruct b as [|y b]; [discriminate|]. destruct c as [|z c]; [discriminate|].
  cbn [is_prefix] in *.
  apply andb_true_iff in Hab as [Hxy Hab]. apply andb_true_iff in Hbc as [Hyz Hbc].
  apply streq_eq in Hxy. subst y. rewrite Hyz. cbn [andb]. now apply (IH b c).
Qed.

(** Two prefixes of one list: one of them is a prefix of the other. *)
Lemma is_prefix_common a b c :
  is_prefix a c = true -> is_prefix b c = true ->
  is_prefix a b = true \/ is_prefix b a = true.
Proof.
  revert b c. induction a as [|x a IH]; intros b c Ha Hb; [now left|].
  destruct b as [|y b]; [now right|]. destruct c as [|z c]; [discriminate|].
  cbn [is_prefix] in *.
  apply andb_true_iff in Ha as [Hxz Ha]. apply andb_true_iff in Hb as [Hyz Hb].
  apply streq_eq in Hxz. apply streq_eq in Hyz. subst x y.
  rewrite streq_refl. cbn [andb]. now apply (IH b c).
Qed.

(** A location that is apart from the root is apart from everything at or
    below the root. *)
Lemma apart_from_inside rs ts q :
  is_prefix rs ts = true ->
  is_prefix q rs = false -> is_prefix rs q = false ->
  is_prefix q ts = false /\ is_prefix ts q = false.
Proof.
  intros Hin Hq Hr. split.
  - destruct (is_prefix q ts) eqn:E; [|reflexivity].
    destruct (is_prefix_common q rs ts E Hin); congruence.
  - destruct (is_prefix ts q) eqn:E; [|reflexivity].
    rewrite (is_prefix_trans rs ts q Hin E) in Hr. discriminate.
Qed.

End TreeChanges.

(* ================================================================== *)
(** * The operations of the store *)

Section Store.

Import Fs Path WorkspaceFS Walk Shape.

(** ** The state the calls leave *)

Lemma readFile_state p s :
  tree (snd (readFile p s)) = tree s /\
  cwd_below (snd (readFile p s)) = cwd_below s.
Proof.
  unfold readFile. destruct (follow _ _ _) as [e|q]; [now split|].
  destruct (locate _ q) as [e|[c|tg|es]]; now split.
Qed.

Lemma readdir_state p s :
  tree (snd (readdir p s)) = tree s /\
  cwd_below (snd (readdir p s)) = cwd_below s.
Proof.
  unfold readdir. destruct (follow _ _ _) as [e|q]; [now split|].
  destruct (locate _ q) as [e|[c|tg|es]]; now split.
Qed.

(** [ensureInsideWorkspace] leaves the tree as it was, or with the root it
    has made. *)
Lemma ensure_state ws u m s :
  cwd_below (snd (ensureInsideWorkspace ws u m s)) = cwd_below s /\
  (tree (snd (ensureInsideWorkspace ws u m s)) = tree s \/
   (exists e, locate (tree s) (root_names s ws) = inl e) /\
   mkdirp (tree s) [] (tree s) (root_names s ws)
   = inr (tree (snd (ensureInsideWorkspace ws u m s)))).
Proof.
  destruct (rejected s ws u) as [e|] eqn:Hrej.
  - rewrite (ensure_rejected ws u m s e Hrej). cbn [snd]. split; [reflexivity | now left].
  - destruct (ensure_walk ws u m s Hrej) as [s' [Hc [Ht E]]].
    rewrite E. cbn [snd]. split; [exact Hc|]. rewrite Ht.
    unfold walk, prepare_root.
    destruct (locate (tree s) (root_names s ws)) as [e|n] eqn:El.
    + destruct (mkdirp (tree s) [] (tree s) (root_names s ws)) as [e'|t1] eqn:Em;
        cbn [snd]; [now left|]. right. split; [eauto | reflexivity].
    + cbn [snd]. now left.
Qed.

Lemma ensure_frame ws u m s q :
  is_prefix q (root_names s ws) = false ->
  locate (tree (snd (ensureInsideWorkspace ws u m s))) q = locate (tree s) q.
Proof.
  intros Hq. destruct (ensure_state ws u m s) as [_ [->|[_ Hmk]]]; [reflexivity|].
  apply (mkdirp_elsewhere _ _ _ _ _ _ Hmk Hq).
Qed.

(** What holds where [ensureInsideWorkspace] returns. *)
Lemma ensure_returns ws u m s p s0 :
  ensureInsideWorkspace ws u m s = (Return p, s0) ->
  rejected s ws u = None /\
  p = render (target_names s ws u) /\
  cwd_below s0 = cwd_below s /\
  prepare_root (tree s) (root_names s ws) = inr (tree s0) /\
  (exists n, locate (tree s0) (root_names s ws) = inr n /\ forall tg, n <> Link tg) /\
  scan (tree s0) (root_names s ws)
    (parts_to_check m (root_names s ws) (target_names s ws u)) = None.
Proof.
  intros H. destruct (rejected s ws u) as [e|] eqn:Hrej.
  { rewrite (ensure_rejected ws u m s e Hrej) in H. discriminate. }
  destruct (ensure_walk ws u m s Hrej) as [s' [Hc [Ht E]]].
  rewrite E in H. injection H as Hp ->.
  split; [reflexivity|]. rewrite Ht. clear E Ht.
  unfold walk in *.
  destruct (prepare_root (tree s) (root_names s ws)) as [e|t1]; [discriminate|].
  cbn [fst snd] in *.
  destruct (locate t1 (root_names s ws)) as [e|n] eqn:El; [discriminate|].
  destruct (scan t1 (root_names s ws) _) as [l|] eqn:Es;
    [destruct n; discriminate|].
  assert (Hn : forall tg, n <> Link tg).
  { intros tg ->. discriminate. }
  assert (Hr : p = render (target_names s ws u)).
  { destruct n as [c|tg|es]; [|discriminate|]; now injection Hp as <-. }
  split; [exact Hr|]. split; [exact Hc|]. split; [reflexivity|].
  split; [|reflexivity]. exists n. split; [reflexivity | exact Hn].
Qed.

(** The walk passes to a node that is there and is not a link. *)
Lemma walk_to_a_node t m rs down n :
  m <> ModeWrite ->
  Forall (fun x => is_name x = true) rs ->
  Forall (fun x => is_name x = true) down ->
  locate t (rs ++ down) = inr n ->
  (forall tg, n <> Link tg) ->
  walk t m rs (rs ++ down) = (Return (render (rs ++ down)), t).
Proof.
  intros Hm Hrs Hd Hl Hn.
  assert (Hroot : exists r, locate t rs = inr r /\ forall tg, r <> Link tg).
  { destruct down as [|x down].
    - rewrite app_nil_r in Hl. eauto.
    - destruct (locate_through t rs x down n Hl) as [es Hes].
      exists (Dir es). split; [exact Hes | discriminate]. }
  destruct Hroot as [r [Hr Hrl]].
  unfold walk, prepare_root. rewrite Hr. rewrite Hr.
  rewrite parts_to_check_target by assumption.
  rewrite scan_clear.
  - destruct r as [c|tg|es]; try reflexivity. now destruct (Hrl tg).
  - assumption.
  - intros pre rest tgt E Hne Hlk.
    destruct rest as [|x rest].
    + rewrite app_nil_r in E. subst pre. rewrite Hl in Hlk.
      injection Hlk as ->. now destruct (Hn tgt).
    + subst down. rewrite app_assoc in Hl.
      destruct (locate_through t (rs ++ pre) x rest n Hl) as [es Hes].
      rewrite Hes in Hlk. discriminate.
Qed.

(** The request resolves to names at or below those of the root. *)
Lemma admitted_names s ws u :
  rejected s ws u = None ->
  Forall (fun x => is_name x = true) (root_names s ws) /\
  exists down,
    target_names s ws u = root_names s ws ++ down /\
    Forall (fun x => is_name x = true) down.
Proof.
  intros Hrej. pose proof (admitted_inside s ws u Hrej) as Hin.
  pose proof (rejected_none _ _ _ Hrej) as [_ [Hw _]].
  destruct (root_render s ws) as [_ Hnr].
  destruct (target_render s ws u Hw) as [_ [_ Hnt]].
  split; [exact Hnr|].
  destruct (is_prefix_split _ _ Hin) as [down E]. exists down.
  split; [exact E|]. rewrite E in Hnt. now apply Forall_app in Hnt as [_ Hnd].
Qed.

(** Where the target is there and is not a link, the request is let
    through and the tree is left as it is. *)
Lemma ensure_to_a_node ws u m s n :
  m <> ModeWrite ->
  rejected s ws u = None ->
  locate (tree s) (target_names s ws u) = inr n ->
  (forall tg, n <> Link tg) ->
  exists s0,
    ensureInsideWorkspace ws u m s = (Return (render (target_names s ws u)), s0) /\
    tree s0 = tree s /\ cwd_below s0 = cwd_below s.
Proof.
  intros Hm Hrej Hl Hn.
  destruct (ensure_walk ws u m s Hrej) as [s0 [Hc [Ht E]]].
  destruct (admitted_names s ws u Hrej) as [Hnr [down [Ets Hnd]]].
  rewrite Ets in *.
  rewrite (walk_to_a_node (tree s) m _ down n Hm Hnr Hnd Hl Hn) in *.
  cbn [fst snd] in *. exists s0. auto.
Qed.

(** X1.  [readText] reads the whole file and then checks its size: a file
    of more than [maxBytes] bytes is refused with [FileTooLarge] and its
    size, one of exactly [maxBytes] bytes or less is decoded and returned.
    The tree is as it was either way. *)
Theorem read_checks_the_size_after_reading :
  forall ws u maxBytes s bytes,
    rejected s ws u = None ->
    locate (tree s) (target_names s ws u) = inr (File bytes) ->
    fst (readText ws u maxBytes s)
    = (if Z.of_nat (length bytes) >? maxBytes
       then Throw (FileTooLarge (Z.of_nat (length bytes)))
       else Return (Utf8.decode bytes)) /\
    tree (snd (readText ws u maxBytes s)) = tree s /\
    exists earlier,
      calls (snd (readText ws u maxBytes s))
      = ReadFile (render (target_names s ws u)) :: earlier.
Proof.
  intros ws u maxBytes s bytes Hrej Hl.
  destruct (ensure_to_a_node ws u ModeRead s (File bytes)
              ltac:(discriminate) Hrej Hl ltac:(discriminate))
    as [s0 [E [Ht Hc]]].
  destruct (admitted_names s ws u Hrej) as [Hnr [down [Ets Hnd]]].
  assert (Hnt : Forall (fun x => is_name x = true) (target_names s ws u)).
  { rewrite Ets. apply Forall_app. now split. }
  unfold readText. rewrite (bind_run _ _ _ _ _ E).
  rewrite (bind_run _ _ _ _ _
             (readFile_render _ bytes s0 Hnt ltac:(now rewrite Ht))).
  destruct (Z.of_nat (length bytes) >? maxBytes);
    (split; [reflexivity|]; split; [exact Ht | eexists; reflexivity]).
Qed.

Lemma readdir_at ts n s0 :
  Forall (fun x => is_name x = true) ts ->
  locate (tree s0) ts = inr n ->
  (forall tg, n <> Link tg) ->
  readdir (render ts) s0
  = (match n with
     | Dir es =>
         Return (map (fun e : jsstring * node =>
                        (fst e, match snd e with Dir _ => true | _ => false end)) es)
     | _ => Throw (IOError ENOTDIR (str "scandir") (render ts))
     end, note (Readdir (render ts)) s0).
Proof.
  intros Hnt Hl Hn. unfold readdir.
  change (tree (note (Readdir (render ts)) s0)) with (tree s0).
  change (location (note (Readdir (render ts)) s0) (render ts))
    with (location s0 (render ts)).
  rewrite location_render by assumption.
  rewrite follow_not_link
    by (intros tg; rewrite Hl; intros [= ->]; now destruct (Hn tg)).
  rewrite Hl. destruct n as [c|tg|es]; reflexivity.
Qed.

Lemma listDir_entries ws u s es :
  rejected s ws u = None ->
  locate (tree s) (target_names s ws u) = inr (Dir es) ->
  fst (listDir ws u s) = Return (map listed es) /\
  tree (snd (listDir ws u s)) = tree s.
Proof.
  intros Hrej Hl.
  destruct (admitted_names s ws u Hrej) as [Hnr [down [Ets Hnd]]].
  assert (Hnt : Forall (fun x => is_name x = true) (target_names s ws u)).
  { rewrite Ets. apply Forall_app. now split. }
  destruct (ensure_to_a_node ws u ModeList s (Dir es)
              ltac:(discriminate) Hrej Hl ltac:(discriminate))
    as [s0 [E [Ht Hc]]].
  unfold listDir. rewrite (bind_run _ _ _ _ _ E).
  rewrite (bind_run _ _ _ _ _
             (readdir_at _ (Dir es) s0 Hnt ltac:(now rewrite Ht) ltac:(discriminate))).
  unfold ret. cbn [fst snd tree note]. split; [|exact Ht].
  f_equal. rewrite map_map. apply map_ext.
  intros [name [c|tg|es']]; reflexivity.
Qed.

(** X2.  [listDir] of a directory returns its entries in the order of the
    directory, a [/] after the name of each entry that is a directory,
    and leaves the tree as it was; on a regular file it fails with
    [ENOTDIR]. *)
Theorem list_shows_the_entries_of_a_directory :
  forall ws u s,
    rejected s ws u = None ->
    (forall es,
       locate (tree s) (target_names s ws u) = inr (Dir es) ->
       fst (listDir ws u s) = Return (map listed es) /\
       tree (snd (listDir ws u s)) = tree s) /\
    (forall bytes,
       locate (tree s) (target_names s ws u) = inr (File bytes) ->
       fst (listDir ws u s)
       = Throw (IOError ENOTDIR (str "scandir") (render (target_names s ws u)))).
Proof.
  intros ws u s Hrej. split.
  - intros es Hl. now apply listDir_entries.
  - intros bytes Hl.
    destruct (admitted_names s ws u Hrej) as [Hnr [down [Ets Hnd]]].
    assert (Hnt : Forall (fun x => is_name x = true) (target_names s ws u)).
    { rewrite Ets. apply Forall_app. now split. }
    destruct (ensure_to_a_node ws u ModeList s (File bytes)
                ltac:(discriminate) Hrej Hl ltac:(discriminate))
      as [s0 [E [Ht Hc]]].
    unfold listDir. rewrite (bind_run _ _ _ _ _ E).
    unfold bind.
    rewrite (readdir_at _ (File bytes) s0 Hnt ltac:(now rewrite Ht) ltac:(discriminate)).
    reflexivity.
Qed.

End Store.

Lemma read_checks_the_size_after_reading_witness :
  fst (WorkspaceFS.readText Sample.workspaceRoot (str "notes.txt") 4 Sample.disk)
  = Throw (FileTooLarge 5) /\
  fst (WorkspaceFS.readText Sample.workspaceRoot (str "notes.txt") 5 Sample.disk)
  = Return (str "hello").
Proof.
  split.
  - apply (proj1 (read_checks_the_size_after_reading Sample.workspaceRoot
                    (str "notes.txt") 4 Sample.disk (Utf8.encode (str "hello"))
                    ltac:(vm_compute; reflexivity) ltac:(vm_compute; reflexivity))).
  - apply (proj1 (read_checks_the_size_after_reading Sample.workspaceRoot
                    (str "notes.txt") 5 Sample.disk (Utf8.encode (str "hello"))
                    ltac:(vm_compute; reflexivity) ltac:(vm_compute; reflexivity))).
Defined.

Lemma list_shows_the_entries_of_a_directory_witness :
  fst (WorkspaceFS.listDir Sample.workspaceRoot (str "sub") Sample.disk)
  = Return [str "b.txt"] /\
  fst (WorkspaceFS.listDir Sample.workspaceRoot (str "notes.txt") Sample.disk)
  = Throw (IOError ENOTDIR (str "scandir") (str "/srv/data/workspace/notes.txt")).
Proof.
  split.
  - apply (proj1 (proj1 (list_shows_the_entries_of_a_directory Sample.workspaceRoot
                           (str "sub") Sample.disk ltac:(vm_compute; reflexivity))
                    [(str "b.txt", Fs.File (Utf8.encode (str "b")))]
                    ltac:(vm_compute; reflexivity))).
  - apply (proj2 (list_shows_the_entries_of_a_directory Sample.workspaceRoot
                    (str "notes.txt") Sample.disk ltac:(vm_compute; reflexivity))
             (Utf8.encode (str "hello")) ltac:(vm_compute; reflexivity)).
Defined.

(* ================================================================== *)
(** * What the store changes, and where *)

Section Confinement.

Import Fs Path WorkspaceFS Walk Shape.

Lemma rm_render ts s :
  Forall (fun x => is_name x = true) ts ->
  rm_recursive_force (render ts) s =
  match locate (tree s) ts with
  | inr _ => (Return tt, with_tree (del (tree s) ts) (note (Rm (render ts)) s))
  | inl ENOENT => (Return tt, note (Rm (render ts)) s)
  | inl e => (Throw (IOError e (str "lstat") (render ts)), note (Rm (render ts)) s)
  end.
Proof.
  intros H. unfold rm_recursive_force.
  change (tree (note (Rm (render ts)) s)) with (tree s).
  change (location (note (Rm (render ts)) s) (render ts))
    with (location s (render ts)).
  now rewrite location_render.
Qed.

Lemma writeFile_at ts bytes s :
  Forall (fun x => is_name x = true) ts ->
  (forall tg, locate (tree s) ts <> inr (Link tg)) ->
  writeFile (render ts) bytes s =
  match locate (tree s) ts with
  | inr (Dir _) =>
      (Throw (IOError EISDIR (str "open") (render ts)), note (WriteFile (render ts)) s)
  | _ =>
      match put (tree s) ts (File bytes) with
      | inr t' => (Return tt, with_tree t' (note (WriteFile (render ts)) s))
      | inl e => (Throw (IOError e (str "open") (render ts)),
                  note (WriteFile (render ts)) s)
      end
  end.
Proof.
  intros H Hnl. unfold writeFile.
  change (tree (note (WriteFile (render ts)) s)) with (tree s).
  change (location (note (WriteFile (render ts)) s) (render ts))
    with (location s (render ts)).
  rewrite location_render by assumption.
  now rewrite follow_not_link by assumption.
Qed.

Lemma is_prefix_removelast (l : list jsstring) : is_prefix (removelast l) l = true.
Proof.
  destruct (last_or_nil l) as [->|[init [last ->]]]; [reflexivity|].
  rewrite removelast_last. apply is_prefix_app.
Qed.

Lemma readText_tree ws u n s :
  tree (snd (readText ws u n s))
  = tree (snd (ensureInsideWorkspace ws u ModeRead s)).
Proof.
  unfold readText, bind.
  destruct (ensureInsideWorkspace ws u ModeRead s) as [[p|e] s0]; [|reflexivity].
  destruct (readFile_state p s0) as [Ht _].
  destruct (readFile p s0) as [[b|e] s1]; [|exact Ht].
  cbn [snd] in *. destruct (_ >? _); exact Ht.
Qed.

Lemma listDir_tree ws u s :
  tree (snd (listDir ws u s))
  = tree (snd (ensureInsideWorkspace ws u ModeList s)).
Proof.
  unfold listDir, bind.
  destruct (ensureInsideWorkspace ws u ModeList s) as [[p|e] s0]; [|reflexivity].
  destruct (readdir_state p s0) as [Ht _].
  destruct (readdir p s0) as [[b|e] s1]; exact Ht.
Qed.

(** X3.  [readText] and [listDir] write nothing.  Where no link is gone
    through on the way to the workspace root and the names of the root
    are plain: whatever they return or throw, the tree is as it was when
    the workspace root is there; when it is not, they may have made it,
    and every location that is not on the way to the root still holds
    what it held. *)
Theorem reading_changes_no_file :
  forall ws u n s,
    Shape.no_link_above (tree s) (root_names s ws) = true ->
    forallb Shape.plain_name (root_names s ws) = true ->
    (forall r, locate (tree s) (root_names s ws) = inr r ->
       tree (snd (readText ws u n s)) = tree s /\
       tree (snd (listDir ws u s)) = tree s) /\
    (forall q, is_prefix q (root_names s ws) = false ->
       locate (tree (snd (readText ws u n s))) q = locate (tree s) q /\
       locate (tree (snd (listDir ws u s))) q = locate (tree s) q).
Proof.
  intros ws u n s _ _. rewrite readText_tree, listDir_tree. split.
  - intros r Hr. split.
    + destruct (ensure_state ws u ModeRead s) as [_ [E|[[e He] _]]]; [exact E | congruence].
    + destruct (ensure_state ws u ModeList s) as [_ [E|[[e He] _]]]; [exact E | congruence].
  - intros q Hq. split; now apply ensure_frame.
Qed.

(** The tree a write leaves, at a location apart from the target. *)
Lemma write_frame ws u c s q :
  rejected s ws u = None ->
  (forall tg, locate (tree s) (target_names s ws u) <> inr (Link tg)) ->
  is_prefix q (target_names s ws u) = false ->
  is_prefix (target_names s ws u) q = false ->
  locate (tree (snd (writeText ws u c s))) q = locate (tree s) q.
Proof.
  intros Hrej Hnl Hq Htq.
  pose proof (admitted_inside s ws u Hrej) as Hin.
  destruct (admitted_names s ws u Hrej) as [Hnr [down [Ets Hnd]]].
  assert (Hnt : Forall (fun x => is_name x = true) (target_names s ws u)).
  { rewrite Ets. apply Forall_app. now split. }
  assert (Hqr : is_prefix q (root_names s ws) = false).
  { destruct (is_prefix q (root_names s ws)) eqn:E; [|reflexivity].
    rewrite (is_prefix_trans _ _ _ E Hin) in Hq. discriminate. }
  assert (Hqd : is_prefix q (removelast (target_names s ws u)) = false).
  { destruct (is_prefix q (removelast (target_names s ws u))) eqn:E; [|reflexivity].
    rewrite (is_prefix_trans _ _ _ E (is_prefix_removelast _)) in Hq. discriminate. }
  pose proof (ensure_frame ws u ModeWrite s q Hqr) as Hframe.
  unfold writeText, bind.
  destruct (ensureInsideWorkspace ws u ModeWrite s) as [[p|e] s0] eqn:E;
    [|exact Hframe].
  cbn [snd] in Hframe.
  destruct (ensure_returns _ _ _ _ _ _ E) as [_ [-> [_ [Hprep _]]]].
  rewrite dirname_render by assumption.
  rewrite mkdir_render by now apply names_removelast.
  destruct (mkdirp (tree s0) [] (tree s0) (removelast (target_names s ws u)))
    as [e|t2] eqn:Emk; [exact Hframe|].
  assert (Hnl2 : forall tg, locate t2 (target_names s ws u) <> inr (Link tg)).
  { intros tg Hl. apply (mkdirp_no_new_link _ _ _ _ _ _ _ Emk) in Hl.
    apply (prepare_root_no_new_link _ _ _ _ _ Hprep) in Hl. now apply (Hnl tg). }
  assert (H2 : locate t2 q = locate (tree s) q).
  { rewrite (mkdirp_elsewhere _ _ _ _ _ _ Emk Hqd). exact Hframe. }
  rewrite writeFile_at by assumption.
  change (tree (with_tree t2 (note (Mkdir (render (removelast (target_names s ws u)))) s0)))
    with t2.
  destruct (locate t2 (target_names s ws u)) as [e|[b|tg|es]];
    try exact H2;
    (destruct (put t2 (target_names s ws u) (File (Utf8.encode c))) as [e'|t3] eqn:Ep;
     [exact H2|]);
    cbn [snd tree with_tree];
    rewrite (put_elsewhere _ _ _ _ _ Ep Htq Hq); exact H2.
Qed.

Lemma write_outside ws u c s q :
  (forall tg, locate (tree s) (target_names s ws u) <> inr (Link tg)) ->
  is_prefix q (root_names s ws) = false ->
  is_prefix (root_names s ws) q = false ->
  locate (tree (snd (writeText ws u c s))) q = locate (tree s) q.
Proof.
  intros Hnl Hq1 Hq2.
  destruct (rejected s ws u) as [e|] eqn:Hrej.
  - unfold writeText, bind. now rewrite (ensure_rejected ws u ModeWrite s e Hrej).
  - destruct (apart_from_inside _ _ q (admitted_inside s ws u Hrej) Hq1 Hq2).
    now apply write_frame.
Qed.

(** X4.  A write to a path that is not itself a symbolic link changes
    nothing outside of the workspace.  Where no link is gone through on
    the way to the workspace root and the names on the way to the target
    are plain: whatever [writeText] returns or throws, a location that is
    neither on the way to the target nor below it holds what it held, and
    so does one that is neither on the way to the workspace root nor
    below it. *)
Theorem write_stays_in_the_workspace :
  forall ws u c s,
    Shape.no_link_above (tree s) (root_names s ws) = true ->
    forallb Shape.plain_name (target_names s ws u) = true ->
    (forall tg, locate (tree s) (target_names s ws u) <> inr (Link tg)) ->
    (forall q,
       is_prefix q (target_names s ws u) = false ->
       is_prefix (target_names s ws u) q = false ->
       locate (tree (snd (writeText ws u c s))) q = locate (tree s) q) /\
    (forall q,
       is_prefix q (root_names s ws) = false ->
       is_prefix (root_names s ws) q = false ->
       locate (tree (snd (writeText ws u c s))) q = locate (tree s) q).
Proof.
  intros ws u c s _ _ Hnl. split; intros q Hq1 Hq2.
  - destruct (rejected s ws u) as [e|] eqn:Hrej.
    + unfold writeText, bind. now rewrite (ensure_rejected ws u ModeWrite s e Hrej).
    + now apply write_frame.
  - now apply write_outside.
Qed.

Lemma remove_frame ws u s q :
  rejected s ws u = None ->
  is_prefix q (target_names s ws u) = false ->
  is_prefix (target_names s ws u) q = false ->
  locate (tree (snd (remove ws u s))) q = locate (tree s) q.
Proof.
  intros Hrej Hq Htq.
  pose proof (admitted_inside s ws u Hrej) as Hin.
  destruct (admitted_names s ws u Hrej) as [Hnr [down [Ets Hnd]]].
  assert (Hnt : Forall (fun x => is_name x = true) (target_names s ws u)).
  { rewrite Ets. apply Forall_app. now split. }
  assert (Hqr : is_prefix q (root_names s ws) = false).
  { destruct (is_prefix q (root_names s ws)) eqn:E; [|reflexivity].
    rewrite (is_prefix_trans _ _ _ E Hin) in Hq. discriminate. }
  pose proof (ensure_frame ws u ModeDelete s q Hqr) as Hframe.
  unfold remove, bind.
  destruct (ensureInsideWorkspace ws u ModeDelete s) as [[p|e] s0] eqn:E;
    [|exact Hframe].
  cbn [snd] in Hframe.
  destruct (ensure_returns _ _ _ _ _ _ E) as [_ [-> _]].
  rewrite rm_render by assumption.
  destruct (locate (tree s0) (target_names s ws u)) as [[]|n];
    try exact Hframe.
  cbn [snd tree with_tree]. rewrite (del_elsewhere _ _ _ Htq Hq). exact Hframe.
Qed.

Lemma remove_outside ws u s q :
  is_prefix q (root_names s ws) = false ->
  is_prefix (root_names s ws) q = false ->
  locate (tree (snd (remove ws u s))) q = locate (tree s) q.
Proof.
  intros Hq1 Hq2.
  destruct (rejected s ws u) as [e|] eqn:Hrej.
  - unfold remove, bind. now rewrite (ensure_rejected ws u ModeDelete s e Hrej).
  - destruct (apart_from_inside _ _ q (admitted_inside s ws u Hrej) Hq1 Hq2).
    now apply remove_frame.
Qed.

(** X5.  [remove] changes nothing outside of the workspace, and nothing
    in it that is apart from its target.  Where no link is gone through
    on the way to the workspace root and the names on the way to the
    target are plain: whatever it returns or throws, a location that is
    neither on the way to the target nor below it holds what it held, and
    so does one that is neither on the way to the workspace root nor
    below it. *)
Theorem remove_stays_in_the_workspace :
  forall ws u s,
    Shape.no_link_above (tree s) (root_names s ws) = true ->
    forallb Shape.plain_name (target_names s ws u) = true ->
    (forall q,
       is_prefix q (target_names s ws u) = false ->
       is_prefix (target_names s ws u) q = false ->
       locate (tree (snd (remove ws u s))) q = locate (tree s) q) /\
    (forall q,
       is_prefix q (root_names s ws) = false ->
       is_prefix (root_names s ws) q = false ->
       locate (tree (snd (remove ws u s))) q = locate (tree s) q).
Proof.
  intros ws u s _ _. split; intros q Hq1 Hq2.
  - destruct (rejected s ws u) as [e|] eqn:Hrej.
    + unfold remove, bind. now rewrite (ensure_rejected ws u ModeDelete s e Hrej).
    + now apply remove_frame.
  - now apply remove_outside.
Qed.

End Confinement.

Lemma reading_changes_no_file_witness :
  Fs.tree (snd (WorkspaceFS.readText Sample.workspaceRoot (str "link.txt") 10
                  Sample.disk))
  = Fs.tree Sample.disk /\
  Fs.locate
    (Fs.tree (snd (WorkspaceFS.listDir Sample.workspaceRoot (str "sub") Sample.disk)))
    [str "etc"; str "passwd"]
  = Fs.locate (Fs.tree Sample.disk) [str "etc"; str "passwd"].
Proof.
  split.
  - apply (proj1 (proj1 (reading_changes_no_file Sample.workspaceRoot (str "link.txt")
                           10 Sample.disk ltac:(vm_compute; reflexivity) ltac:(vm_compute; reflexivity))
                    (Fs.Dir
                       [(str "notes.txt", Fs.File (Utf8.encode (str "hello")));
                        (str "sub", Fs.Dir [(str "b.txt", Fs.File (Utf8.encode (str "b")))]);
                        (str "link.txt", Fs.Link [str "etc"; str "passwd"])])
                    ltac:(vm_compute; reflexivity))).
  - apply (proj2 (proj2 (reading_changes_no_file Sample.workspaceRoot (str "sub")
                           10 Sample.disk ltac:(vm_compute; reflexivity) ltac:(vm_compute; reflexivity))
                    [str "etc"; str "passwd"] ltac:(vm_compute; reflexivity))).
Defined.

Lemma write_stays_in_the_workspace_witness :
  Fs.locate
    (Fs.tree (snd (WorkspaceFS.writeText Sample.workspaceRoot (str "sub/new.txt")
                     (str "x") Sample.disk)))
    [str "etc"; str "passwd"]
  = Fs.locate (Fs.tree Sample.disk) [str "etc"; str "passwd"] /\
  Fs.locate
    (Fs.tree (snd (WorkspaceFS.writeText Sample.workspaceRoot (str "sub/new.txt")
                     (str "x") Sample.disk)))
    [str "srv"; str "data"; str "workspace"; str "notes.txt"]
  = Fs.locate (Fs.tree Sample.disk)
      [str "srv"; str "data"; str "workspace"; str "notes.txt"].
Proof.
  split.
  - apply (proj2 (write_stays_in_the_workspace Sample.workspaceRoot (str "sub/new.txt")
                    (str "x") Sample.disk ltac:(vm_compute; reflexivity) ltac:(vm_compute; reflexivity)
                    ltac:(intros tg; vm_compute; discriminate))
             [str "etc"; str "passwd"]
             ltac:(vm_compute; reflexivity) ltac:(vm_compute; reflexivity)).
  - apply (proj1 (write_stays_in_the_workspace Sample.workspaceRoot (str "sub/new.txt")
                    (str "x") Sample.disk ltac:(vm_compute; reflexivity) ltac:(vm_compute; reflexivity)
                    ltac:(intros tg; vm_compute; discriminate))
             [str "srv"; str "data"; str "workspace"; str "notes.txt"]
             ltac:(vm_compute; reflexivity) ltac:(vm_compute; reflexivity)).
Defined.

Lemma remove_stays_in_the_workspace_witness :
  Fs.locate
    (Fs.tree (snd (WorkspaceFS.remove Sample.workspaceRoot (str "sub") Sample.disk)))
    [str "srv"; str "data"; str "workspace"; str "notes.txt"]
  = Fs.locate (Fs.tree Sample.disk)
      [str "srv"; str "data"; str "workspace"; str "notes.txt"] /\
  Fs.locate
    (Fs.tree (snd (WorkspaceFS.remove Sample.workspaceRoot (str ".") Sample.disk)))
    [str "etc"; str "passwd"]
  = Fs.locate (Fs.tree Sample.disk) [str "etc"; str "passwd"].
Proof.
  split.
  - apply (proj1 (remove_stays_in_the_workspace Sample.workspaceRoot (str "sub")
                    Sample.disk ltac:(vm_compute; reflexivity) ltac:(vm_compute; reflexivity))
             [str "srv"; str "data"; str "workspace"; str "notes.txt"]
             ltac:(vm_compute; reflexivity) ltac:(vm_compute; reflexivity)).
  - apply (proj2 (remove_stays_in_the_workspace Sample.workspaceRoot (str ".")
                    Sample.disk ltac:(vm_compute; reflexivity) ltac:(vm_compute; reflexivity))
             [str "etc"; str "passwd"]
             ltac:(vm_compute; reflexivity) ltac:(vm_compute; reflexivity)).
Defined.

(* ================================================================== *)
(** * After a removal, after a write *)

Section Afterwards.

Import Fs Path WorkspaceFS Walk Shape.

Lemma del_keeps_dirs p : forall t n q x r,
  locate t p = inr n -> p = q ++ x :: r ->
  exists es, locate (del t p) q = inr (Dir es).
Proof.
  induction p as [|y p IH]; intros t n q x r Hl E.
  - destruct q; discriminate.
  - cbn [locate] in Hl. destruct t as [c|tg|es]; try discriminate.
    destruct (assoc y es) as [c|] eqn:Ea; [|discriminate].
    destruct q as [|z q].
    + destruct p; cbn [del]; rewrite ?Ea; cbn [locate]; eauto.
    + cbn [app] in E. injection E as -> ->.
      destruct (q ++ x :: r) as [|y' p'] eqn:Eq; [destruct q; discriminate|].
      cbn [del]. rewrite Ea. cbn [locate]. rewrite assoc_set_same.
      apply (IH c n q x r Hl). now rewrite Eq.
Qed.

(** [mkdir -p] makes a directory where nothing is and the way to it is
    one of directories. *)
Lemma mkdirp_fresh p : forall g here t,
  p <> [] ->
  locate t p = inl ENOENT ->
  (forall q x r, p = q ++ x :: r -> exists es, locate t q = inr (Dir es)) ->
  exists t' es', mkdirp g here t p = inr t' /\ locate t' p = inr (Dir es').
Proof.
  induction p as [|x p IH]; intros g here t Hp Hl Hd; [contradiction|].
  destruct (Hd [] x p eq_refl) as [es Hes]. cbn [locate] in Hes.
  injection Hes as ->. cbn [locate] in Hl. cbn [mkdirp].
  destruct p as [|y p].
  - destruct (assoc x es) as [c|] eqn:Ea; [discriminate|].
    cbn [mkdirp]. eexists. exists []. split; [reflexivity|].
    cbn [locate]. now rewrite assoc_set_same.
  - destruct (Hd [x] y p eq_refl) as [es1 Hes1]. cbn [locate] in Hes1.
    destruct (assoc x es) as [c|] eqn:Ea; [|discriminate].
    injection Hes1 as ->.
    destruct (IH g (here ++ [x]) (Dir es1) ltac:(discriminate) Hl) as [c' [es' [Hm Hl']]].
    { intros q x' r E. destruct (Hd (x :: q) x' r) as [es2 Hes2].
      - cbn [app]. now rewrite E.
      - cbn [locate] in Hes2. rewrite Ea in Hes2. eauto. }
    rewrite Hm. eexists. exists es'. split; [reflexivity|].
    cbn [locate]. now rewrite assoc_set_same.
Qed.

Lemma walk_clear t m rs down n :
  m <> ModeWrite ->
  Forall (fun x => is_name x = true) rs ->
  Forall (fun x => is_name x = true) down ->
  locate t rs = inr n -> (forall tg, n <> Link tg) ->
  scan t rs down = None ->
  walk t m rs (rs ++ down) = (Return (render (rs ++ down)), t).
Proof.
  intros Hm Hrs Hd Hr Hn Hs. unfold walk, prepare_root. rewrite Hr. rewrite Hr.
  rewrite parts_to_check_target by assumption. rewrite Hs.
  destruct n as [c|tg|es]; try reflexivity. now destruct (Hn tg).
Qed.

(** What a removal that returns leaves: nothing at the target, and a way
    to it on which the walk passes again. *)
Lemma after_remove ws u s s1 :
  remove ws u s = (Return tt, s1) ->
  well_formed (tree s) = true ->
  target_names s ws u <> [] ->
  rejected s ws u = None /\
  cwd_below s1 = cwd_below s /\
  locate (tree s1) (target_names s ws u) = inl ENOENT /\
  (target_names s ws u <> root_names s ws ->
   forall m, m <> ModeWrite ->
     walk (tree s1) m (root_names s ws) (target_names s ws u)
     = (Return (render (target_names s ws u)), tree s1)) /\
  (target_names s ws u = root_names s ws ->
   forall q x r, root_names s ws = q ++ x :: r ->
     exists es, locate (tree s1) q = inr (Dir es)).
Proof.
  intros H Hw Hne. unfold remove in H.
  apply bind_returns in H as [p [s0 [E H]]].
  destruct (ensure_returns _ _ _ _ _ _ E)
    as [Hrej [-> [Hc [Hprep [[n [Hroot Hnl]] Hscan]]]]].
  destruct (admitted_names s ws u Hrej) as [Hnr [down [Ets Hnd]]].
  assert (Hnt : Forall (fun x => is_name x = true) (target_names s ws u)).
  { rewrite Ets. apply Forall_app. now split. }
  assert (Hw0 : well_formed (tree s0) = true).
  { unfold prepare_root in Hprep.
    destruct (locate (tree s) (root_names s ws)).
    - now apply (mkdirp_well_formed _ _ _ _ _ Hprep).
    - injection Hprep as <-. exact Hw. }
  rewrite rm_render in H by assumption.
  rewrite Ets in Hscan.
  rewrite parts_to_check_target in Hscan by (assumption || discriminate).
  split; [exact Hrej|].
  destruct (locate (tree s0) (target_names s ws u)) as [e|k] eqn:El.
  - (* nothing was there *)
    destruct e; try discriminate. injection H as <-.
    cbn [cwd_below tree note]. split; [exact Hc|]. split; [exact El|]. split.
    + intros _ m Hm. rewrite Ets. now apply (walk_clear _ m _ down n).
    + intros Er. rewrite Er in El. congruence.
  - injection H as <-. cbn [cwd_below tree note with_tree].
    split; [exact Hc|].
    split; [now apply (del_gone _ _ k)|]. split.
    + intros Hd m Hm. rewrite Ets in *.
      destruct down as [|x r]; [now rewrite app_nil_r in Hd|].
      destruct (del_keeps_dirs _ (tree s0) k (root_names s ws) x r El eq_refl)
        as [es Hes].
      apply (walk_clear _ m _ (x :: r) (Dir es)); try assumption; [discriminate|].
      apply scan_clear; [assumption|].
      intros pre rest tg Ed Hpre Hl.
      destruct rest as [|y rest].
      * rewrite app_nil_r in Ed. subst pre.
        rewrite (del_gone _ _ k Hw0 Hne El) in Hl. discriminate.
      * destruct (del_keeps_dirs _ (tree s0) k (root_names s ws ++ pre) y rest El)
          as [es' Hes'].
        { rewrite Ed. now rewrite <- app_assoc. }
        rewrite Hes' in Hl. discriminate.
    + intros Er q x r Eq.
      apply (del_keeps_dirs _ (tree s0) k q x r); [exact El|].
      now rewrite Er.
Qed.

(** X6.  What [remove] has removed is gone, and removing it again is not
    an error.  Where [remove(p)] returns, in a tree whose directories list
    each name once, and [p] is not the top of the tree: nothing is at [p]
    afterwards, a second [remove(p)] returns, and [readText(p)] fails
    with [ENOENT] (for [p] below the workspace root). *)
Theorem removed_is_gone :
  forall ws u s s1,
    remove ws u s = (Return tt, s1) ->
    well_formed (tree s) = true ->
    target_names s ws u <> [] ->
    locate (tree s1) (target_names s ws u) = inl ENOENT /\
    fst (remove ws u s1) = Return tt /\
    (target_names s ws u <> root_names s ws ->
     forall n,
       fst (readText ws u n s1)
       = Throw (IOError ENOENT (str "open") (render (target_names s ws u)))).
Proof.
  intros ws u s s1 H Hw Hne.
  destruct (after_remove ws u s s1 H Hw Hne) as [Hrej [Hc [Hgone [Hbelow Hroot]]]].
  destruct (same_cwd s s1 ws u Hc) as [Hrej1 [Hrs1 Hts1]].
  destruct (admitted_names s ws u Hrej) as [Hnr [down [Ets Hnd]]].
  assert (Hnt : Forall (fun x => is_name x = true) (target_names s ws u)).
  { rewrite Ets. apply Forall_app. now split. }
  split; [exact Hgone|]. rewrite <- Hrej1 in Hrej. split.
  - destruct (ensure_walk ws u ModeDelete s1 Hrej) as [s2 [Hc2 [Ht2 E2]]].
    rewrite Hrs1, Hts1 in *.
    assert (Hwalk : fst (walk (tree s1) ModeDelete (root_names s ws) (target_names s ws u))
                    = Return (render (target_names s ws u)) /\
                    exists k,
                      locate (snd (walk (tree s1) ModeDelete (root_names s ws)
                                     (target_names s ws u)))
                        (target_names s ws u) = k /\
                      (k = inl ENOENT \/ exists node, k = inr node)).
    { destruct down as [|x r].
      - (* the root itself was removed: it is made again *)
        rewrite app_nil_r in Ets.
        destruct (mkdirp_fresh (root_names s ws) (tree s1) [] (tree s1))
          as [t' [es' [Hm Hl']]].
        + now rewrite <- Ets.
        + now rewrite <- Ets.
        + now apply Hroot.
        + rewrite Ets in Hgone |- *. unfold walk, prepare_root.
          rewrite Hgone, Hm. cbn [fst snd]. rewrite Hl'.
          pose proof (parts_to_check_target ModeDelete (root_names s ws) []
                        ltac:(discriminate) Hnr (Forall_nil _)) as Hp.
          rewrite app_nil_r in Hp. rewrite Hp. cbn [scan].
          split; [reflexivity|]. eexists. split; [reflexivity|]. right. eauto.
      - rewrite Hbelow; [|rewrite Ets; intros Ee;
          apply (f_equal (@length jsstring)) in Ee; rewrite length_app in Ee;
          cbn [length] in Ee; lia | discriminate].
        cbn [fst snd]. split; [reflexivity|]. eexists. split; [reflexivity|].
        now left. }
    destruct Hwalk as [Hf [k [Hk Hcase]]].
    unfold remove, bind. rewrite E2, Hf.
    rewrite rm_render by assumption. rewrite Ht2, Hk.
    destruct Hcase as [->|[node ->]]; reflexivity.
  - intros Hd n.
    destruct (ensure_walk ws u ModeRead s1 Hrej) as [s2 [Hc2 [Ht2 E2]]].
    rewrite Hrs1, Hts1 in *.
    rewrite (Hbelow Hd ModeRead ltac:(discriminate)) in *. cbn [fst snd] in *.
    unfold readText. rewrite (bind_run _ _ _ _ _ E2). unfold bind, readFile.
    change (tree (note (ReadFile (render (target_names s ws u))) s2)) with (tree s2).
    change (location (note (ReadFile (render (target_names s ws u))) s2)
              (render (target_names s ws u)))
      with (location s2 (render (target_names s ws u))).
    rewrite location_render by assumption. rewrite Ht2.
    rewrite follow_not_link by (intros tg; rewrite Hgone; discriminate).
    now rewrite Hgone.
Qed.

(** What a write that returns has done: put the file at the target. *)
Lemma write_returns ws u c s s1 :
  writeText ws u c s = (Return tt, s1) ->
  (forall tg, locate (tree s) (target_names s ws u) <> inr (Link tg)) ->
  rejected s ws u = None /\
  cwd_below s1 = cwd_below s /\
  exists t2, put t2 (target_names s ws u) (File (Utf8.encode c)) = inr (tree s1).
Proof.
  intros H Hnl. unfold writeText in H.
  apply bind_returns in H as [p [s0 [E H]]].
  apply bind_returns in H as [[] [sb [Hmk H]]].
  destruct (ensure_returns _ _ _ _ _ _ E) as [Hrej [-> [Hc [Hprep _]]]].
  destruct (admitted_names s ws u Hrej) as [Hnr [down [Ets Hnd]]].
  assert (Hnt : Forall (fun x => is_name x = true) (target_names s ws u)).
  { rewrite Ets. apply Forall_app. now split. }
  rewrite dirname_render in Hmk by assumption.
  rewrite mkdir_render in Hmk by now apply names_removelast.
  destruct (mkdirp (tree s0) [] (tree s0) (removelast (target_names s ws u)))
    as [e|t2] eqn:Emk; [discriminate|].
  injection Hmk as <-.
  assert (Hnl2 : forall tg, locate t2 (target_names s ws u) <> inr (Link tg)).
  { intros tg Hl. apply (mkdirp_no_new_link _ _ _ _ _ _ _ Emk) in Hl.
    apply (prepare_root_no_new_link _ _ _ _ _ Hprep) in Hl. now apply (Hnl tg). }
  rewrite writeFile_at in H by assumption.
  change (tree (with_tree t2 (note (Mkdir (render (removelast (target_names s ws u)))) s0)))
    with t2 in H.
  split; [exact Hrej|].
  destruct (locate t2 (target_names s ws u)) as [e|[b|tg|es]];
    try discriminate;
    (destruct (put t2 (target_names s ws u) (File (Utf8.encode c))) as [e'|t3] eqn:Ep;
     [discriminate|]);
    injection H as <-; (split; [exact Hc|]); exists t2; exact Ep.
Qed.

(** X7.  What has been written is listed.  Where [writeText(p, c)]
    returns, [p] not itself a symbolic link and below the workspace root,
    no link gone through on the way to the root and the names on the way
    to [p] plain, [listDir(".")] right after it returns a listing in which
    the first name of [p] below the root stands: as it is when [p] is
    that name, with a [/] after it when [p] goes on below it. *)
Theorem written_file_is_listed :
  forall ws u c s s1 x rest,
    Shape.no_link_above (tree s) (root_names s ws) = true ->
    forallb Shape.plain_name (target_names s ws u) = true ->
    writeText ws u c s = (Return tt, s1) ->
    (forall tg, locate (tree s) (target_names s ws u) <> inr (Link tg)) ->
    target_names s ws u = root_names s ws ++ x :: rest ->
    exists names,
      fst (listDir ws (str ".") s1) = Return names /\
      In (match rest with [] => x | _ => x ++ str "/" end) names.
Proof.
  intros ws u c s s1 x rest _ _ H Hnl Ets.
  destruct (write_returns ws u c s s1 H Hnl) as [Hrej [Hc [t2 Hput]]].
  destruct (same_cwd s s1 ws (str ".") Hc) as [_ [Hrs1 _]].
  destruct (dot_admitted s1 ws) as [Hdot Htdot].
  destruct (put_locate_prefix _ _ _ _ (root_names s ws) x rest Hput Ets) as [es Hes].
  assert (Hx : exists node,
            assoc x es = Some node /\
            match rest with [] => exists b, node = File b | _ => exists d, node = Dir d end).
  { destruct rest as [|y r].
    - pose proof (put_locate_same _ _ _ _ Hput) as Hl.
      rewrite Ets, locate_app, Hes in Hl. cbn [locate] in Hl.
      destruct (assoc x es) as [k|]; [|discriminate].
      exists k. split; [reflexivity|]. injection Hl as ->. eauto.
    - destruct (put_locate_prefix _ _ _ _ (root_names s ws ++ [x]) y r Hput)
        as [d Hd].
      { rewrite Ets. now rewrite <- app_assoc. }
      rewrite locate_app, Hes in Hd. cbn [locate] in Hd.
      destruct (assoc x es) as [k|]; [|discriminate].
      exists k. split; [reflexivity|]. injection Hd as ->. eauto. }
  destruct Hx as [node [Ha Hkind]].
  destruct (listDir_entries ws (str ".") s1 es Hdot) as [Hlist _].
  { now rewrite Htdot, Hrs1. }
  exists (map listed es). split; [exact Hlist|].
  apply assoc_In in Ha. apply (in_map listed) in Ha.
  destruct rest; destruct Hkind as [k ->]; exact Ha.
Qed.

End Afterwards.

Lemma removed_is_gone_witness :
  Fs.locate
    (Fs.tree (snd (WorkspaceFS.remove Sample.workspaceRoot (str "sub") Sample.disk)))
    [str "srv"; str "data"; str "workspace"; str "sub"]
  = inl ENOENT /\
  fst (WorkspaceFS.remove Sample.workspaceRoot (str "sub")
         (snd (WorkspaceFS.remove Sample.workspaceRoot (str "sub") Sample.disk)))
  = Return tt.
Proof.
  pose proof (removed_is_gone Sample.workspaceRoot (str "sub") Sample.disk
                (snd (WorkspaceFS.remove Sample.workspaceRoot (str "sub") Sample.disk))
                ltac:(vm_compute; reflexivity) ltac:(vm_compute; reflexivity)
                ltac:(vm_compute; discriminate)) as H.
  split; [exact (proj1 H) | exact (proj1 (proj2 H))].
Defined.

Lemma written_file_is_listed_witness :
  exists names,
    fst (WorkspaceFS.listDir Sample.workspaceRoot (str ".")
           (snd (WorkspaceFS.writeText Sample.workspaceRoot (str "new/a.txt")
                   (str "x") Sample.disk)))
    = Return names /\
    In (str "new/") names.
Proof.
  apply (written_file_is_listed Sample.workspaceRoot (str "new/a.txt") (str "x")
           Sample.disk
           (snd (WorkspaceFS.writeText Sample.workspaceRoot (str "new/a.txt")
                   (str "x") Sample.disk))
           (str "new") [str "a.txt"]).
  - vm_compute. reflexivity.
  - vm_compute. reflexivity.
  - vm_compute. reflexivity.
  - intros tg. vm_compute. discriminate.
  - vm_compute. reflexivity.
Defined.

(* ================================================================== *)
(** * The ledger as a map: the order of its entries *)

Section LedgerOrder.

Import ApprovalManager.
Variables A W : Type.

Implicit Types (m : t A W) (w : W) (i j k : jsstring).

(** X8.  The ledger lists its entries in the order of their submission.
    [add] under an id that is not pending puts the record last in
    [list()]; under an id that is pending it takes the place of the record
    of that id, so that [list()] is as long as it was; either way [get] of
    every other id returns what it did and the listeners are those
    registered. *)
Theorem submitted_requests_are_listed_in_order :
  forall m uuid now tool_ (args_ : A),
    let m1 := snd (add uuid now tool_ args_ m) in
    (get uuid m = None ->
       list m1 = list m ++ [mkPendingTool uuid tool_ args_ now]) /\
    (forall old, get uuid m = Some old ->
       map fst (pending m1) = map fst (pending m) /\
       length (list m1) = length (list m)) /\
    get uuid m1 = Some (mkPendingTool uuid tool_ args_ now) /\
    (forall j, streq j uuid = false -> get j m1 = get j m) /\
    listeners m1 = listeners m.
Proof.
  intros m uuid now tool_ args_ m1. unfold m1, add, get, list. cbn [snd pending listeners].
  split; [|split; [|split; [|split]]].
  - intros H. rewrite Map_set_fresh by assumption. rewrite map_app. reflexivity.
  - intros old H. pose proof (Map_set_pending A uuid (mkPendingTool uuid tool_ args_ now) old _ H) as E.
    split; [exact E|]. rewrite !length_map.
    rewrite <- (length_map fst (Map_set _ _ _)), E. apply length_map.
  - apply Map_get_set_same.
  - intros j Hj. now apply Map_get_set_other.
  - reflexivity.
Qed.

(** X9.  A resolution consumes the entry of its id and no other.  Where
    [i] is pending in a ledger that keeps every record under its id,
    [approve(i)] and [reject(i)] leave the same ledger: [list()] is what
    it was without the record of [i], the other records in their order;
    [get] of every other id returns what it did; the listeners stay
    registered. *)
Theorem resolution_consumes_one_entry :
  forall m w i (p : PendingTool A),
    keyed m ->
    get i m = Some p ->
    let m' := fst (snd (approve i (m, w))) in
    list m' = filter (fun q => negb (streq i (id q))) (list m) /\
    (forall j, streq j i = false -> get j m' = get j m) /\
    get i m' = None /\
    fst (snd (reject i (m, w))) = m' /\
    listeners m' = listeners m.
Proof.
  intros m w i p Hk Hp m'. unfold m', approve, reject, get, list in *.
  rewrite Hp. cbn [fst snd pending listeners].
  split; [|split; [|split; [|split]]].
  - now apply Map_delete_values.
  - intros j Hj. now apply Map_get_delete_other.
  - apply Map_get_delete_same.
  - reflexivity.
  - reflexivity.
Qed.

End LedgerOrder.

Lemma submitted_requests_are_listed_in_order_witness :
  ApprovalManager.list
    (snd (ApprovalManager.add (str "u-2") (str "t1") (str "file.delete") 8%nat
            (snd (ApprovalManager.add (str "u-1") (str "t0") (str "file.write") 7%nat
                    (ApprovalManager.new nat unit)))))
  = [ApprovalManager.mkPendingTool (str "u-1") (str "file.write") 7%nat (str "t0");
     ApprovalManager.mkPendingTool (str "u-2") (str "file.delete") 8%nat (str "t1")].
Proof.
  apply (proj1 (submitted_requests_are_listed_in_order nat unit
                  (snd (ApprovalManager.add (str "u-1") (str "t0") (str "file.write")
                          7%nat (ApprovalManager.new nat unit)))
                  (str "u-2") (str "t1") (str "file.delete") 8%nat)).
  reflexivity.
Defined.

Lemma resolution_consumes_one_entry_witness :
  ApprovalManager.list
    (fst (snd (ApprovalManager.approve (str "u-1")
      (snd (ApprovalManager.add (str "u-2") (str "t1") (str "file.delete") 8%nat
              (snd (ApprovalManager.add (str "u-1") (str "t0") (str "file.write") 7%nat
                      (ApprovalManager.new nat unit)))), tt))))
  = [ApprovalManager.mkPendingTool (str "u-2") (str "file.delete") 8%nat (str "t1")].
Proof.
  apply (proj1 (resolution_consumes_one_entry nat unit
                  (snd (ApprovalManager.add (str "u-2") (str "t1") (str "file.delete")
                          8%nat
                          (snd (ApprovalManager.add (str "u-1") (str "t0")
                                  (str "file.write") 7%nat
                                  (ApprovalManager.new nat unit)))))
                  tt (str "u-1")
                  (ApprovalManager.mkPendingTool (str "u-1") (str "file.write") 7%nat
                     (str "t0"))
                  ltac:(repeat constructor) ltac:(reflexivity))).
Defined.

(* ================================================================== *)
(** * What a request changes in the ledger *)

Section Requests.

Import Server.
Variable W : Type.
Variable ws : jsstring.

Local Notation pending_of w := (ApprovalManager.pending (approvalManager w)).
Local Notation lines_of w := (AuditLogger.lines (auditLogger w)).

(** What a request leaves of the ledger and of the audit trail. *)
Local Notation effect w r :=
  (ApprovalManager.listeners (approvalManager (snd r))
   = ApprovalManager.listeners (approvalManager w) /\
   (pending_of (snd r) = pending_of w
    \/ (exists i, pending_of (snd r) = ApprovalManager.Map_delete i (pending_of w))
    \/ (exists uuid now p c,
          is_empty p = false /\ Utf8.byteLength c <= MAX_WRITE_BYTES /\
          pending_of (snd r)
          = ApprovalManager.Map_set uuid
              (ApprovalManager.mkPendingTool uuid (str "file.write")
                 (mkArgs p (Some c)) now) (pending_of w))
    \/ (exists uuid now p,
          is_empty p = false /\
          pending_of (snd r)
          = ApprovalManager.Map_set uuid
              (ApprovalManager.mkPendingTool uuid (str "file.delete")
                 (mkArgs p None) now) (pending_of w))) /\
   (exists extra, lines_of (snd r) = lines_of w ++ extra /\ (length extra <= 1)%nat) /\
   AuditLogger.append_error (auditLogger (snd r))
   = AuditLogger.append_error (auditLogger w)).

Ltac unfold_calls :=
  unfold bind, ret, throw, on_fs, on_audit, on_approvals, log, add, draw_uuid,
    read_clock, AuditLogger.log, ApprovalManager.approve, ApprovalManager.reject,
    ApprovalManager.add, ApprovalManager.list, sendJson;
  cbn [fst snd fs approvalManager outside auditLogger randomUUID uuids_drawn
       toISOString clock_reads
       ApprovalManager.pending ApprovalManager.listeners
       AuditLogger.lines AuditLogger.append_error].

Ltac split_case :=
  match goal with
  | |- context [FileTools.list ?a ?b ?c] => destruct (FileTools.list a b c) as [? ?]
  | |- context [FileTools.read ?a ?b ?n ?c] => destruct (FileTools.read a b n c) as [? ?]
  | m : M Fs.state FileTools.FileToolResult |- context [?m' (fs ?w)] =>
      constr_eq m m'; destruct (m (fs w)) as [? ?]
  | |- context [if ?c then _ else _] => destruct c eqn:?
  | |- context [match ?x with _ => _ end] =>
      lazymatch x with
      | context [match _ with _ => _ end] => fail
      | _ => destruct x eqn:?
      end
  end.

Lemma present_path (o : option jsstring) :
  missing o = false -> is_empty (or_else o []) = false.
Proof. destruct o; [exact (fun H => H) | discriminate]. Qed.

Lemma not_gtb a b : (a >? b) = false -> a <= b.
Proof. rewrite Z.gtb_ltb. apply Z.ltb_ge. Qed.

Ltac ledger :=
  first
    [ left; reflexivity
    | right; left; eexists; reflexivity
    | right; right; left; do 4 eexists;
      (split; [apply present_path; eassumption|]);
      (split; [apply not_gtb; eassumption | reflexivity])
    | right; right; right; do 3 eexists;
      (split; [apply present_path; eassumption | reflexivity]) ].

Ltac trail :=
  first
    [ exists []; split; [now rewrite app_nil_r | cbn [length]; lia]
    | eexists [_]; split; [reflexivity | cbn [length]; lia] ].

Lemma route_effect d req (w : world W) : effect w (route ws d req w).
Proof.
  unfold route.
  repeat (first [progress unfold_calls | split_case]).
  all: split; [reflexivity|]; split; [ledger|]; split; [trail | congruence].
Qed.

Lemma handle_effect d req (w : world W) :
  (exists resp, fst (handle ws d req w) = Return resp) /\
  effect w (handle ws d req w).
Proof.
  unfold handle. destruct (method_eqb (r_method req) OPTIONS).
  - split; [eexists; reflexivity|]. cbn [ret fst snd].
    split; [reflexivity|]. split; [ledger|]. split; [trail | reflexivity].
  - pose proof (route_effect d req w) as H. unfold try_catch.
    destruct (route ws d req w) as [[resp|e] w']; cbn [ret fst snd] in *;
      (split; [eexists; reflexivity | exact H]).
Qed.

(** A request that is not one of [Routes.collaborator] is answered by the
    handler itself, not by one of the other parts. *)
Lemma answered_here d req (w : world W) resp :
  Routes.collaborator d req = false ->
  fst (handle ws d req w) = Return resp ->
  sent resp <> Collaborator.
Proof.
  unfold Routes.collaborator. intros H.
  repeat (apply orb_false_elim in H; destruct H as [H ?]).
  unfold handle, try_catch.
  destruct (method_eqb (r_method req) OPTIONS);
    [cbn [ret fst]; intros [= <-]; discriminate|].
  unfold route.
  repeat match goal with E : _ = false |- _ => rewrite E; clear E end.
  cbn [orb].
  repeat (first [progress unfold_calls | split_case]).
  all: cbn [fst]; intros [= <-]; discriminate.
Qed.

Lemma entries_set uuid (v : ApprovalManager.PendingTool tool_args)
    (mp : ApprovalManager.Map tool_args) :
  Queue.well_formed_entry v = true ->
  forallb Queue.well_formed_entry (map snd mp) = true ->
  forallb Queue.well_formed_entry (map snd (ApprovalManager.Map_set uuid v mp)) = true.
Proof.
  intros Hv. induction mp as [|[k' v'] mp IH]; cbn [ApprovalManager.Map_set map snd forallb].
  - intros _. now rewrite Hv.
  - intros H. apply andb_true_iff in H as [H0 H].
    destruct (streq uuid k'); cbn [map snd forallb].
    + now rewrite Hv, H.
    + rewrite H0. now apply IH.
Qed.

Lemma entries_delete i (mp : ApprovalManager.Map tool_args) :
  forallb Queue.well_formed_entry (map snd mp) = true ->
  forallb Queue.well_formed_entry (map snd (ApprovalManager.Map_delete i mp)) = true.
Proof.
  induction mp as [|[k' v'] mp IH]; [reflexivity|].
  unfold ApprovalManager.Map_delete in *. cbn [map snd forallb filter fst].
  intros H. apply andb_true_iff in H as [H0 H].
  destruct (streq i k'); cbn [negb map snd forallb]; [now apply IH|].
  rewrite H0. now apply IH.
Qed.

(** X11.  The ledger holds only what the write and delete endpoints put in
    it.  Where every pending record is kept under its id and is an entry
    as these endpoints make them (a path that is not empty; ["file.write"]
    with a content of at most 10 MiB, or ["file.delete"] without one),
    the same holds after any request to a route other than those of
    [Routes.collaborator], whatever the dependencies of the server; and
    for such an entry the approval has a tool to run:
    [fileTools.write] with the recorded path and content, or
    [fileTools.delete] with the recorded path. *)
Theorem ledger_holds_endpoint_entries :
  forall d req (w : world W),
    Routes.collaborator d req = false ->
    ApprovalManager.keyed (approvalManager w) ->
    forallb Queue.well_formed_entry (ApprovalManager.list (approvalManager w)) = true ->
    let w' := snd (handle ws d req w) in
    ApprovalManager.keyed (approvalManager w') /\
    forallb Queue.well_formed_entry (ApprovalManager.list (approvalManager w')) = true /\
    (forall p, In p (ApprovalManager.list (approvalManager w')) ->
       (exists c,
          content (ApprovalManager.args p) = Some c /\
          deferred ws p
          = Some (FileTools.write ws (path (ApprovalManager.args p)) c)) \/
       deferred ws p
       = Some (FileTools.delete ws (path (ApprovalManager.args p)))).
Proof.
  intros d req w _ Hk Hw w'.
  destruct (handle_effect d req w) as [_ [_ [Hp _]]]. fold w' in Hp.
  unfold ApprovalManager.keyed, ApprovalManager.list in *.
  assert (H : Forall (fun kv => ApprovalManager.id (snd kv) = fst kv) (pending_of w') /\
              forallb Queue.well_formed_entry (map snd (pending_of w')) = true).
  { destruct Hp as [->|[[i ->]|[[uuid [now [p [c [Hne [Hc ->]]]]]]|[uuid [now [p [Hne ->]]]]]]].
    - now split.
    - split; [now apply keyed_delete | now apply entries_delete].
    - split; [now apply keyed_set|]. apply entries_set; [|exact Hw].
      unfold Queue.well_formed_entry. cbn [ApprovalManager.args ApprovalManager.tool path content].
      rewrite Hne. cbn [negb andb]. rewrite streq_refl. cbn [andb].
      now apply Z.leb_le.
    - split; [now apply keyed_set|]. apply entries_set; [|exact Hw].
      unfold Queue.well_formed_entry. cbn [ApprovalManager.args ApprovalManager.tool path content].
      rewrite Hne. cbn [negb andb]. apply streq_refl. }
  destruct H as [Hk' Hw']. split; [exact Hk'|]. split; [exact Hw'|].
  intros p Hin. rewrite forallb_forall in Hw'. specialize (Hw' p Hin).
  unfold Queue.well_formed_entry in Hw'. apply andb_true_iff in Hw' as [_ Hw'].
  unfold deferred, write_pending.
  destruct (content (ApprovalManager.args p)) as [c|] eqn:Ec.
  - apply andb_true_iff in Hw' as [Ht _]. rewrite Ht. left. eauto.
  - right. apply streq_eq in Hw'. rewrite Hw'. reflexivity.
Qed.

End Requests.

Lemma ledger_holds_endpoint_entries_witness :
  forallb Queue.well_formed_entry
    (ApprovalManager.list
       (Server.approvalManager
          (snd (Server.handle Sample.workspaceRoot Server.main_deps
                  (Server.delete_request (Some (str "notes.txt")))
                  (Sample.world_pending true)))))
  = true.
Proof.
  apply (proj1 (proj2 (ledger_holds_endpoint_entries unit Sample.workspaceRoot
                         Server.main_deps
                         (Server.delete_request (Some (str "notes.txt")))
                         (Sample.world_pending true)
                         ltac:(reflexivity)
                         ltac:(repeat constructor) ltac:(reflexivity)))).
Defined.

(* ================================================================== *)
(** * The endpoints, one by one *)

Section EndpointsMore.

Import Server.
Variable W : Type.
Variable ws : jsstring.

Local Notation handle := (Server.handle (W := W) ws).
Local Notation not_found w :=
  (@Return response (mkResponse 404 (Text (str "Not Found"))), w).

Ltac enter :=
  unfold Server.handle, write_request, delete_request, list_request, read_request,
    approve_request, reject_request;
  cbn -[Utf8.byteLength MAX_WRITE_BYTES Z.gtb missing or_else FileTools.list
        FileTools.read split Server.deferred];
  unfold route;
  cbn -[Utf8.byteLength MAX_WRITE_BYTES Z.gtb missing or_else FileTools.list
        FileTools.read split Server.deferred].

Lemma world_same (w : world W) :
  mkWorld (fs w) (approvalManager w) (outside w) (auditLogger w)
    (randomUUID w) (uuids_drawn w) (toISOString w) (clock_reads w) = w.
Proof. now destruct w. Qed.

(** X12.  [list] and [read] requests run their tool at once.  With the
    dependencies of [main] and an audit trail that can be written, a list
    request is answered 200 with the result of [fileTools.list] on its
    path (["."] when the body has none), whether that result is
    [{ ok: true }] or [{ ok: false }]; the file system is as the tool
    leaves it, one audit line with the tool, the path and the outcome is
    added, and the ledger is as it was.  A read request does the same
    with [fileTools.read] (and a budget of 1,000,000 bytes when the body
    has none); without a path it is answered 400 and nothing is done. *)
Theorem list_and_read_run_at_once :
  forall (w : world W) (p : option jsstring) (n : option Z),
    AuditLogger.appendable (auditLogger w) = true ->
    (exists out,
       fst (FileTools.list ws (or_else p (str ".")) (fs w)) = Return out /\
       handle main_deps (list_request p) w
       = (Return (sendJson 200 (JsonResult out)),
          mkWorld (snd (FileTools.list ws (or_else p (str ".")) (fs w)))
            (approvalManager w) (outside w)
            (AuditLogger.mk
               (AuditLogger.lines (auditLogger w)
                ++ [AuditLogger.mkEntry (toISOString w (clock_reads w))
                      (str "file.list") (mkArgs (or_else p (str ".")) None)
                      (result_of out) (detail_of out)])
               None)
            (randomUUID w) (uuids_drawn w) (toISOString w) (S (clock_reads w)))) /\
    (missing p = true ->
       handle main_deps (read_request p n) w
       = (Return (sendJson 400 (JsonError (str "Missing path"))), w)) /\
    (forall q, p = Some q -> is_empty q = false ->
       let budget := match n with Some k => k | None => 1000000 end in
       exists out,
         fst (FileTools.read ws q budget (fs w)) = Return out /\
         handle main_deps (read_request p n) w
         = (Return (sendJson 200 (JsonResult out)),
            mkWorld (snd (FileTools.read ws q budget (fs w)))
              (approvalManager w) (outside w)
              (AuditLogger.mk
                 (AuditLogger.lines (auditLogger w)
                  ++ [AuditLogger.mkEntry (toISOString w (clock_reads w))
                        (str "file.read") (mkArgs q None)
                        (result_of out) (detail_of out)])
                 None)
              (randomUUID w) (uuids_drawn w) (toISOString w) (S (clock_reads w)))).
Proof.
  intros w p n Ha. split; [|split].
  - destruct (guarded_returns
                (WorkspaceFS.listDir ws
                   (if is_empty (or_else p (str ".")) then str "." else or_else p (str ".")))
                FileTools.Entries (fs w)) as [out Hout].
    exists out. split; [exact Hout|].
    enter. unfold try_catch, bind, on_fs. unfold FileTools.list in *.
    destruct (FileTools.guarded _ _ (fs w)) as [r f] eqn:E. cbn [fst snd] in *. subst r.
    rewrite log_run. cbn [auditLogger fs approvalManager outside randomUUID
                          uuids_drawn toISOString clock_reads].
    rewrite (appendable_true _ Ha). reflexivity.
  - intros Hp. enter. now rewrite Hp.
  - intros q -> Hq budget.
    destruct (guarded_returns (WorkspaceFS.readText ws q budget)
                FileTools.Text (fs w)) as [out Hout].
    exists out. split; [exact Hout|].
    enter. cbn [missing or_else]. rewrite Hq.
    unfold try_catch, bind, on_fs. unfold FileTools.read in *. fold budget.
    destruct (FileTools.guarded _ _ (fs w)) as [r f] eqn:E. cbn [fst snd] in *. subst r.
    rewrite log_run. cbn [auditLogger fs approvalManager outside randomUUID
                          uuids_drawn toISOString clock_reads].
    rewrite (appendable_true _ Ha). reflexivity.
Qed.

(** A request to the approvals of an id: what the route does with the
    parts of the path after the prefix. *)
Lemma approvals_route tail b (w : world W) :
  route ws main_deps (mkRequest POST (approvals_prefix ++ tail) b) w
  = (let parts := split Path.CHAR_FORWARD_SLASH tail in
     let i := or_else (nth_part parts 0) [] in
     let action := nth_part parts 1 in
     if is_empty i then ret (sendJson 400 (JsonError (str "Missing id")))
     else if match action with Some a => streq a (str "approve") | None => false end
     then
       (p <- on_approvals (ApprovalManager.approve i) ;;
        match p with
        | None => ret (sendJson 404 (JsonError (str "Not found")))
        | Some p =>
            match deferred ws p with
            | Some call =>
                out <- on_fs call ;;
                log (ApprovalManager.tool p) (ApprovalManager.args p)
                    (result_of out) (detail_of out) ;;
                ret (sendJson 200 (JsonResult out))
            | None => ret (sendJson 400 (JsonError (str "Unknown tool")))
            end
        end)%js
     else if match action with Some a => streq a (str "reject") | None => false end
     then (r <- on_approvals (ApprovalManager.reject i) ;;
           ret (sendJson 200 (JsonRejected r)))%js
     else ret (mkResponse 404 (Text (str "Not Found")))) w.
Proof.
  unfold route. cbn -[split Server.deferred]. reflexivity.
Qed.

Lemma split_head c i rest :
  forallb (fun d => negb (d =? c)) i = true ->
  split c (i ++ c :: rest) = i :: split c rest.
Proof. intros H. now rewrite split_app, (split_name _ _ H). Qed.

(** X13.  The paths of the approvals endpoint.  With the dependencies of
    [main]: a [POST] under [/api/approvals/] with no id is answered 400
    ["Missing id"]; with an id and no action, or an action that is neither
    [approve] nor [reject], it is answered 404 and nothing is changed;
    whatever follows the action in the path is not read, so that
    [/api/approvals/<id>/approve/<more>] approves as
    [/api/approvals/<id>/approve] does; the body of the request is not
    read either. *)
Theorem approvals_endpoint_reads_two_segments :
  forall (w : world W) (i : jsstring) (b : body),
    url_segment i = true ->
    (forall tail,
       handle main_deps (mkRequest POST (approvals_prefix ++ str "/" ++ tail) b) w
       = (Return (sendJson 400 (JsonError (str "Missing id"))), w)) /\
    handle main_deps (mkRequest POST approvals_prefix b) w
    = (Return (sendJson 400 (JsonError (str "Missing id"))), w) /\
    handle main_deps (mkRequest POST (approvals_prefix ++ i) b) w = not_found w /\
    (forall action more,
       Path.no_slash action = true ->
       streq action (str "approve") = false ->
       streq action (str "reject") = false ->
       handle main_deps
         (mkRequest POST (approvals_prefix ++ i ++ str "/" ++ action) b) w
       = not_found w /\
       handle main_deps
         (mkRequest POST
            (approvals_prefix ++ i ++ str "/" ++ action ++ str "/" ++ more) b) w
       = not_found w) /\
    (forall more,
       handle main_deps
         (mkRequest POST (approvals_prefix ++ i ++ str "/approve/" ++ more) b) w
       = handle main_deps (approve_request i) w /\
       handle main_deps
         (mkRequest POST (approvals_prefix ++ i ++ str "/reject/" ++ more) b) w
       = handle main_deps (reject_request i) w).
Proof.
  intros w i b Hi.
  apply andb_true_iff in Hi as [Hne Hsl]. apply negb_true_iff in Hne.
  assert (Hhandle : forall tail b',
            handle main_deps (mkRequest POST (approvals_prefix ++ tail) b') w
            = try_catch (route ws main_deps (mkRequest POST (approvals_prefix ++ tail) b'))
                (fun e => ret (sendJson 500 (JsonError (message e)))) w)
    by reflexivity.
  change Path.CHAR_FORWARD_SLASH with 47 in *.
  split; [|split; [|split; [|split]]].
  - intros tail. rewrite Hhandle. unfold try_catch. rewrite approvals_route.
    change Path.CHAR_FORWARD_SLASH with 47.
    change (str "/" ++ tail) with ([] ++ 47 :: tail).
    rewrite split_head by reflexivity. reflexivity.
  - rewrite <- (app_nil_r approvals_prefix) at 1. rewrite Hhandle.
    unfold try_catch. rewrite approvals_route. reflexivity.
  - rewrite Hhandle. unfold try_catch. rewrite approvals_route.
    change Path.CHAR_FORWARD_SLASH with 47.
    rewrite (split_name _ _ Hsl). cbn [nth_part nth_error or_else]. rewrite Hne.
    reflexivity.
  - intros action more Ha Hap Hrj. unfold Path.no_slash in Ha.
    change Path.CHAR_FORWARD_SLASH with 47 in Ha.
    split.
    + rewrite Hhandle. unfold try_catch. rewrite approvals_route.
      change Path.CHAR_FORWARD_SLASH with 47.
      change (str "/" ++ action) with (47 :: action).
      rewrite split_head by exact Hsl. rewrite (split_name _ _ Ha).
      cbn [nth_part nth_error or_else]. rewrite Hne, Hap, Hrj. reflexivity.
    + rewrite Hhandle. unfold try_catch. rewrite approvals_route.
      change Path.CHAR_FORWARD_SLASH with 47.
      change (str "/" ++ action ++ str "/" ++ more)
        with (47 :: action ++ 47 :: more).
      rewrite split_head by exact Hsl. rewrite split_head by exact Ha.
      cbn [nth_part nth_error or_else]. rewrite Hne, Hap, Hrj. reflexivity.
  - intros more. unfold approve_request, reject_request.
    rewrite !Hhandle. unfold try_catch. rewrite !approvals_route.
    change Path.CHAR_FORWARD_SLASH with 47.
    change (str "/approve/" ++ more) with (47 :: str "approve" ++ 47 :: more).
    change (str "/reject/" ++ more) with (47 :: str "reject" ++ 47 :: more).
    change (str "/approve") with (47 :: str "approve").
    change (str "/reject") with (47 :: str "reject").
    rewrite !(split_head _ i) by exact Hsl.
    rewrite !(split_head _ (str "approve")) by reflexivity.
    rewrite !(split_head _ (str "reject")) by reflexivity.
    rewrite (split_name _ (str "approve")) by reflexivity.
    rewrite (split_name _ (str "reject")) by reflexivity.
    cbn [nth_part nth_error or_else]. split; reflexivity.
Qed.

(** X14.  An endpoint that lacks a dependency answers 404.  A server made
    without the file tools answers 404 to the list, read, write, delete,
    approve and reject requests; one made without the approval manager
    answers 404 to the write, delete, approve and reject requests and to
    the listing of the pending entries; one made without the audit logger
    answers 404 to the approve and reject requests, while it still takes a
    write request and puts its record in the ledger.  A request answered
    404 changes nothing. *)
Theorem endpoints_need_their_dependencies :
  forall d (w : world W) (p c : option jsstring) (n : option Z) (i : jsstring)
         (b : body),
    (fileTools d = false ->
       handle d (list_request p) w = not_found w /\
       handle d (read_request p n) w = not_found w /\
       handle d (write_request p c) w = not_found w /\
       handle d (delete_request p) w = not_found w /\
       handle d (approve_request i) w = not_found w /\
       handle d (reject_request i) w = not_found w) /\
    (has_approvalManager d = false ->
       handle d (write_request p c) w = not_found w /\
       handle d (delete_request p) w = not_found w /\
       handle d (approve_request i) w = not_found w /\
       handle d (reject_request i) w = not_found w /\
       handle d (mkRequest GET (str "/api/approvals") b) w = not_found w) /\
    (has_auditLogger d = false ->
       handle d (approve_request i) w = not_found w /\
       handle d (reject_request i) w = not_found w /\
       (fileTools d = true -> has_approvalManager d = true ->
        forall q content_,
          is_empty q = false ->
          Utf8.byteLength content_ <= MAX_WRITE_BYTES ->
          handle d (write_request (Some q) (Some content_)) w
          = (Return (sendJson 200
                       (JsonPending (randomUUID w (uuids_drawn w))
                          (str "Approval required"))),
             mkWorld (fs w)
               (snd (ApprovalManager.add (randomUUID w (uuids_drawn w))
                       (toISOString w (clock_reads w)) (str "file.write")
                       (mkArgs q (Some content_)) (approvalManager w)))
               (outside w) (auditLogger w)
               (randomUUID w) (S (uuids_drawn w)) (toISOString w)
               (S (clock_reads w))))).
Proof.
  intros [ft al am se] w p c n i b. cbn [fileTools has_approvalManager has_auditLogger].
  split; [|split].
  - intros ->. repeat split; enter; destruct al, am, se; reflexivity.
  - intros ->. repeat split; enter; destruct ft, al, se; reflexivity.
  - intros ->. split; [|split].
    + enter; destruct ft, am, se; reflexivity.
    + enter; destruct ft, am, se; reflexivity.
    + intros -> -> q content_ Hq Hc. enter. cbn [missing or_else]. rewrite Hq.
      destruct (Z.gtb_spec (Utf8.byteLength content_) MAX_WRITE_BYTES); [lia|].
      reflexivity.
Qed.


End EndpointsMore.

Lemma list_and_read_run_at_once_witness :
  Server.handle Sample.workspaceRoot Server.main_deps
    (Server.read_request None None) (Sample.world true)
  = (Return (Server.sendJson 400 (Server.JsonError (str "Missing path"))),
     Sample.world true).
Proof.
  apply (proj1 (proj2 (list_and_read_run_at_once unit Sample.workspaceRoot
                         (Sample.world true) None None eq_refl))).
  reflexivity.
Defined.

Lemma approvals_endpoint_reads_two_segments_witness :
  Server.handle Sample.workspaceRoot Server.main_deps
    (Server.mkRequest Server.POST (str "/api/approvals/uuid-0/approve/again")
       (Server.mkBody None None None))
    (Sample.world_pending true)
  = Server.handle Sample.workspaceRoot Server.main_deps
      (Server.approve_request (str "uuid-0")) (Sample.world_pending true).
Proof.
  apply (proj1 (proj2 (proj2 (proj2 (proj2
           (approvals_endpoint_reads_two_segments unit Sample.workspaceRoot
              (Sample.world_pending true) (str "uuid-0")
              (Server.mkBody None None None) eq_refl)))) (str "again"))).
Defined.

Lemma endpoints_need_their_dependencies_witness :
  Server.handle Sample.workspaceRoot (Server.mkDeps true false true true)
    (Server.approve_request (str "uuid-0")) (Sample.world_pending true)
  = (Return (Server.mkResponse 404 (Server.Text (str "Not Found"))),
     Sample.world_pending true).
Proof.
  apply (proj1 (proj2 (proj2
           (endpoints_need_their_dependencies unit Sample.workspaceRoot
              (Server.mkDeps true false true true) (Sample.world_pending true)
              None None None (str "uuid-0") (Server.mkBody None None None)))
           eq_refl)).
Defined.


(* ================================================================== *)
(** * The data directory *)

Section DataDirectory.

Import Fs Path WorkspaceFS Walk.

Lemma is_prefix_after (l a b : list jsstring) :
  is_prefix (l ++ a) (l ++ b) = is_prefix a b.
Proof.
  induction l as [|x l IH]; [reflexivity|].
  cbn [app is_prefix]. now rewrite streq_refl.
Qed.

(** The data directory and what is in it, as lists of names. *)
Lemma data_names e s :
  exists dn,
    Forall (fun x => is_name x = true) dn /\
    Config.dataDir e (cwd s) = render dn /\
    root_names s (Config.workspaceRoot e (cwd s)) = dn ++ [str "workspace"] /\
    forall name, is_name name = true ->
      location s (Config.data_file e (cwd s) name) = dn ++ [name].
Proof.
  unfold Config.workspaceRoot, Config.data_file, Config.dataDir, root_names, cwd.
  rewrite resolve_canon.
  set (dn := canon _). exists dn.
  assert (Hdn : Forall (fun x => is_name x = true) dn) by apply canon_names.
  assert (Hjoin : forall name, is_name name = true ->
            join_paths [render dn; name] = render (dn ++ [name]) /\
            Forall (fun x => is_name x = true) (dn ++ [name])).
  { intros name Hn. rewrite join_paths_render;
      [|assumption | now apply is_name_no_slash | now apply is_name_nonempty].
    rewrite below_name by assumption. split; [reflexivity|].
    apply Forall_app. split; [assumption|]. now constructor. }
  split; [exact Hdn|]. split; [reflexivity|]. split.
  - destruct (Hjoin (str "workspace") eq_refl) as [-> Hn].
    rewrite resolve_render by assumption. now apply segments_render.
  - intros name Hn. destruct (Hjoin name Hn) as [-> Hn'].
    now apply location_render.
Qed.

(** X16.  The files of the data directory are out of reach of the file
    tools.  With the workspace root that [loadConfig] computes, the
    directory [workspace] of the data directory, whatever [DATA_DIR] is:
    a file or directory [path.join(dataDir, name)] with another name than
    [workspace] (the audit trail, the tasks and runs of the scheduler, the
    processed keys, the conversations), and everything below it, is left
    as it is by [remove], and by [writeText] to a path that is not itself a
    symbolic link, whatever they return or throw. *)
Theorem data_files_are_out_of_reach :
  forall e s u c name rest,
    is_name name = true ->
    streq name (str "workspace") = false ->
    let ws := Config.workspaceRoot e (cwd s) in
    let f := location s (Config.data_file e (cwd s) name) in
    root_names s ws
    = segments (Config.dataDir e (cwd s)) ++ [str "workspace"] /\
    f = segments (Config.dataDir e (cwd s)) ++ [name] /\
    locate (tree (snd (remove ws u s))) (f ++ rest) = locate (tree s) (f ++ rest) /\
    ((forall tg, locate (tree s) (target_names s ws u) <> inr (Link tg)) ->
     locate (tree (snd (writeText ws u c s))) (f ++ rest)
     = locate (tree s) (f ++ rest)).
Proof.
  intros e s u c name rest Hn Hw ws f.
  destruct (data_names e s) as [dn [Hdn [Hd [Hr Hf]]]].
  unfold f, ws. rewrite Hr, (Hf name Hn), Hd.
  rewrite segments_render by assumption.
  assert (H1 : is_prefix ((dn ++ [name]) ++ rest) (dn ++ [str "workspace"]) = false).
  { rewrite <- app_assoc, is_prefix_after. cbn [app is_prefix]. now rewrite Hw. }
  assert (H2 : is_prefix (dn ++ [str "workspace"]) ((dn ++ [name]) ++ rest) = false).
  { rewrite <- app_assoc, is_prefix_after. cbn [app is_prefix].
    now rewrite streq_sym, Hw. }
  split; [reflexivity|]. split; [reflexivity|]. split.
  - apply remove_outside; now rewrite Hr.
  - intros Hnl. apply write_outside; [exact Hnl | now rewrite Hr | now rewrite Hr].
Qed.

End DataDirectory.

Lemma data_files_are_out_of_reach_witness :
  Walk.root_names Sample.disk (Config.workspaceRoot [] (Fs.cwd Sample.disk))
  = [str "srv"; str "data"; str "workspace"] /\
  Fs.location Sample.disk (Config.data_file [] (Fs.cwd Sample.disk) (str "audit.jsonl"))
  = [str "srv"; str "data"; str "audit.jsonl"].
Proof.
  pose proof (data_files_are_out_of_reach [] Sample.disk (str "../audit.jsonl")
                (str "x") (str "audit.jsonl") []
                ltac:(reflexivity) ltac:(reflexivity)) as H.
  split; [exact (proj1 H) | exact (proj1 (proj2 H))].
Defined.

(* ================================================================== *)
(** * The processed keys *)

Section Processed.

Import ProcessedStore.

Lemma Set_has_app k (s1 s2 : list jsstring) :
  Set_has k (s1 ++ s2) = Set_has k s1 || Set_has k s2.
Proof. apply existsb_app. Qed.

Lemma Set_has_add k j (s : list jsstring) :
  Set_has j (Set_add k s) = Set_has j s || streq j k.
Proof.
  unfold Set_add. destruct (Set_has k s) eqn:E.
  - destruct (streq j k) eqn:Ej; [|now rewrite orb_false_r].
    apply streq_eq in Ej. subst j. now rewrite E.
  - rewrite Set_has_app. cbn [Set_has existsb]. now rewrite orb_false_r.
Qed.

Lemma lines_appended now k p :
  lines (mk (Set_add k (seen p))
           (Some (append match file p with
                         | Some x => x
                         | None => mkText [] None
                         end (mkLine k now)))
           (append_error p))
  = match file p with
    | Some x =>
        match tail x with
        | None => lines p ++ [Some (mkLine k now)]
        | Some o => closed x ++ [with_appended o (mkLine k now)]
        end
    | None => [Some (mkLine k now)]
    end.
Proof.
  unfold lines, read_lines, append. cbn [file].
  destruct (file p) as [x|]; cbn [tail closed]; [|reflexivity].
  destruct (tail x); cbn [tail closed]; now rewrite !app_nil_r.
Qed.

(** X17.  A key that has been added is seen, whether or not its line could
    be written.  After [add(key)], [has(key)] is true and [has] of every
    other key is what it was.  [add] of a key that is seen returns and
    changes nothing.  [add] of a new key, where the file can be appended
    to, leaves a text that ends with a line feed: with one more line, of
    the key and the time, where the text was not there, was empty or
    ended with a line feed; where its last line was open, the record is
    written at the end of that line, and no line is added.  Where the
    file cannot be appended to, [add] throws what [fs.appendFile] throws,
    the key is seen all the same, and a later [add] of it returns without
    writing. *)
Theorem added_keys_are_seen :
  forall now k p,
    has k (snd (add now k p)) = true /\
    (forall j, streq j k = false -> has j (snd (add now k p)) = has j p) /\
    (has k p = true -> add now k p = (Return tt, p)) /\
    (has k p = false -> append_error p = None ->
       fst (add now k p) = Return tt /\
       terminated (snd (add now k p)) = true /\
       (terminated p = true ->
          lines (snd (add now k p)) = lines p ++ [Some (mkLine k now)]) /\
       (forall x o, file p = Some x -> tail x = Some o ->
          lines p = closed x ++ [as_it_stands o] /\
          lines (snd (add now k p))
          = closed x ++ [with_appended o (mkLine k now)])) /\
    (forall e, has k p = false -> append_error p = Some e ->
       fst (add now k p) = Throw e /\
       file (snd (add now k p)) = file p /\
       forall later,
         add later k (snd (add now k p)) = (Return tt, snd (add now k p))).
Proof.
  intros now k p. unfold has, add.
  destruct (Set_has k (seen p)) eqn:Ek.
  - cbn [snd]. repeat split; try congruence; discriminate.
  - assert (Hk : Set_has k (Set_add k (seen p)) = true)
      by (rewrite Set_has_add, streq_refl; apply orb_true_r).
    assert (Hj : forall j, streq j k = false ->
              Set_has j (Set_add k (seen p)) = Set_has j (seen p))
      by (intros j Hj; rewrite Set_has_add, Hj; apply orb_false_r).
    destruct (append_error p) as [e0|] eqn:Ea; cbn [fst snd seen];
      (split; [exact Hk|]); (split; [exact Hj|]);
      (split; [discriminate|]); split; try discriminate.
    + intros e _ [= <-]. split; [reflexivity|]. split; [reflexivity|].
      intros later. cbn [seen]. now rewrite Hk.
    + intros _ _. split; [reflexivity|]. rewrite <- Ea, lines_appended.
      split; [|split].
      * unfold terminated, append. cbn [file].
        destruct (file p) as [x|]; [destruct (tail x)|]; reflexivity.
      * unfold terminated, lines. destruct (file p) as [x|]; [|reflexivity].
        destruct (tail x); [discriminate | reflexivity].
      * intros x o Ex Eo. unfold lines, read_lines. rewrite Ex, Eo. split; reflexivity.
Qed.

Lemma load_line_keeps (ls : list (option line)) : forall s k,
  Set_has k s = true -> Set_has k (fold_left load_line ls s) = true.
Proof.
  induction ls as [|[x|] ls IH]; intros s k H; cbn [fold_left load_line];
    [exact H | | now apply IH].
  apply IH. rewrite Set_has_add, H. reflexivity.
Qed.

Lemma loaded_keys (ls : list (option line)) : forall s l,
  In (Some l) ls -> Set_has (key l) (fold_left load_line ls s) = true.
Proof.
  induction ls as [|l0 ls IH]; intros s l Hin; [contradiction|].
  cbn [fold_left]. destruct Hin as [->|Hin]; [|now apply IH].
  apply load_line_keeps. cbn [load_line].
  rewrite Set_has_add, streq_refl. apply orb_true_r.
Qed.

Lemma keys_In k p :
  In k (keys p) <-> exists l, In (Some l) (lines p) /\ key l = k.
Proof.
  unfold keys. rewrite in_flat_map. split.
  - intros [[x|] [Hin Hk]]; [|contradiction].
    destruct Hk as [<-|[]]. eauto.
  - intros [l [Hin <-]]. exists (Some l). split; [exact Hin | now left].
Qed.

(** X18.  No key is written twice.  [load] returns and leaves the file as
    it is; once a file that is there has been loaded, every key that a
    line of the file holds is seen, whatever other lines the file holds;
    where the file is not there, [load] does nothing.  And for a file
    that is not there, is empty or ends with a line feed: where every
    key of the file is seen and no two lines hold the same key, this is
    so after [add] as well, whatever it returns or throws, and the file
    ends with a line feed still. *)
Theorem no_key_is_written_twice :
  forall now k p,
    fst (load p) = Return tt /\
    file (snd (load p)) = file p /\
    (forall j, In j (keys p) -> has j (snd (load p)) = true) /\
    (forall j, has j p = true -> has j (snd (load p)) = true) /\
    (file p = None -> load p = (Return tt, p)) /\
    (terminated p = true ->
     (forall j, In j (keys p) -> has j p = true) ->
     NoDup (keys p) ->
     terminated (snd (add now k p)) = true /\
     (forall j, In j (keys (snd (add now k p))) ->
        has j (snd (add now k p)) = true) /\
     NoDup (keys (snd (add now k p)))).
Proof.
  intros now k p. split; [|split; [|split; [|split; [|split]]]].
  - unfold load. now destruct (file p).
  - unfold load. destruct (file p) eqn:E; cbn [snd file]; congruence.
  - intros j Hj. apply keys_In in Hj as [l [Hin <-]].
    unfold load, lines, has in *. destruct (file p) as [x|]; [|contradiction].
    cbn [snd seen]. now apply loaded_keys.
  - intros j Hj. unfold load, has in *. destruct (file p) as [x|]; [|exact Hj].
    cbn [snd seen]. now apply load_line_keeps.
  - intros E. unfold load. now rewrite E.
  - intros Ht Hseen Hnd. unfold add, has in *.
    destruct (Set_has k (seen p)) eqn:Ek; [now repeat split|].
    destruct (append_error p) as [e|] eqn:Ea; cbn [snd seen].
    + split; [exact Ht|]. split; [|exact Hnd].
      intros j Hj. rewrite Set_has_add, (Hseen j Hj). reflexivity.
    + assert (El : lines (mk (Set_add k (seen p))
                            (Some (append match file p with
                                          | Some x => x
                                          | None => mkText [] None
                                          end (mkLine k now))) None)
                   = lines p ++ [Some (mkLine k now)]).
      { rewrite <- Ea, lines_appended. unfold terminated, lines in *.
        destruct (file p) as [x|]; [|reflexivity].
        destruct (tail x); [discriminate | reflexivity]. }
      assert (Ek' : keys (mk (Set_add k (seen p))
                            (Some (append match file p with
                                          | Some x => x
                                          | None => mkText [] None
                                          end (mkLine k now))) None)
                    = keys p ++ [k]).
      { unfold keys at 1. rewrite El, flat_map_app. reflexivity. }
      split.
      { unfold terminated, append. cbn [file].
        destruct (file p) as [x|]; [destruct (tail x)|]; reflexivity. }
      rewrite Ek'. split.
      * intros j Hj. apply in_app_or in Hj as [Hj|[<-|[]]].
        -- rewrite Set_has_add, (Hseen j Hj). reflexivity.
        -- rewrite Set_has_add, streq_refl. apply orb_true_r.
      * apply NoDup_app; [exact Hnd | repeat constructor; intros [] |].
        intros a Ha [Ea'|[]]. subst a. specialize (Hseen k Ha). congruence.
Qed.

End Processed.

Lemma added_keys_are_seen_witness :
  ProcessedStore.add (str "t1") (str "msg-1")
    (snd (ProcessedStore.add (str "t0") (str "msg-1")
            (ProcessedStore.mk [] None (Some (IOError EISDIR (str "open") (str "inbox_processed.jsonl"))))))
  = (Return tt,
     snd (ProcessedStore.add (str "t0") (str "msg-1")
            (ProcessedStore.mk [] None (Some (IOError EISDIR (str "open") (str "inbox_processed.jsonl")))))).
Proof.
  apply (proj2 (proj2 (proj2 (proj2 (proj2 (proj2
           (added_keys_are_seen (str "t0") (str "msg-1")
              (ProcessedStore.mk [] None (Some (IOError EISDIR (str "open") (str "inbox_processed.jsonl"))))))))
           (IOError EISDIR (str "open") (str "inbox_processed.jsonl")) eq_refl eq_refl)) (str "t1")).
Defined.

Lemma no_key_is_written_twice_witness :
  NoDup (ProcessedStore.keys
           (snd (ProcessedStore.add (str "t1") (str "msg-2")
                   (ProcessedStore.mk [str "msg-1"]
                      (Some (ProcessedStore.mkText
                               [None; Some (ProcessedStore.mkLine (str "msg-1") (str "t0"))]
                               None))
                      None)))).
Proof.
  apply (proj2 (proj2 (proj2 (proj2 (proj2 (proj2 (proj2
           (no_key_is_written_twice (str "t1") (str "msg-2")
              (ProcessedStore.mk [str "msg-1"]
                 (Some (ProcessedStore.mkText
                          [None; Some (ProcessedStore.mkLine (str "msg-1") (str "t0"))]
                          None))
                 None))))))
           eq_refl
           ltac:(intros j [<-|[]]; reflexivity)
           ltac:(repeat constructor; intros [])))).
Defined.

(* ================================================================== *)
(** * The scheduler: the tasks of the engine, the runs of the runner *)

Section Engine.

Import Scheduler.

Lemma update_at_ids n f (l : list Task) :
  (forall t, id (f t) = id t) -> map id (update_at n f l) = map id l.
Proof.
  intros Hf. revert n. induction l as [|t l IH]; intros n; [now destruct n|].
  destruct n; cbn [update_at map]; [now rewrite Hf | now rewrite IH].
Qed.

Lemma update_at_found i r (l : list Task) n :
  findIndex i l = Some n ->
  exists before t after,
    l = before ++ t :: after /\
    length before = n /\
    id t = i /\
    Forall (fun t' => id t' <> i) before /\
    update_at n (set_lastRun r) l = before ++ set_lastRun r t :: after.
Proof.
  revert n. induction l as [|t l IH]; intros n; cbn [findIndex]; [discriminate|].
  destruct (streq (id t) i) eqn:E.
  - intros [= <-]. exists [], t, l. apply streq_eq in E. now repeat split.
  - destruct (findIndex i l) as [k|]; [|discriminate]. intros [= <-].
    destruct (IH k eq_refl) as [before [t0 [after [-> [Hlen [Hid [Hb Hu]]]]]]].
    exists (t :: before), t0, after. cbn [app length update_at].
    rewrite Hu, Hlen. repeat split; try assumption.
    constructor; [|exact Hb]. intros Heq. rewrite Heq, streq_refl in E. discriminate.
Qed.

Lemma findIndex_none i (l : list Task) :
  findIndex i l = None -> Forall (fun t => id t <> i) l.
Proof.
  induction l as [|t l IH]; cbn [findIndex]; [constructor|].
  destruct (streq (id t) i) eqn:E; [discriminate|].
  destruct (findIndex i l); [discriminate|]. intros _.
  constructor; [|now apply IH]. intros Heq. rewrite Heq, streq_refl in E. discriminate.
Qed.

(** X19.  The tasks of the engine.  [addTask] puts the task last in
    [getTasks()], its [createdAt] and [updatedAt] set to the time of the
    call, whether or not [tasks.json] can be written: where it can, the
    file holds the tasks of the engine afterwards and the task is
    returned; where it cannot, [addTask] throws and the task is in the
    engine all the same.  [setLastRun] on an id that no task has changes
    nothing and writes nothing; on an id that a task has it sets
    [lastRun] of the first task of that id and of no other, and the
    tasks keep their ids and their order. *)
Theorem engine_keeps_its_tasks :
  forall now task g,
    let t := mkTask (id task) (cron task) (timezone task) (action task)
               (enabled task) (lastRun task) (Some now) (Some now) in
    getTasks (snd (addTask now task g)) = getTasks g ++ [t] /\
    (tasks_error g = None ->
       fst (addTask now task g) = Return t /\
       tasks_file (snd (addTask now task g)) = Some (getTasks g ++ [t])) /\
    (forall e, tasks_error g = Some e ->
       fst (addTask now task g) = Throw e /\
       tasks_file (snd (addTask now task g)) = tasks_file g) /\
    (forall i r,
       Forall (fun t' => id t' <> i) (getTasks g) ->
       setLastRun i r g = (Return tt, g)) /\
    (forall i r before t0 after,
       getTasks g = before ++ t0 :: after ->
       id t0 = i ->
       Forall (fun t' => id t' <> i) before ->
       getTasks (snd (setLastRun i r g)) = before ++ set_lastRun r t0 :: after /\
       map id (getTasks (snd (setLastRun i r g))) = map id (getTasks g)).
Proof.
  intros now task g t. unfold getTasks.
  split; [|split; [|split; [|split]]].
  - unfold addTask, bind, save, with_tasks. cbn [tasks_error tasks].
    destruct (tasks_error g); reflexivity.
  - intros He. unfold addTask, bind, save, with_tasks. cbn [tasks_error tasks].
    rewrite He. split; reflexivity.
  - intros e He. unfold addTask, bind, save, with_tasks. cbn [tasks_error tasks].
    rewrite He. split; reflexivity.
  - intros i r Hno. unfold setLastRun.
    destruct (findIndex i (tasks g)) as [n|] eqn:E; [|reflexivity].
    destruct (update_at_found i r _ n E) as [before [t0 [after [El [_ [Hid _]]]]]].
    rewrite El in Hno. apply Forall_app in Hno as [_ Hno].
    inversion Hno as [|? ? H0 _]; subst. contradiction.
  - intros i r before t0 after El Hid Hb.
    assert (E : exists n, findIndex i (tasks g) = Some n).
    { destruct (findIndex i (tasks g)) as [n|] eqn:E; [eauto|].
      apply findIndex_none in E. rewrite El in E. apply Forall_app in E as [_ E].
      inversion E as [|? ? H0 _]; subst. contradiction. }
    destruct E as [n E].
    destruct (update_at_found i r _ n E) as [b' [t' [a' [El' [_ [Hid' [Hb' Hu]]]]]]].
    assert (Hsame : b' = before /\ t' = t0 /\ a' = after).
    { rewrite El in El'. clear -El' Hb Hb' Hid Hid'.
      revert b' El' Hb'. induction before as [|x before IH]; intros b' El' Hb'.
      - destruct b' as [|y b']; cbn [app] in El'.
        + now injection El' as -> ->.
        + injection El' as <- _. inversion Hb' as [|? ? H0 _]; subst. contradiction.
      - inversion Hb as [|? ? Hx Hb0]; subst.
        destruct b' as [|y b']; cbn [app] in El'.
        + injection El' as -> _. contradiction.
        + injection El' as <- El'. inversion Hb' as [|? ? _ Hb1]; subst.
          destruct (IH Hb0 b' El' Hb1) as [-> [-> ->]]. auto. }
    destruct Hsame as [-> [-> ->]].
    unfold setLastRun. rewrite E. unfold save, with_tasks. cbn [tasks_error tasks].
    assert (Hids : map id (update_at n (set_lastRun r) (tasks g)) = map id (tasks g))
      by (apply update_at_ids; reflexivity).
    destruct (tasks_error g); cbn [snd tasks];
      (split; [exact Hu | exact Hids]).
Qed.

End Engine.

Lemma engine_keeps_its_tasks_witness :
  Scheduler.setLastRun (str "t9") (str "T1")
    (Scheduler.mkEngine [] None None [] None)
  = (Return tt, Scheduler.mkEngine [] None None [] None).
Proof.
  apply (proj1 (proj2 (proj2 (proj2
           (engine_keeps_its_tasks (str "T0")
              (Scheduler.mkTask (str "t1") (str "* * * * *") None
                 (Scheduler.RunChat (str "hello")) true None None None)
              (Scheduler.mkEngine [] None None [] None)))))
           (str "t9") (str "T1")).
  constructor.
Defined.

Section Runs.

Import Scheduler.
Variables W X : Type.
Variable ws : jsstring.
Variable sendMessage : jsstring -> option jsstring -> jsstring -> M (state W X) unit.
Variable runChat : jsstring -> M (state W X) jsstring.

Local Notation runTask := (Scheduler.runTask ws sendMessage runChat).

Lemma runTool_known name a (w : Server.world W) :
  known_tool name = true ->
  exists out, fst (Server.runTool ws name a w) = Return out.
Proof.
  unfold known_tool, Server.runTool, Server.on_fs. intros H.
  destruct (streq name (str "file.list")).
  { destruct (guarded_returns
                (WorkspaceFS.listDir ws
                   (if is_empty (Server.or_else (Server.b_path a) (str "."))
                    then str "." else Server.or_else (Server.b_path a) (str ".")))
                FileTools.Entries (Server.fs w)) as [out Hout].
    unfold FileTools.list. destruct (FileTools.guarded _ _ _) as [r f].
    cbn [fst] in *. eauto. }
  destruct (streq name (str "file.read")).
  { destruct (guarded_returns
                (WorkspaceFS.readText ws (Server.or_else (Server.b_path a) [])
                   match Server.b_maxBytes a with Some n => n | None => 1000000 end)
                FileTools.Text (Server.fs w)) as [out Hout].
    unfold FileTools.read. destruct (FileTools.guarded _ _ _) as [r f].
    cbn [fst] in *. eauto. }
  destruct (streq name (str "file.write")).
  { destruct (guarded_returns
                (WorkspaceFS.writeText ws (Server.or_else (Server.b_path a) [])
                   (Server.or_else (Server.b_content a) []))
                (fun _ => FileTools.Text (str "written")) (Server.fs w)) as [out Hout].
    unfold FileTools.write. destruct (FileTools.guarded _ _ _) as [r f].
    cbn [fst] in *. eauto. }
  destruct (streq name (str "file.delete")); [|discriminate].
  destruct (guarded_returns
              (WorkspaceFS.remove ws (Server.or_else (Server.b_path a) []))
              (fun _ => FileTools.Text (str "deleted")) (Server.fs w)) as [out Hout].
  unfold FileTools.delete. destruct (FileTools.guarded _ _ _) as [r f].
  cbn [fst] in *. eauto.
Qed.

Lemma runTool_unknown name a (w : Server.world W) :
  known_tool name = false ->
  Server.runTool ws name a w = (Throw (UnknownTool name), w).
Proof.
  unfold known_tool, Server.runTool. intros H.
  apply orb_false_iff in H as [H H4]. apply orb_false_iff in H as [H H3].
  apply orb_false_iff in H as [H1 H2]. now rewrite H1, H2, H3, H4.
Qed.


End Runs.


(* ================================================================== *)
(** * The summary of a first line *)

Section Summary.

Import Text.

Lemma collapse_from_spaces b s :
  Forall (fun c => is_space c = true -> c = 32) (collapse_from b s).
Proof.
  revert b. induction s as [|c s IH]; intros b; [constructor|].
  cbn [collapse_from]. destruct (is_space c) eqn:E.
  - destruct b; [apply IH|]. constructor; [reflexivity | apply IH].
  - constructor; [congruence | apply IH].
Qed.

Lemma slice_to_prefix s n : exists rest, s = slice_to s n ++ rest.
Proof.
  unfold slice_to. eexists. symmetry. apply firstn_skipn.
Qed.


End Summary.

